(** * A chat relay node: shallow embedding of [server/server.py] and
      [server/logger.py], and the properties of its session registry,
      relay deduplicator, broadcast, cleanup and wire decoding. *)

From Stdlib Require Import List String Ascii ZArith NArith Bool Arith Lia.
Import ListNotations.
Local Open Scope list_scope.

Set Implicit Arguments.
Set Warnings "-register-all".

(** ** Python strings

    A [str] is a sequence of Unicode code points. *)

Definition char := N.
Definition str := list char.

(** The literal of an ASCII string. *)
Definition py (s : string) : str := map N_of_ascii (list_ascii_of_string s).

Fixpoint str_eqb (a b : str) : bool :=
  match a, b with
  | [], [] => true
  | x :: a', y :: b' => N.eqb x y && str_eqb a' b'
  | _, _ => false
  end.

(** [str.isspace] on one code point: the table behind [str.strip()]. *)
Definition isspace (c : char) : bool :=
  ((9 <=? c) && (c <=? 13) || (28 <=? c) && (c <=? 32)
   || (c =? 133) || (c =? 160) || (c =? 5760)
   || (8192 <=? c) && (c <=? 8202)
   || (c =? 8232) || (c =? 8233) || (c =? 8239) || (c =? 8287)
   || (c =? 12288))%N.

Fixpoint lstrip (s : str) : str :=
  match s with
  | [] => []
  | c :: r => if isspace c then lstrip r else s
  end.

(** [s.strip()] *)
Definition strip (s : str) : str := rev (lstrip (rev (lstrip s))).

Definition newline : char := 10%N.

(** ** JSON values, as [json.loads] builds them

    Numbers are integers here: the clock readings of [time.time()] and the
    numbers of a message are compared only for equality, and the special
    floats (NaN, infinities) are left out. *)

Inductive json : Type :=
| JNull
| JBool (b : bool)
| JNum (z : Z)
| JStr (s : str)
| JList (l : list json)
| JDict (d : list (str * json)).

(** Truth value of an object ([if first_msg:]). *)
Definition truthy (j : json) : bool :=
  match j with
  | JNull => false
  | JBool b => b
  | JNum z => negb (Z.eqb z 0)
  | JStr s => match s with [] => false | _ => true end
  | JList l => match l with [] => false | _ => true end
  | JDict d => match d with [] => false | _ => true end
  end.

(** Lists and dicts cannot be hashed: using one as a key, or inside a tuple
    that is a key, raises [TypeError]. *)
Definition hashable (j : json) : bool :=
  match j with
  | JList _ | JDict _ => false
  | _ => true
  end.

(** [a == b] on hashable values: [True == 1] and [False == 0] as in Python. *)
Definition py_eqb (a b : json) : bool :=
  match a, b with
  | JNull, JNull => true
  | JBool x, JBool y => Bool.eqb x y
  | JBool x, JNum z => Z.eqb (if x then 1 else 0) z
  | JNum z, JBool y => Z.eqb z (if y then 1 else 0)
  | JNum x, JNum y => Z.eqb x y
  | JStr x, JStr y => str_eqb x y
  | _, _ => false
  end.

(** [j == "literal"] *)
Definition is_str (j : json) (s : str) : bool := py_eqb j (JStr s).

(** ** Python dicts: insertion-ordered association lists *)

Section Dict.
Variables K V : Type.
Variable eqb : K -> K -> bool.

(** [d.get(k)] as an option *)
Fixpoint dict_get (k : K) (d : list (K * V)) : option V :=
  match d with
  | [] => None
  | (k', v) :: r => if eqb k k' then Some v else dict_get k r
  end.

(** [k in d] *)
Definition dict_mem (k : K) (d : list (K * V)) : bool :=
  match dict_get k d with Some _ => true | None => false end.

(** [d[k] = v]: an existing key keeps its place, a new one goes last. *)
Fixpoint dict_set (k : K) (v : V) (d : list (K * V)) : list (K * V) :=
  match d with
  | [] => [(k, v)]
  | (k', v') :: r =>
      if eqb k k' then (k', v) :: r else (k', v') :: dict_set k v r
  end.

(** [d.pop(k, None)] *)
Fixpoint dict_pop (k : K) (d : list (K * V)) : list (K * V) :=
  match d with
  | [] => []
  | (k', v') :: r => if eqb k k' then r else (k', v') :: dict_pop k r
  end.
End Dict.

(** Results of operations that may raise. *)
Inductive res (A : Type) : Type :=
| Ok (a : A)
| Raise.
Arguments Raise {A}.

(** [msg.get(key)]: [AttributeError] unless [msg] is a dict, [None] for a
    missing key. *)
Definition get (msg : json) (key : str) : res json :=
  match msg with
  | JDict d => Ok (match dict_get str_eqb key d with Some v => v | None => JNull end)
  | _ => Raise
  end.

(** [msg.get(key, default)] *)
Definition get_default (msg : json) (key : str) (default : json) : res json :=
  match msg with
  | JDict d => Ok (match dict_get str_eqb key d with Some v => v | None => default end)
  | _ => Raise
  end.

(** [msg[key]] on a dict: [KeyError] for a missing key. *)
Definition getitem (msg : json) (key : str) : res json :=
  match msg with
  | JDict d => match dict_get str_eqb key d with Some v => Ok v | None => Raise end
  | _ => Raise
  end.

(** ** Sockets and what a [recv] returns *)

Definition sock := nat.

Inductive chunk : Type :=
| Recv (data : str)        (* bytes that decode as UTF-8; empty at end of stream *)
| RecvUndecodable          (* bytes on which [data.decode("utf-8")] raises *)
| RecvFails.               (* [sock.recv] raises *)

(** ** The environment of a node *)

(** How an append to the log file ends: the line is written and the call
    returns, or the call raises before anything is written ([open], the
    lock), or it raises once the line is in the file ([flush], the unlock,
    the close). *)
Inductive log_outcome : Type :=
| Appended
| FailedBefore
| FailedAfter.

Record env : Type := {
  json_loads : str -> option json;     (* [None]: [json.loads] raises *)
  send_ok : nat -> sock -> bool;       (* does this [sendall] succeed *)
  log_result : nat -> log_outcome;     (* how this append to the log file ends *)
  clock : nat -> Z;                    (* [time.time()] *)
  connect_ok : nat -> bool             (* does this [connect] succeed *)
}.

(** ** What a node does to the outside *)

Inductive thread : Type :=
| HandlePeer (pid : json) (psock : sock).

Inductive event : Type :=
| Send (s : sock) (payload : json) (ok : bool)
| Close (s : sock)
| LogLine (line : json)
| LogFailed
| Connect (s : sock) (host : json) (port : json) (ok : bool)
| Sleep (n : Z)
| Spawn (t : thread).

(** The relay fingerprint, a 4-tuple. *)
Definition fingerprint : Type := json * json * json * json.

Definition key_hashable (k : fingerprint) : bool :=
  let '(a, b, c, d) := k in
  hashable a && hashable b && hashable c && hashable d.

Definition key_eqb (k1 k2 : fingerprint) : bool :=
  let '(a1, b1, c1, d1) := k1 in
  let '(a2, b2, c2, d2) := k2 in
  py_eqb a1 a2 && py_eqb b1 b2 && py_eqb c1 c2 && py_eqb d1 d2.

(** [key in seen] *)
Definition set_mem (k : fingerprint) (s : list fingerprint) : bool :=
  existsb (key_eqb k) s.

(** ** The node *)

Record node : Type := {
  server_id : str;
  clients : list (str * sock);        (* self.clients: username -> socket *)
  peer_sockets : list (json * sock);  (* self.peer_sockets: peer_id -> socket *)
  seen : list fingerprint;            (* self.seen *)
  heap : list json;                   (* the record objects built so far *)
  logfile : list json;                (* lines appended to the shared log *)
  trace : list event;
  tick : nat;                         (* calls made to the environment *)
  fresh : sock                        (* next socket of [socket.socket()] *)
}.

Definition with_clients (w : node) (c : list (str * sock)) : node :=
  {| server_id := server_id w; clients := c; peer_sockets := peer_sockets w;
     seen := seen w; heap := heap w; logfile := logfile w; trace := trace w;
     tick := tick w; fresh := fresh w |}.

Definition with_peer_sockets (w : node) (p : list (json * sock)) : node :=
  {| server_id := server_id w; clients := clients w; peer_sockets := p;
     seen := seen w; heap := heap w; logfile := logfile w; trace := trace w;
     tick := tick w; fresh := fresh w |}.

Definition with_seen (w : node) (s : list fingerprint) : node :=
  {| server_id := server_id w; clients := clients w;
     peer_sockets := peer_sockets w;
     seen := s; heap := heap w; logfile := logfile w; trace := trace w;
     tick := tick w; fresh := fresh w |}.

Definition with_heap (w : node) (h : list json) : node :=
  {| server_id := server_id w; clients := clients w;
     peer_sockets := peer_sockets w;
     seen := seen w; heap := h; logfile := logfile w; trace := trace w;
     tick := tick w; fresh := fresh w |}.

Definition with_logfile (w : node) (l : list json) : node :=
  {| server_id := server_id w; clients := clients w;
     peer_sockets := peer_sockets w;
     seen := seen w; heap := heap w; logfile := l; trace := trace w;
     tick := tick w; fresh := fresh w |}.

(** One more event, one more call to the environment. *)
Definition emit_event (w : node) (e : event) : node :=
  {| server_id := server_id w; clients := clients w;
     peer_sockets := peer_sockets w;
     seen := seen w; heap := heap w; logfile := logfile w;
     trace := trace w ++ [e];
     tick := S (tick w); fresh := fresh w |}.

Definition with_tick (w : node) : node :=
  {| server_id := server_id w; clients := clients w;
     peer_sockets := peer_sockets w;
     seen := seen w; heap := heap w; logfile := logfile w; trace := trace w;
     tick := S (tick w); fresh := fresh w |}.

Definition with_fresh (w : node) : node :=
  {| server_id := server_id w; clients := clients w;
     peer_sockets := peer_sockets w;
     seen := seen w; heap := heap w; logfile := logfile w; trace := trace w;
     tick := tick w; fresh := S (fresh w) |}.

(** The node of [ChatServer.__init__]. *)
Definition init_node (sid : str) : node :=
  {| server_id := sid; clients := []; peer_sockets := []; seen := [];
     heap := []; logfile := []; trace := []; tick := 0; fresh := 0 |}.

(** ** Wire codec: [recv_json_lines] *)

(** What the generator produces: the messages it yields, each with the part
    of the socket's input not yet received at that point, and how it ends. *)
Inductive stream : Type :=
| SYield (m : json) (unread : list chunk) (next : stream)
| SEnd (unread : list chunk)     (* [return]: end of input *)
| SRaise.                        (* an exception leaves the generator *)

(** The inner loop [while "\n" in buffer]: the stripped non-empty lines of
    [buffer] and the text after its last newline. [cur] is the line being
    read, reversed. *)
Fixpoint split_lines (cur : str) (buffer : str) : list str * str :=
  match buffer with
  | [] => ([], rev cur)
  | c :: r =>
      if N.eqb c newline then
        let line := strip (rev cur) in
        let (ls, left) := split_lines [] r in
        (match line with [] => ls | _ => line :: ls end, left)
      else split_lines (c :: cur) r
  end.

Section Node.
Variable E : env.

(** [yield json.loads(line)] for each line, until one does not parse. *)
Fixpoint yield_lines (lines : list str) (unread : list chunk)
         (k : stream) : stream :=
  match lines with
  | [] => k
  | l :: ls =>
      match json_loads E l with
      | Some m => SYield m unread (yield_lines ls unread k)
      | None => SRaise
      end
  end.

(** The outer loop, from a buffer and the input not yet received. *)
Fixpoint recv_loop (buffer : str) (rx : list chunk) : stream :=
  match rx with
  | [] => SEnd []
  | RecvFails :: _ => SRaise
  | RecvUndecodable :: _ => SRaise
  | Recv [] :: cs => SEnd cs
  | Recv data :: cs =>
      let (ls, left) := split_lines [] (buffer ++ data) in
      yield_lines ls cs (recv_loop left cs)
  end.

Definition recv_json_lines (rx : list chunk) : stream := recv_loop [] rx.

(** [send_json(sock, obj)]: the object is serialised now, then sent. *)
Definition send_json (s : sock) (obj : json) (w : node) : res unit * node :=
  let ok := send_ok E (tick w) s in
  ((if ok then Ok tt else Raise), emit_event w (Send s obj ok)).

(** [time.time()] *)
Definition time_time (w : node) : Z * node := (clock E (tick w), with_tick w).

(** The object a reference points to. *)
Definition deref (w : node) (r : nat) : json := nth r (heap w) JNull.

(** A new object. *)
Definition alloc (o : json) (w : node) : nat * node :=
  (List.length (heap w), with_heap w (heap w ++ [o])).

(** [obj[key] = v] through a reference. *)
Definition setitem (r : nat) (key : str) (v : json) (w : node) : res unit * node :=
  match nth_error (heap w) r with
  | Some (JDict d) =>
      (Ok tt,
       with_heap w (firstn r (heap w) ++ JDict (dict_set str_eqb key v d)
                      :: skipn (S r) (heap w)))
  | _ => (Raise, w)
  end.

(** *** [SharedLogger.log]

    [record] is a reference to the caller's object. *)
Definition log (record : nat) (w : node) : res unit * node :=
  let (now, w1) := time_time w in
  match setitem record (py "logged_at") (JNum now) w1 with
  | (Raise, w2) => (Raise, w2)
  | (Ok _, w2) =>
      let line := deref w2 record in
      match log_result E (tick w2) with
      | Appended =>
          (Ok tt,
           with_logfile (emit_event w2 (LogLine line)) (logfile w2 ++ [line]))
      | FailedBefore => (Raise, emit_event w2 LogFailed)
      | FailedAfter =>
          (Raise,
           emit_event
             (with_logfile (emit_event w2 (LogLine line)) (logfile w2 ++ [line]))
             LogFailed)
      end
  end.

(** *** [ChatServer.broadcast_local] *)

Definition excluded (uname : str) (exclude : option str) : bool :=
  match exclude with
  | Some e => str_eqb uname e
  | None => false
  end.

(** The loop over [self.clients.items()]; the result is [dead]. *)
Fixpoint broadcast_loop (items : list (str * sock)) (record : json)
         (exclude : option str) (dead : list str) (w : node)
  : list str * node :=
  match items with
  | [] => (dead, w)
  | (uname, s) :: r =>
      if excluded uname exclude then broadcast_loop r record exclude dead w
      else
        match send_json s record w with
        | (Ok _, w') => broadcast_loop r record exclude dead w'
        | (Raise, w') => broadcast_loop r record exclude (dead ++ [uname]) w'
        end
  end.

(** [for uname in dead: self.clients.pop(uname, None)] *)
Definition remove_dead (dead : list str) (c : list (str * sock))
  : list (str * sock) :=
  fold_left (fun c uname => dict_pop str_eqb uname c) dead c.

Definition broadcast_local (record : json) (exclude : option str)
           (w : node) : node :=
  let (dead, w') := broadcast_loop (clients w) record exclude [] w in
  with_clients w' (remove_dead dead (clients w')).

(** *** [ChatServer.forward_to_peers] *)

Fixpoint forward_loop (items : list (json * sock)) (packet : json)
         (w : node) : node :=
  match items with
  | [] => w
  | (pid, psock) :: r =>
      match send_json psock packet w with
      | (Ok _, w') => forward_loop r packet w'
      | (Raise, w') =>
          forward_loop r packet
            (with_peer_sockets w' (dict_pop py_eqb pid (peer_sockets w')))
      end
  end.

Definition relay_packet (from origin text timestamp : json) : json :=
  JDict [(py "type", JStr (py "relay_msg")); (py "from", from);
         (py "origin_server", origin); (py "text", text);
         (py "timestamp", timestamp)].

Definition forward_to_peers (record : json) (w : node) : res unit * node :=
  match getitem record (py "from"), getitem record (py "server"),
        getitem record (py "text"), getitem record (py "timestamp") with
  | Ok f, Ok o, Ok t, Ok ts =>
      (Ok tt, forward_loop (peer_sockets w) (relay_packet f o t ts) w)
  | _, _, _, _ => (Raise, w)
  end.

(** *** [ChatServer.handle_client] *)

Definition error_msg (text : str) : json :=
  JDict [(py "type", JStr (py "error")); (py "text", JStr text)].

Definition system_msg (text : str) : json :=
  JDict [(py "type", JStr (py "system")); (py "text", JStr text)].

Definition welcome_text (username sid : str) : str :=
  py "Welcome " ++ username ++ py "! Connected to Server " ++ sid.

Definition joined_text (username : str) : str :=
  username ++ py " joined the chat".

Definition left_text (username : str) : str :=
  username ++ py " left the chat".

Definition chat_record (username sid : str) (text : json) (now : Z) : json :=
  JDict [(py "type", JStr (py "msg")); (py "from", JStr username);
         (py "server", JStr sid); (py "text", text);
         (py "timestamp", JNum now)].

(** How the body of a [for] loop ends. *)
Inductive ctl : Type :=
| Next       (* falls through, or [continue] *)
| Break
| Raised.

(** The critical section under [clients_lock] (lines 102-108), check and
    insert: [Ok true] when the name has been registered, [Ok false] on
    [continue], after the error has been sent. *)
Definition try_register (csock : sock) (requested_name : str) (w : node)
  : res bool * node :=
  if dict_mem str_eqb requested_name (clients w) then
    match send_json csock (error_msg (py "username taken")) w with
    | (Ok _, w') => (Ok false, w')
    | (Raise, w') => (Raise, w')
    end
  else
    (Ok true,
     with_clients w (dict_set str_eqb requested_name csock (clients w))).

(** The [login] branch (lines 96-118). The local [username] is part of the
    result: it is assigned before the sends that may raise. *)
Definition login (csock : sock) (msg : json) (username : option str)
           (w : node) : ctl * option str * node :=
  match get_default msg (py "username") (JStr []) with
  | Ok (JStr name) =>
      let requested_name := strip name in
      match requested_name with
      | [] =>
          match send_json csock (error_msg (py "username required")) w with
          | (Ok _, w') => (Next, username, w')
          | (Raise, w') => (Raised, username, w')
          end
      | _ :: _ =>
          match try_register csock requested_name w with
          | (Raise, w') => (Raised, username, w')
          | (Ok false, w') => (Next, username, w')
          | (Ok true, w1) =>
              match send_json csock
                      (system_msg (welcome_text requested_name (server_id w1)))
                      w1 with
              | (Raise, w2) => (Raised, Some requested_name, w2)
              | (Ok _, w2) =>
                  (Next, Some requested_name,
                   broadcast_local (system_msg (joined_text requested_name))
                     (Some requested_name) w2)
              end
          end
      end
  | _ => (Raised, username, w)
  end.

(** The [msg] branch (lines 123-140, and again 156-168). *)
Definition chat (msg : json) (username : str) (w : node) : ctl * node :=
  match get_default msg (py "text") (JStr []) with
  | Raise => (Raised, w)
  | Ok text =>
      let (now, w1) := time_time w in
      let (record, w2) :=
        alloc (chat_record username (server_id w1) text now) w1 in
      let w3 := broadcast_local (deref w2 record) None w2 in
      match forward_to_peers (deref w3 record) w3 with
      | (Raise, w4) => (Raised, w4)
      | (Ok _, w4) =>
          match log record w4 with
          | (Ok _, w5) => (Next, w5)
          | (Raise, w5) => (Raised, w5)
          end
      end
  end.

(** [username] as a condition: set, and not the empty string. *)
Definition active (username : option str) : option str :=
  match username with
  | Some (c :: r) => Some (c :: r)
  | _ => None
  end.

(** Body of the first loop (lines 92-148). *)
Definition first_loop_body (csock : sock) (msg : json)
           (username : option str) (w : node) : ctl * option str * node :=
  match get msg (py "type") with
  | Raise => (Raised, username, w)
  | Ok msg_type =>
      if is_str msg_type (py "login") then login csock msg username w
      else
        match is_str msg_type (py "msg"), active username with
        | true, Some u => let (c, w') := chat msg u w in (c, username, w')
        | _, _ =>
            if is_str msg_type (py "quit") then (Break, username, w)
            else
              match send_json csock (error_msg (py "invalid request")) w with
              | (Ok _, w') => (Next, username, w')
              | (Raise, w') => (Raised, username, w')
              end
        end
  end.

(** Body of the second loop (lines 153-171). *)
Definition second_loop_body (msg : json) (username : option str)
           (w : node) : ctl * option str * node :=
  match get msg (py "type") with
  | Raise => (Raised, username, w)
  | Ok msg_type =>
      match is_str msg_type (py "msg"), active username with
      | true, Some u => let (c, w') := chat msg u w in (c, username, w')
      | _, _ =>
          if is_str msg_type (py "quit") then (Break, username, w)
          else (Next, username, w)
      end
  end.

(** How a [for] loop over a message stream ends: normally, with the
    socket's input not yet received, or by an exception. *)
Inductive loop_end : Type :=
| Done (unread : list chunk)
| Failed.

Fixpoint for_loop (body : json -> option str -> node -> ctl * option str * node)
         (msgs : stream) (username : option str) (w : node)
  : loop_end * option str * node :=
  match msgs with
  | SEnd unread => (Done unread, username, w)
  | SRaise => (Failed, username, w)
  | SYield m unread next =>
      match body m username w with
      | (Next, u, w') => for_loop body next u w'
      | (Break, u, w') => (Done unread, u, w')
      | (Raised, u, w') => (Failed, u, w')
      end
  end.

(** [msgs_iter]: the first message alone when there is a true one, else
    the socket's lines. *)
Definition msgs_iter (first_msg : option json) (rx : list chunk) : stream :=
  match first_msg with
  | Some m => if truthy m then SYield m rx (SEnd rx) else recv_json_lines rx
  | None => recv_json_lines rx
  end.

(** The [try] block (lines 84-171): the two loops. Returns the local
    [username] as the [finally] block finds it. *)
Definition client_loops (csock : sock) (first_msg : option json)
           (rx : list chunk) (w : node) : option str * node :=
  match for_loop (first_loop_body csock) (msgs_iter first_msg rx) None w with
  | (Failed, u, w1) => (u, w1)
  | (Done unread, u, w1) =>
      let '(_, u2, w2) :=
        for_loop second_loop_body (recv_json_lines unread) u w1 in
      (u2, w2)
  end.

(** The critical section of the [finally] block (lines 178-179). *)
Definition unregister (username : str) (w : node) : node :=
  with_clients w (dict_pop str_eqb username (clients w)).

(** The [finally] block (lines 176-186). *)
Definition client_cleanup (csock : sock) (username : option str)
           (w : node) : node :=
  let w' :=
    match active username with
    | Some u => broadcast_local (system_msg (left_text u)) None (unregister u w)
    | None => w
    end in
  emit_event w' (Close csock).

Definition handle_client (csock : sock) (first_msg : option json)
           (rx : list chunk) (w : node) : node :=
  let (u, w') := client_loops csock first_msg rx w in
  client_cleanup csock u w'.

(** *** [ChatServer.handle_peer] *)

Definition local_record (from origin text timestamp : json) : json :=
  JDict [(py "type", JStr (py "msg")); (py "from", from);
         (py "server", origin); (py "text", text);
         (py "timestamp", timestamp)].

(** The critical section under [seen_lock] (lines 272-275): [Ok true] when
    the key is new and has been added, [Ok false] on [continue]. *)
Definition should_process (key : fingerprint) (w : node) : res bool * node :=
  if key_hashable key then
    if set_mem key (seen w) then (Ok false, w)
    else (Ok true, with_seen w (seen w ++ [key]))
  else (Raise, w).

(** Body of the loop (lines 261-290). *)
Definition peer_loop_body (msg : json) (w : node) : ctl * node :=
  match get msg (py "type") with
  | Raise => (Raised, w)
  | Ok t =>
      if negb (is_str t (py "relay_msg")) then (Next, w)
      else
        match get msg (py "origin_server"), get msg (py "timestamp"),
              get msg (py "from"), get msg (py "text") with
        | Ok o, Ok ts, Ok f, Ok tx =>
            match should_process (o, ts, f, tx) w with
            | (Raise, w1) => (Raised, w1)
            | (Ok false, w1) => (Next, w1)
            | (Ok true, w1) =>
                match getitem msg (py "from"),
                      getitem msg (py "origin_server"),
                      getitem msg (py "text"),
                      getitem msg (py "timestamp") with
                | Ok f', Ok o', Ok tx', Ok ts' =>
                    let (record, w2) := alloc (local_record f' o' tx' ts') w1 in
                    let w3 := broadcast_local (deref w2 record) None w2 in
                    match log record w3 with
                    | (Ok _, w4) => (Next, w4)
                    | (Raise, w4) => (Raised, w4)
                    end
                | _, _, _, _ => (Raised, w1)
                end
            end
        | _, _, _, _ => (Raised, w)
        end
  end.

Fixpoint peer_loop (msgs : stream) (w : node) : node :=
  match msgs with
  | SEnd _ => w
  | SRaise => w
  | SYield m _ next =>
      match peer_loop_body m w with
      | (Next, w') => peer_loop next w'
      | (_, w') => w'
      end
  end.

(** The loop, then the [finally] block (lines 295-297); an unhashable
    [pid] makes the [pop] raise before the socket is closed. *)
Definition handle_peer (pid : json) (psock : sock) (rx : list chunk)
           (w : node) : res unit * node :=
  let w1 := peer_loop (recv_json_lines rx) w in
  if hashable pid then
    (Ok tt,
     emit_event (with_peer_sockets w1 (dict_pop py_eqb pid (peer_sockets w1)))
       (Close psock))
  else (Raise, w1).

(** *** [ChatServer.peer_connector] *)

Definition hello_msg (sid : str) : json :=
  JDict [(py "type", JStr (py "hello")); (py "from_server", JStr sid)].

(** One turn of [while True] (lines 231-251): [true] on [return]. *)
Definition connect_attempt (pid phost pport : json) (w : node) : bool * node :=
  let psock := fresh w in
  let w0 := with_fresh w in
  let ok := connect_ok E (tick w0) in
  let w1 := emit_event w0 (Connect psock phost pport ok) in
  if ok then
    match send_json psock (hello_msg (server_id w1)) w1 with
    | (Raise, w2) => (false, emit_event w2 (Sleep 2))
    | (Ok _, w2) =>
        if hashable pid then
          let w3 :=
            with_peer_sockets w2 (dict_set py_eqb pid psock (peer_sockets w2)) in
          (true, emit_event w3 (Spawn (HandlePeer pid psock)))
        else (false, emit_event w2 (Sleep 2))
    end
  else (false, emit_event w1 (Sleep 2)).

(** At most [turns] turns of the loop: [true] when it has returned. *)
Fixpoint peer_connector (turns : nat) (pid phost pport : json) (w : node)
  : bool * node :=
  match turns with
  | O => (false, w)
  | S n =>
      match connect_attempt pid phost pport w with
      | (true, w') => (true, w')
      | (false, w') => peer_connector n pid phost pport w'
      end
  end.

(** *** [ChatServer.route_connection] *)

Definition route_connection (s : sock) (rx : list chunk) (w : node) : node :=
  match recv_json_lines rx with
  | SYield first_msg unread _ =>
      match get first_msg (py "type") with
      | Raise => emit_event w (Close s)
      | Ok t =>
          if is_str t (py "hello") then
            match get first_msg (py "from_server") with
            | Ok pid =>
                if hashable pid then
                  let w1 :=
                    with_peer_sockets w (dict_set py_eqb pid s (peer_sockets w)) in
                  match handle_peer pid s unread w1 with
                  | (Ok _, w2) => w2
                  | (Raise, w2) => emit_event w2 (Close s)
                  end
                else emit_event w (Close s)
            | Raise => emit_event w (Close s)
            end
          else handle_client s (Some first_msg) unread w
      end
  | SEnd _ => emit_event w (Close s)
  | SRaise => emit_event w (Close s)
  end.
End Node.

(** ** Vocabulary of the statements *)

(** The usernames of a registry. *)
Definition names (c : list (str * sock)) : list str := map fst c.

(** A run of events, one after the other. *)
Definition emit_events (w : node) (es : list event) : node :=
  fold_left emit_event es w.

(** The registry entries a broadcast addresses. *)
Definition recipients (exclude : option str) (c : list (str * sock))
  : list (str * sock) :=
  filter (fun p => negb (excluded (fst p) exclude)) c.

Section Attempts.
Variable E : env.

(** One send attempt per entry, in order, from environment call [n] on. *)
Fixpoint attempts (record : json) (n : nat) (rs : list (str * sock))
  : list event :=
  match rs with
  | [] => []
  | (_, s) :: r => Send s record (send_ok E n s) :: attempts record (S n) r
  end.

(** The names among them whose send fails. *)
Fixpoint failed (n : nat) (rs : list (str * sock)) : list str :=
  match rs with
  | [] => []
  | (u, s) :: r =>
      if send_ok E n s then failed (S n) r else u :: failed (S n) r
  end.
End Attempts.

(** The events of message handling: sends and log appends. *)
Definition delivery (e : event) : Prop :=
  match e with
  | Send _ _ _ | LogLine _ | LogFailed => True
  | _ => False
  end.

(** [w'] comes after [w]: the trace has grown by events that satisfy [P],
    the seen set has grown, and the registry still has one entry per name. *)
Definition evolves (P : event -> Prop) (w w' : node) : Prop :=
  (exists es, trace w' = trace w ++ es /\ Forall P es)
  /\ (exists ks, seen w' = seen w ++ ks)
  /\ (NoDup (names (clients w)) -> NoDup (names (clients w')))
  /\ server_id w' = server_id w.

(** The events of the connector. *)
Definition connecting (e : event) : Prop :=
  match e with
  | Connect _ _ _ _ | Sleep _ | Spawn _ | Send _ _ _ => True
  | _ => False
  end.

(** How many times a run of events closes socket [s]. *)
Fixpoint closes (s : sock) (es : list event) : nat :=
  match es with
  | [] => 0
  | Close s' :: r => (if Nat.eqb s s' then 1 else 0) + closes s r
  | _ :: r => closes s r
  end.


(** *** Schedules

    What a node does, at every grain the code has: whole handlers, the
    handling of one message, and the critical sections and calls they are
    made of. The threads of a node interleave at the critical sections, so
    every execution is a sequence of these. *)
Inductive op : Type :=
| RouteConnection (s : sock) (rx : list chunk)
| HandleClient (csock : sock) (first_msg : option json) (rx : list chunk)
| HandlePeerLink (pid : json) (psock : sock) (rx : list chunk)
| PeerConnector (turns : nat) (pid phost pport : json)
| ClientMessage (csock : sock) (msg : json) (username : option str)
| LaterMessage (msg : json) (username : option str)
| ClientCleanup (csock : sock) (username : option str)
| PeerMessage (msg : json)
| ConnectAttempt (pid phost pport : json)
| TryRegister (csock : sock) (name : str)
| Unregister (name : str)
| BroadcastLocal (record : json) (exclude : option str)
| ForwardToPeers (record : json)
| ShouldProcess (key : fingerprint)
| LogAppend (record : nat)
| SendJson (s : sock) (obj : json).

Section Schedules.
Variable E : env.

Definition exec (o : op) (w : node) : node :=
  match o with
  | RouteConnection s rx => route_connection E s rx w
  | HandleClient csock first_msg rx => handle_client E csock first_msg rx w
  | HandlePeerLink pid psock rx => snd (handle_peer E pid psock rx w)
  | PeerConnector turns pid phost pport =>
      snd (peer_connector E turns pid phost pport w)
  | ClientMessage csock msg username =>
      snd (first_loop_body E csock msg username w)
  | LaterMessage msg username => snd (second_loop_body E msg username w)
  | ClientCleanup csock username => client_cleanup E csock username w
  | PeerMessage msg => snd (peer_loop_body E msg w)
  | ConnectAttempt pid phost pport => snd (connect_attempt E pid phost pport w)
  | TryRegister csock name => snd (try_register E csock name w)
  | Unregister name => unregister name w
  | BroadcastLocal record exclude => broadcast_local E record exclude w
  | ForwardToPeers record => snd (forward_to_peers E record w)
  | ShouldProcess key => snd (should_process key w)
  | LogAppend record => snd (log E record w)
  | SendJson s obj => snd (send_json E s obj w)
  end.

Definition run (ops : list op) (w : node) : node := fold_left (fun w o => exec o w) ops w.

(** Login requests handled one after the other, each on its own socket. *)
Fixpoint login_all (reqs : list (sock * list (str * json))) (w : node) : node :=
  match reqs with
  | [] => w
  | (s, d) :: r => login_all r (snd (login E s (JDict d) None w))
  end.

(** The replies to requests that find the name taken. *)
Fixpoint rejections (n : nat) (reqs : list (sock * list (str * json)))
  : list event :=
  match reqs with
  | [] => []
  | (s, _) :: r =>
      Send s (error_msg (py "username taken")) (send_ok E n s)
      :: rejections (S n) r
  end.
End Schedules.

(** A login request for [name]: the [username] field strips to it. *)
Definition asks_for (name : str) (d : list (str * json)) : Prop :=
  exists raw, dict_get str_eqb (py "username") d = Some (JStr raw)
              /\ strip raw = name.

(** The local [username] is never the empty string. *)
Definition named (u : option str) : Prop := u <> Some [].

(** A field of a message, [None] when it is missing. *)
Definition field (key : string) (d : list (str * json)) : json :=
  match dict_get str_eqb (py key) d with
  | Some v => v
  | None => JNull
  end.

(** The message is a [relay_msg]. *)
Definition is_relay (d : list (str * json)) : Prop :=
  is_str (field "type" d) (py "relay_msg") = true.

(** Its fingerprint. *)
Definition relay_key (d : list (str * json)) : fingerprint :=
  (field "origin_server" d, field "timestamp" d, field "from" d, field "text" d).

(** How many lines a run of events appends to the log. *)
Fixpoint log_appends (es : list event) : nat :=
  match es with
  | [] => 0
  | LogLine _ :: r => S (log_appends r)
  | _ :: r => log_appends r
  end.

(** The events of one append, and the lines it leaves in the file. *)
Definition log_events (o : log_outcome) (line : json) : list event :=
  match o with
  | Appended => [LogLine line]
  | FailedBefore => [LogFailed]
  | FailedAfter => [LogLine line; LogFailed]
  end.

Definition logged_lines (o : log_outcome) (line : json) : list json :=
  match o with
  | FailedBefore => []
  | _ => [line]
  end.

(** The append raises. *)
Definition log_raises (o : log_outcome) : bool :=
  match o with
  | Appended => false
  | _ => true
  end.

(** The value a hashable object is compared by. *)
Inductive atom : Type :=
| ANull
| ANum (z : Z)
| AStr (s : str).

Definition canon (j : json) : option atom :=
  match j with
  | JNull => Some ANull
  | JBool b => Some (ANum (if b then 1 else 0))
  | JNum z => Some (ANum z)
  | JStr s => Some (AStr s)
  | _ => None
  end.

(** The events of the handling of one relay message: nothing, or one
    broadcast to the registry followed by at most one log append. *)
Definition relay_events (E : env) (w : node) (es : list event) : Prop :=
  es = []
  \/ exists record e,
       es = attempts E record (tick w) (clients w) ++ e
       /\ (e = [] \/ exists o l, e = log_events o l).

(** *** Concrete messages and environments for the examples

    A flat object with string values, and the line [json.dumps] writes for
    it (ASCII without quotes or backslashes needs no escape). *)
Definition quoted (s : string) : str := [34%N] ++ py s ++ [34%N].

Fixpoint members (fs : list (string * string)) : str :=
  match fs with
  | [] => []
  | (k, v) :: r =>
      quoted k ++ py ": " ++ quoted v
      ++ match r with [] => [] | _ => py ", " ++ members r end
  end.

Definition line_of (fs : list (string * string)) : str :=
  py "{" ++ members fs ++ py "}" ++ [newline].

Definition obj_of (fs : list (string * string)) : json :=
  JDict (map (fun kv => (py (fst kv), JStr (py (snd kv)))) fs).

(** [json.loads] on the lines of the given objects; it raises elsewhere. *)
Definition loads_of (msgs : list (list (string * string))) (l : str)
  : option json :=
  dict_get str_eqb l (map (fun fs => (strip (line_of fs), obj_of fs)) msgs).

Definition login_fields (name : string) : list (string * string) :=
  [("type", "login"); ("username", name)]%string.

Definition msg_fields (text : string) : list (string * string) :=
  [("type", "msg"); ("text", text)]%string.

Definition quit_fields : list (string * string) := [("type", "quit")]%string.

Definition ping_fields : list (string * string) := [("type", "ping")]%string.

(** An environment that knows these lines; the clock counts the calls. *)
Definition demo_env (sends : nat -> sock -> bool) (logs : nat -> log_outcome)
  : env :=
  {| json_loads :=
       loads_of [login_fields "alice"; login_fields "bob"; login_fields "  ";
                 msg_fields "hi"; msg_fields "again"; quit_fields; ping_fields;
                 []];
     send_ok := sends;
     log_result := logs;
     clock := fun n => Z.of_nat n;
     connect_ok := fun _ => true |}.

(** Everything works. *)
Definition fair_env : env := demo_env (fun _ _ => true) (fun _ => Appended).

(** Node A. *)
Definition node_A : node := init_node (py "A").

(** Node A with [alice] logged in on socket 1. *)
Definition node_A_alice : node :=
  snd (first_loop_body fair_env 1 (obj_of (login_fields "alice")) None node_A).

(** The text of a [msg], with its default. *)
Definition text_of (d : list (str * json)) : json :=
  match dict_get str_eqb (py "text") d with
  | Some v => v
  | None => JStr []
  end.

(** The message is a [msg]. *)
Definition is_msg (d : list (str * json)) : Prop :=
  is_str (field "type" d) (py "msg") = true.

(** A record after [record["logged_at"] = t]. *)
Definition with_logged_at (record : json) (t : Z) : json :=
  match record with
  | JDict d => JDict (dict_set str_eqb (py "logged_at") (JNum t) d)
  | _ => record
  end.

(** One send attempt per peer link, in order, from environment call [n] on. *)
Fixpoint peer_attempts (E : env) (packet : json) (n : nat)
         (items : list (json * sock)) : list event :=
  match items with
  | [] => []
  | (_, s) :: r => Send s packet (send_ok E n s) :: peer_attempts E packet (S n) r
  end.

(** The log file cannot be written. *)
Definition broken_log_env : env :=
  demo_env (fun _ _ => true) (fun _ => FailedBefore).

(** [n] failed turns of the connector, from socket [s] on: each a connect
    that fails and the 2-second sleep. *)
Fixpoint failed_turns (n : nat) (s : sock) (phost pport : json) : list event :=
  match n with
  | O => []
  | S k => Connect s phost pport false :: Sleep 2 :: failed_turns k (S s) phost pport
  end.

(** The threads a node runs for one configured peer: the connector and,
    once it has returned, the handler it started on the link; [rx] is what
    the link delivers before it drops. *)
Definition peer_threads (E : env) (turns : nat) (pid phost pport : json)
           (rx : list chunk) (w : node) : node :=
  match peer_connector E turns pid phost pport w with
  | (true, w1) =>
      match last (trace w1) (Sleep 0) with
      | Spawn (HandlePeer pid' psock) => snd (handle_peer E pid' psock rx w1)
      | _ => w1
      end
  | (false, w1) => w1
  end.

(** The event is a connect. *)
Definition is_connect (e : event) : bool :=
  match e with
  | Connect _ _ _ _ => true
  | _ => false
  end.

(** Sends to socket 1 fail. *)
Definition dead_socket_env : env :=
  demo_env (fun _ s => negb (Nat.eqb s 1)) (fun _ => Appended).

(** Node A with three users. *)
Definition node_A_three : node :=
  with_clients node_A [(py "alice", 1); (py "bob", 2); (py "carol", 3)].

(** A relay message from node B. *)
Definition relay_hi : list (str * json) :=
  [(py "type", JStr (py "relay_msg")); (py "from", JStr (py "bob"));
   (py "origin_server", JStr (py "B")); (py "text", JStr (py "hi"));
   (py "timestamp", JNum 1700000000)].

(** ** Vocabulary of the statements on sessions, log failures and retries *)

(** The name the login branch registers for message [m] on the registry of
    [w] (lines 95-108): [m] is a [login] whose [username] is a string that
    strips to a name that is not empty and not in the registry. *)
Definition granted (m : json) (w : node) : option str :=
  match get m (py "type"), get_default m (py "username") (JStr []) with
  | Ok t, Ok (JStr raw) =>
      if is_str t (py "login") then
        match strip raw with
        | [] => None
        | name =>
            if dict_mem str_eqb name (clients w) then None else Some name
        end
      else None
  | _, _ => None
  end.

(** The names a connection registers, in order, while its first loop goes
    through [msgs]. *)
Fixpoint grants (E : env) (csock : sock) (msgs : stream) (u : option str)
         (w : node) : list str :=
  match msgs with
  | SYield m _ next =>
      match granted m w with Some n => [n] | None => [] end
      ++ match first_loop_body E csock m u w with
         | (Next, u', w') => grants E csock next u' w'
         | _ => []
         end
  | _ => []
  end.

(** The last of them, if any. *)
Definition last_granted (gs : list str) : option str := last (map Some gs) None.

(** Where a [for] loop stands once it has been through [n] messages that
    let it go on: the rest of the stream, the local [username] and the
    node; [None] if the loop is over before. *)
Fixpoint advance (body : json -> option str -> node -> ctl * option str * node)
         (n : nat) (msgs : stream) (u : option str) (w : node)
  : option (stream * option str * node) :=
  match n with
  | O => Some (msgs, u, w)
  | S k =>
      match msgs with
      | SYield m _ next =>
          match body m u w with
          | (Next, u', w') => advance body k next u' w'
          | _ => None
          end
      | _ => None
      end
  end.

(** The call to the environment that is the log append of a [msg] whose
    handling starts on [w]: after the clock reading, one send per registry
    entry, one per peer link and the clock reading of the logger. *)
Definition log_turn (w : node) : nat :=
  S (S (tick w) + List.length (clients w) + List.length (peer_sockets w)).

(** How a turn of the connector fails: the connect raises; or the [hello]
    send; or the table refuses the peer id as a key. *)
Inductive turn_failure : Type :=
| ConnectFails
| HelloFails
| EntryFails.

(** The calls to the environment that such a turn makes, its sleep
    included. *)
Definition turn_cost (f : turn_failure) : nat :=
  match f with
  | ConnectFails => 2
  | HelloFails | EntryFails => 3
  end.

(** A turn that starts at call [t] on socket [s] fails that way. *)
Definition turn_fails (E : env) (pid : json) (t : nat) (s : sock)
           (f : turn_failure) : bool :=
  match f with
  | ConnectFails => negb (connect_ok E t)
  | HelloFails => connect_ok E t && negb (send_ok E (S t) s)
  | EntryFails => connect_ok E t && send_ok E (S t) s && negb (hashable pid)
  end.

(** Turn after turn fails, as [fs] says, from call [t] and socket [s] on. *)
Fixpoint turns_fail (E : env) (pid : json) (fs : list turn_failure)
         (t : nat) (s : sock) : bool :=
  match fs with
  | [] => true
  | f :: r => turn_fails E pid t s f && turns_fail E pid r (t + turn_cost f) (S s)
  end.

Definition run_cost (fs : list turn_failure) : nat :=
  fold_right (fun f n => turn_cost f + n) 0 fs.

(** The events of a failed turn on socket [s], and of failed turns in a
    row: each ends with the sleep of 2. *)
Definition failed_turn_events (sid : str) (phost pport : json) (s : sock)
           (f : turn_failure) : list event :=
  match f with
  | ConnectFails => [Connect s phost pport false; Sleep 2]
  | HelloFails =>
      [Connect s phost pport true; Send s (hello_msg sid) false; Sleep 2]
  | EntryFails =>
      [Connect s phost pport true; Send s (hello_msg sid) true; Sleep 2]
  end.

Fixpoint failed_run (sid : str) (phost pport : json) (s : sock)
         (fs : list turn_failure) : list event :=
  match fs with
  | [] => []
  | f :: r =>
      failed_turn_events sid phost pport s f ++ failed_run sid phost pport (S s) r
  end.

(** *** Environments for the examples *)

(** Only the log append at call 12 fails. *)
Definition one_log_failure_env : env :=
  demo_env (fun _ _ => true)
           (fun n => if Nat.eqb n 12 then FailedBefore else Appended).

(** The first hello is not sent, the second connect fails, the third turn
    goes through. *)
Definition flaky_peer_env : env :=
  {| json_loads := json_loads fair_env;
     send_ok := fun n _ => negb (Nat.eqb n 1);
     log_result := fun _ => Appended;
     clock := fun n => Z.of_nat n;
     connect_ok := fun n => negb (Nat.eqb n 3) |}.

(** Sends to socket 1 fail from call 2 on. *)
Definition evicting_env : env :=
  demo_env (fun n s => negb (Nat.eqb s 1 && Nat.leb 2 n)) (fun _ => Appended).

(** ** Vocabulary of the further properties *)

(** The messages a stream yields, in order, and whether it ends by an
    exception. *)
Fixpoint yielded (s : stream) : list json :=
  match s with
  | SYield m _ k => m :: yielded k
  | _ => []
  end.

Fixpoint raises (s : stream) : bool :=
  match s with
  | SYield _ _ k => raises k
  | SEnd _ => false
  | SRaise => true
  end.

(** [json.loads] on each line in turn, up to the first that raises. *)
Fixpoint loads_all (E : env) (lines : list str) : list json * bool :=
  match lines with
  | [] => ([], false)
  | l :: r =>
      match json_loads E l with
      | Some m => let (ms, b) := loads_all E r in (m :: ms, b)
      | None => ([], true)
      end
  end.

(** The text holds no newline. *)
Definition no_newline (s : str) : Prop := Forall (fun c => c <> newline) s.

(** A line as [send_json] frames it: no newline inside, not empty, and no
    white space at either end. *)
Definition framed (l : str) : Prop :=
  no_newline l /\ l <> [] /\ strip l = l.

(** Lines written one after the other, each ended by a newline. *)
Definition frame (ls : list str) : str :=
  List.concat (map (fun l => l ++ [newline]) ls).

(** The text is white space only (newlines included). *)
Definition blank (s : str) : Prop := Forall (fun c => isspace c = true) s.

(** A name as the registry holds them: not empty, no white space at either
    end. *)
Definition well_formed_name (n : str) : Prop := n <> [] /\ strip n = n.

(** A line of the log: an object with its [logged_at] number. *)
Definition log_line (l : json) : Prop :=
  exists d t, l = JDict d /\ dict_get str_eqb (py "logged_at") d = Some (JNum t).

(** [w'] comes after [w]: the names the registry has gained are well formed,
    and the log file has only been appended to, with log lines. *)
Definition keeps (w w' : node) : Prop :=
  (forall n, In n (names (clients w')) ->
             In n (names (clients w)) \/ well_formed_name n)
  /\ (exists ls, logfile w' = logfile w ++ ls /\ Forall log_line ls).

(** The operations that handlers are made of: all but a registration under
    a name of one's choice, which only [login] performs, with a name it has
    stripped and found not empty. *)
Definition handler_op (o : op) : Prop :=
  match o with
  | TryRegister _ _ => False
  | _ => True
  end.

(** The peer ids among [items] whose send fails, from environment call [n]
    on. *)
Fixpoint peers_failed (E : env) (n : nat) (items : list (json * sock))
  : list json :=
  match items with
  | [] => []
  | (pid, s) :: r =>
      if send_ok E n s then peers_failed E (S n) r
      else pid :: peers_failed E (S n) r
  end.

(** The table once each of [dead] has been popped from it. *)
Definition drop_peers (dead : list json) (t : list (json * sock))
  : list (json * sock) :=
  fold_left (fun t pid => dict_pop py_eqb pid t) dead t.

(** The entries of a registry whose name is not in [dead]. *)
Definition live (dead : list str) (c : list (str * sock)) : list (str * sock) :=
  filter (fun p => negb (existsb (str_eqb (fst p)) dead)) c.

(** [msg.get("type") == "relay_msg"], [false] as well when [get] raises. *)
Definition relays (m : json) : bool :=
  match get m (py "type") with
  | Ok t => is_str t (py "relay_msg")
  | Raise => false
  end.

(** One of the fields a local record is built from is missing. *)
Definition incomplete (d : list (str * json)) : Prop :=
  dict_get str_eqb (py "from") d = None
  \/ dict_get str_eqb (py "origin_server") d = None
  \/ dict_get str_eqb (py "text") d = None
  \/ dict_get str_eqb (py "timestamp") d = None.

(** The end of a peer link on a node otherwise as [w]: the entry of [pid]
    leaves the table and the socket is closed. *)
Definition link_closed (pid : json) (psock : sock) (w : node) : node :=
  emit_event (with_peer_sockets w (dict_pop py_eqb pid (peer_sockets w)))
    (Close psock).

(** [msg.get("type") == "login"], [false] as well when [get] raises. *)
Definition is_login (m : json) : bool :=
  match get m (py "type") with
  | Ok t => is_str t (py "login")
  | Raise => false
  end.

(** The reply to a request that is not understood. *)
Definition invalid_reply (csock : sock) (e : event) : Prop :=
  exists ok, e = Send csock (error_msg (py "invalid request")) ok.

(** The value is a string. *)
Definition is_string (j : json) : bool :=
  match j with
  | JStr _ => true
  | _ => false
  end.

(** *** Messages of the peer protocol for the examples *)

Definition hello_fields (sid : string) : list (string * string) :=
  [("type", "hello"); ("from_server", sid)]%string.

(** A relay message with no timestamp. *)
Definition partial_relay_fields : list (string * string) :=
  [("type", "relay_msg"); ("from", "bob"); ("origin_server", "B");
   ("text", "hi")]%string.

(** A relay message whose text is a list, and its line. *)
Definition list_relay : list (str * json) :=
  [(py "type", JStr (py "relay_msg")); (py "text", JList [])].

Definition list_relay_line : str :=
  py "{" ++ quoted "type" ++ py ": " ++ quoted "relay_msg" ++ py ", "
  ++ quoted "text" ++ py ": []}" ++ [newline].

(** An environment that knows these lines; sends to socket 7 fail. *)
Definition peer_env : env :=
  {| json_loads := fun l =>
       if str_eqb l (strip list_relay_line) then Some (JDict list_relay)
       else loads_of [hello_fields "B"; partial_relay_fields; ping_fields;
                      msg_fields "hi"; msg_fields "again"; quit_fields] l;
     send_ok := fun _ s => negb (Nat.eqb s 7);
     log_result := fun _ => Appended;
     clock := fun n => Z.of_nat n;
     connect_ok := fun _ => true |}.

(** Node A with links to B, on socket 7, and to C, on socket 8. *)
Definition node_A_linked : node :=
  with_peer_sockets node_A_three [(JStr (py "B"), 7); (JStr (py "C"), 8)].

(** * Properties *)

Unset Implicit Arguments.

(** ** Strings and dicts *)

Lemma str_eqb_eq (a b : str) : str_eqb a b = true <-> a = b.
Proof.
  revert b; induction a as [|x a IH]; intros [|y b]; simpl;
    try (split; [discriminate | congruence]); try tauto.
  rewrite andb_true_iff, N.eqb_eq, IH. split.
  - intros [-> ->]; reflexivity.
  - intros H; injection H as -> ->; auto.
Qed.

Lemma str_eqb_refl (a : str) : str_eqb a a = true.
Proof. apply str_eqb_eq; reflexivity. Qed.

Lemma str_eqb_neq (a b : str) : str_eqb a b = false <-> a <> b.
Proof.
  rewrite <- str_eqb_eq. destruct (str_eqb a b); split; congruence.
Qed.

Lemma dict_mem_names (u : str) (c : list (str * sock)) :
  dict_mem str_eqb u c = true <-> In u (names c).
Proof.
  unfold dict_mem. induction c as [|[k v] c IH]; simpl.
  - split; [discriminate | tauto].
  - destruct (str_eqb u k) eqn:Hk.
    + apply str_eqb_eq in Hk. subst. tauto.
    + apply str_eqb_neq in Hk. rewrite IH. split; [tauto|].
      intros [H|H]; [congruence | exact H].
Qed.

Lemma dict_mem_false_names (u : str) (c : list (str * sock)) :
  dict_mem str_eqb u c = false <-> ~ In u (names c).
Proof.
  rewrite <- dict_mem_names. destruct (dict_mem str_eqb u c); split; congruence.
Qed.

Lemma dict_set_fresh (u : str) (s : sock) (c : list (str * sock)) :
  ~ In u (names c) -> dict_set str_eqb u s c = c ++ [(u, s)].
Proof.
  induction c as [|[k v] c IH]; simpl; intros H; [reflexivity|].
  destruct (str_eqb u k) eqn:Hk.
  - apply str_eqb_eq in Hk. subst. tauto.
  - rewrite IH; [reflexivity | tauto].
Qed.

Lemma dict_pop_names_incl (u : str) (c : list (str * sock)) :
  incl (names (dict_pop str_eqb u c)) (names c).
Proof.
  induction c as [|[k v] c IH]; simpl; [apply incl_refl|].
  destruct (str_eqb u k).
  - apply incl_tl, incl_refl.
  - simpl. intros x [H|H]; [left; exact H | right; apply IH; exact H].
Qed.

Lemma dict_pop_NoDup (u : str) (c : list (str * sock)) :
  NoDup (names c) -> NoDup (names (dict_pop str_eqb u c)).
Proof.
  induction c as [|[k v] c IH]; simpl; intros H; [exact H|].
  inversion H as [|? ? Hk Hc]; subst.
  destruct (str_eqb u k); [exact Hc|].
  simpl. constructor; [|apply IH; exact Hc].
  intros Hin. apply Hk. apply (dict_pop_names_incl u c). exact Hin.
Qed.

Lemma dict_pop_absent (u : str) (c : list (str * sock)) :
  NoDup (names c) -> ~ In u (names (dict_pop str_eqb u c)).
Proof.
  induction c as [|[k v] c IH]; simpl; intros H; [tauto|].
  inversion H as [|? ? Hk Hc]; subst.
  destruct (str_eqb u k) eqn:Huk.
  - apply str_eqb_eq in Huk. subst. exact Hk.
  - apply str_eqb_neq in Huk. simpl. intros [Heq|Hin]; [congruence|].
    exact (IH Hc Hin).
Qed.

Lemma dict_pop_other (u x : str) (c : list (str * sock)) :
  x <> u -> In x (names c) -> In x (names (dict_pop str_eqb u c)).
Proof.
  intros Hx. induction c as [|[k v] c IH]; simpl; [tauto|].
  destruct (str_eqb u k) eqn:Huk.
  - apply str_eqb_eq in Huk. subst. intros [H|H]; [congruence | exact H].
  - simpl. intros [H|H]; [left; exact H | right; exact (IH H)].
Qed.

Lemma dict_set_NoDup (u : str) (s : sock) (c : list (str * sock)) :
  NoDup (names c) -> NoDup (names (dict_set str_eqb u s c)).
Proof.
  induction c as [|[k v] c IH]; simpl; intros H.
  - constructor; [simpl; tauto | constructor].
  - inversion H as [|? ? Hk Hc]; subst.
    destruct (str_eqb u k) eqn:Huk; simpl; [exact H|].
    constructor; [|apply IH; exact Hc].
    apply str_eqb_neq in Huk. intros Hin. apply Hk.
    clear - Hin Huk. induction c as [|[k' v'] c IH]; simpl in *.
    + destruct Hin as [Hin|[]]. congruence.
    + destruct (str_eqb u k'); simpl in *; tauto.
Qed.

Lemma remove_dead_names_incl (dead : list str) (c : list (str * sock)) :
  incl (names (remove_dead dead c)) (names c).
Proof.
  unfold remove_dead. revert c.
  induction dead as [|d dead IH]; intros c; simpl; [apply incl_refl|].
  eapply incl_tran; [apply IH | apply dict_pop_names_incl].
Qed.

Lemma remove_dead_NoDup (dead : list str) (c : list (str * sock)) :
  NoDup (names c) -> NoDup (names (remove_dead dead c)).
Proof.
  unfold remove_dead. revert c.
  induction dead as [|d dead IH]; intros c H; simpl; [exact H|].
  apply IH, dict_pop_NoDup, H.
Qed.

Lemma remove_dead_other (dead : list str) (x : str) (c : list (str * sock)) :
  ~ In x dead -> In x (names c) -> In x (names (remove_dead dead c)).
Proof.
  unfold remove_dead. revert c.
  induction dead as [|d dead IH]; intros c Hx Hin; simpl; [exact Hin|].
  apply IH; [simpl in Hx; tauto|].
  apply dict_pop_other; [simpl in Hx; intros ->; tauto | exact Hin].
Qed.

Lemma remove_dead_gone (dead : list str) (x : str) (c : list (str * sock)) :
  NoDup (names c) -> In x dead -> ~ In x (names (remove_dead dead c)).
Proof.
  unfold remove_dead. revert c.
  induction dead as [|d dead IH]; intros c Hc Hx; [destruct Hx|].
  destruct Hx as [Hx|Hx].
  - subst. simpl. intros Hin.
    apply (remove_dead_names_incl dead) in Hin.
    exact (dict_pop_absent x c Hc Hin).
  - simpl. apply IH; [apply dict_pop_NoDup; exact Hc | exact Hx].
Qed.

(** ** Runs of events *)

Lemma emit_events_app (w : node) (es fs : list event) :
  emit_events w (es ++ fs) = emit_events (emit_events w es) fs.
Proof. apply fold_left_app. Qed.

Lemma emit_events_fields (es : list event) (w : node) :
  trace (emit_events w es) = trace w ++ es
  /\ tick (emit_events w es) = tick w + List.length es
  /\ clients (emit_events w es) = clients w
  /\ peer_sockets (emit_events w es) = peer_sockets w
  /\ seen (emit_events w es) = seen w
  /\ heap (emit_events w es) = heap w
  /\ logfile (emit_events w es) = logfile w
  /\ server_id (emit_events w es) = server_id w
  /\ fresh (emit_events w es) = fresh w.
Proof.
  revert w. induction es as [|e es IH]; intros w; simpl.
  - rewrite app_nil_r, Nat.add_0_r. repeat split.
  - destruct (IH (emit_event w e)) as (H1 & H2 & H3 & H4 & H5 & H6 & H7 & H8 & H9).
    unfold emit_events in *. simpl in *.
    rewrite H1, H2, H3, H4, H5, H6, H7, H8, H9, <- app_assoc. simpl.
    repeat split. lia.
Qed.

(** ** Broadcast *)

Section Broadcast.
Variable E : env.

Lemma attempts_length record n rs :
  List.length (attempts E record n rs) = List.length rs.
Proof.
  revert n; induction rs as [|[u s] rs IH]; intros n; simpl; auto.
Qed.

Lemma broadcast_loop_spec items record exclude :
  forall dead w,
    broadcast_loop E items record exclude dead w =
    (dead ++ failed E (tick w) (recipients exclude items),
     emit_events w (attempts E record (tick w) (recipients exclude items))).
Proof.
  induction items as [|[u s] items IH]; intros dead w; simpl.
  - rewrite app_nil_r. reflexivity.
  - destruct (excluded u exclude); simpl; [apply IH|].
    unfold send_json.
    destruct (send_ok E (tick w) s); rewrite IH; simpl; [reflexivity|].
    rewrite <- app_assoc. reflexivity.
Qed.

Lemma broadcast_local_spec record exclude w :
  broadcast_local E record exclude w =
  with_clients
    (emit_events w (attempts E record (tick w) (recipients exclude (clients w))))
    (remove_dead (failed E (tick w) (recipients exclude (clients w))) (clients w)).
Proof.
  unfold broadcast_local. rewrite broadcast_loop_spec. simpl.
  destruct (emit_events_fields
              (attempts E record (tick w) (recipients exclude (clients w))) w)
    as (_ & _ & -> & _).
  reflexivity.
Qed.

Lemma broadcast_local_fields record exclude w :
  let rs := recipients exclude (clients w) in
  let w' := broadcast_local E record exclude w in
  trace w' = trace w ++ attempts E record (tick w) rs
  /\ tick w' = tick w + List.length rs
  /\ clients w' = remove_dead (failed E (tick w) rs) (clients w)
  /\ peer_sockets w' = peer_sockets w
  /\ seen w' = seen w
  /\ heap w' = heap w
  /\ logfile w' = logfile w
  /\ server_id w' = server_id w
  /\ fresh w' = fresh w.
Proof.
  intros rs w'. subst w'. rewrite broadcast_local_spec. fold rs.
  destruct (emit_events_fields (attempts E record (tick w) rs) w)
    as (H1 & H2 & H3 & H4 & H5 & H6 & H7 & H8 & H9).
  simpl. rewrite attempts_length in H2. repeat split; assumption.
Qed.

Lemma recipients_none c : recipients None c = c.
Proof.
  unfold recipients. induction c as [|p c IH]; simpl; [reflexivity|].
  f_equal. exact IH.
Qed.

Lemma recipients_not_excluded exclude c u s :
  In (u, s) (recipients exclude c) <->
  In (u, s) c /\ excluded u exclude = false.
Proof.
  unfold recipients. rewrite filter_In. simpl.
  rewrite negb_true_iff. tauto.
Qed.

Lemma recipients_fresh u s c :
  ~ In u (names c) -> recipients (Some u) (c ++ [(u, s)]) = c.
Proof.
  unfold recipients. intros H. rewrite filter_app. simpl.
  rewrite str_eqb_refl. simpl. rewrite app_nil_r.
  induction c as [|[k v] c IH]; simpl; [reflexivity|].
  simpl in H.
  destruct (str_eqb k u) eqn:Hk.
  - apply str_eqb_eq in Hk. subst. tauto.
  - simpl. rewrite IH; [reflexivity | tauto].
Qed.

(** Every addressed entry gets its attempt, whatever happened before it. *)
Lemma attempts_cover record rs : forall n u s,
  In (u, s) rs -> exists ok, In (Send s record ok) (attempts E record n rs).
Proof.
  induction rs as [|[k v] rs IH]; intros n u s Hin; [destruct Hin|].
  destruct Hin as [Heq|Hin].
  - injection Heq as -> ->. eexists. left. reflexivity.
  - destruct (IH (S n) u s Hin) as [ok Hok]. exists ok. right. exact Hok.
Qed.

Lemma attempts_only record rs : forall n e,
  In e (attempts E record n rs) ->
  exists u s ok, e = Send s record ok /\ In (u, s) rs.
Proof.
  induction rs as [|[k v] rs IH]; intros n e Hin; [destruct Hin|].
  destruct Hin as [Heq|Hin].
  - exists k, v, (send_ok E n v). split; [symmetry; exact Heq | left; reflexivity].
  - destruct (IH (S n) e Hin) as (u & s & ok & He & Hus).
    exists u, s, ok. split; [exact He | right; exact Hus].
Qed.

Lemma failed_incl n rs : incl (failed E n rs) (names rs).
Proof.
  revert n. induction rs as [|[k v] rs IH]; intros n; simpl; [apply incl_refl|].
  destruct (send_ok E n v).
  - apply incl_tl, IH.
  - intros x [H|H]; [left; exact H | right; exact (IH (S n) x H)].
Qed.
End Broadcast.

(** ** What every operation preserves *)

Lemma evolves_refl P w : evolves P w w.
Proof.
  repeat split; auto.
  - exists []. rewrite app_nil_r. split; [reflexivity | constructor].
  - exists []. rewrite app_nil_r. reflexivity.
Qed.

Lemma evolves_trans P w1 w2 w3 :
  evolves P w1 w2 -> evolves P w2 w3 -> evolves P w1 w3.
Proof.
  intros ((es & He & HP) & (ks & Hk) & Hn & Hs)
         ((es' & He' & HP') & (ks' & Hk') & Hn' & Hs').
  repeat split; auto.
  - exists (es ++ es'). rewrite He', He, app_assoc. split; [reflexivity|].
    apply Forall_app; split; assumption.
  - exists (ks ++ ks'). rewrite Hk', Hk, app_assoc. reflexivity.
  - congruence.
Qed.

Lemma evolves_weaken (P Q : event -> Prop) w w' :
  (forall e, P e -> Q e) -> evolves P w w' -> evolves Q w w'.
Proof.
  intros HPQ ((es & He & HP) & Hk & Hn & Hs).
  repeat split; auto. exists es. split; [exact He|].
  eapply Forall_impl; [exact HPQ | exact HP].
Qed.

Lemma evolves_emit (P : event -> Prop) w e : P e -> evolves P w (emit_event w e).
Proof.
  intros He. repeat split; simpl; auto.
  - exists [e]. split; [reflexivity | constructor; [exact He | constructor]].
  - exists []. rewrite app_nil_r. reflexivity.
Qed.

(** A state that differs from an evolved one in fields [evolves] ignores. *)
Lemma evolves_same P w w1 w2 :
  evolves P w w1 ->
  trace w2 = trace w1 -> seen w2 = seen w1 ->
  names (clients w2) = names (clients w1) \/ clients w2 = clients w1 ->
  server_id w2 = server_id w1 ->
  evolves P w w2.
Proof.
  intros (He & Hk & Hn & Hs) Ht Hse Hc Hsi.
  unfold evolves. rewrite Ht, Hse, Hsi.
  repeat split; auto.
  destruct Hc as [-> | ->]; exact Hn.
Qed.

Section Frames.
Variable E : env.

Lemma send_json_evolves (P : event -> Prop) s obj w :
  (forall ok, P (Send s obj ok)) -> evolves P w (snd (send_json E s obj w)).
Proof. intros HP. unfold send_json. simpl. apply evolves_emit, HP. Qed.

Lemma time_time_evolves P w : evolves P w (snd (time_time E w)).
Proof.
  eapply evolves_same; [apply evolves_refl | | | |]; simpl; auto.
Qed.

Lemma alloc_evolves P o w : evolves P w (snd (alloc o w)).
Proof.
  eapply evolves_same; [apply evolves_refl | | | |]; simpl; auto.
Qed.

Lemma setitem_evolves P r key v w : evolves P w (snd (setitem r key v w)).
Proof.
  unfold setitem. destruct (nth_error (heap w) r) as [[]|]; simpl;
    try apply evolves_refl.
  eapply evolves_same; [apply evolves_refl | | | |]; simpl; auto.
Qed.

Lemma log_evolves r w : evolves delivery w (snd (log E r w)).
Proof.
  unfold log. simpl.
  pose proof (setitem_evolves delivery r (py "logged_at")
                (JNum (clock E (tick w))) (with_tick w)) as H.
  destruct (setitem r (py "logged_at") (JNum (clock E (tick w))) (with_tick w))
    as [[[]|] w2]; simpl in *.
  - assert (Hw : evolves delivery w w2).
    { eapply evolves_trans; [|exact H].
      eapply evolves_same; [apply evolves_refl | | | |]; simpl; auto. }
    assert (Hline : evolves delivery w
              (with_logfile (emit_event w2 (LogLine (deref w2 r)))
                 (logfile w2 ++ [deref w2 r]))).
    { eapply evolves_same;
        [eapply evolves_trans;
         [exact Hw | apply (evolves_emit delivery w2 (LogLine (deref w2 r))); exact I]
        | | | |]; simpl; auto. }
    destruct (log_result E (tick w2)); simpl.
    + exact Hline.
    + eapply evolves_trans; [exact Hw | apply evolves_emit; exact I].
    + eapply evolves_trans; [exact Hline | apply evolves_emit; exact I].
  - eapply evolves_trans; [|exact H].
    eapply evolves_same; [apply evolves_refl | | | |]; simpl; auto.
Qed.

Lemma emit_events_evolves (P : event -> Prop) es w :
  Forall P es -> evolves P w (emit_events w es).
Proof.
  intros HP.
  destruct (emit_events_fields es w) as (H1 & _ & H3 & _ & H5 & _ & _ & H8 & _).
  repeat split.
  - exists es. split; assumption.
  - exists []. rewrite app_nil_r. exact H5.
  - rewrite H3. auto.
  - exact H8.
Qed.

Lemma attempts_delivery record n rs : Forall delivery (attempts E record n rs).
Proof.
  revert n. induction rs as [|[u s] rs IH]; intros n; simpl; constructor.
  - exact I.
  - apply IH.
Qed.

Lemma broadcast_local_evolves record exclude w :
  evolves delivery w (broadcast_local E record exclude w).
Proof.
  rewrite broadcast_local_spec.
  set (rs := recipients exclude (clients w)).
  pose proof (emit_events_evolves delivery (attempts E record (tick w) rs) w
                (attempts_delivery record (tick w) rs))
    as ((es & He & HP) & Hk & Hn & Hs).
  repeat split; simpl; auto.
  - exists es. split; assumption.
  - intros Hc. apply remove_dead_NoDup, Hc.
Qed.

Lemma forward_loop_evolves packet items :
  forall w, evolves delivery w (forward_loop E items packet w).
Proof.
  induction items as [|[pid psock] items IH]; intros w; simpl.
  - apply evolves_refl.
  - unfold send_json. destruct (send_ok E (tick w) psock).
    + eapply evolves_trans; [|apply IH]. apply evolves_emit. exact I.
    + eapply evolves_trans; [|apply IH].
      eapply evolves_same;
        [apply (evolves_emit delivery w (Send psock packet false)); exact I
        | | | |]; simpl; auto.
Qed.

Lemma forward_to_peers_evolves record w :
  evolves delivery w (snd (forward_to_peers E record w)).
Proof.
  unfold forward_to_peers.
  destruct (getitem record (py "from")); [|apply evolves_refl].
  destruct (getitem record (py "server")); [|apply evolves_refl].
  destruct (getitem record (py "text")); [|apply evolves_refl].
  destruct (getitem record (py "timestamp")); [|apply evolves_refl].
  simpl. apply forward_loop_evolves.
Qed.

Lemma chat_evolves msg u w : evolves delivery w (snd (chat E msg u w)).
Proof.
  unfold chat. destruct (get_default msg (py "text") (JStr [])) as [text|];
    [|apply evolves_refl].
  simpl.
  set (w2 := with_heap (with_tick w) _).
  assert (H2 : evolves delivery w w2).
  { eapply evolves_same; [apply evolves_refl | | | |]; simpl; auto. }
  set (w3 := broadcast_local E (deref w2 (List.length (heap w))) None w2).
  assert (H3 : evolves delivery w w3).
  { eapply evolves_trans; [exact H2 | apply broadcast_local_evolves]. }
  pose proof (forward_to_peers_evolves (deref w3 (List.length (heap w))) w3) as H4.
  destruct (forward_to_peers E (deref w3 (List.length (heap w))) w3) as [[[]|] w4];
    simpl in *.
  - pose proof (log_evolves (List.length (heap w)) w4) as H5.
    destruct (log E (List.length (heap w)) w4) as [[[]|] w5]; simpl in *;
      eapply evolves_trans; [exact H3 | eapply evolves_trans; eassumption
                            | exact H3 | eapply evolves_trans; eassumption].
  - eapply evolves_trans; eassumption.
Qed.

Lemma send_json_fst s obj w :
  send_json E s obj w =
  ((if send_ok E (tick w) s then Ok tt else Raise),
   emit_event w (Send s obj (send_ok E (tick w) s))).
Proof. reflexivity. Qed.

Lemma login_evolves csock msg u w :
  evolves delivery w (snd (login E csock msg u w)).
Proof.
  unfold login.
  destruct (get_default msg (py "username") (JStr [])) as [[| | |name| |]|];
    try apply evolves_refl.
  destruct (strip name) as [|c name'] eqn:Hname.
  - rewrite send_json_fst. destruct (send_ok E (tick w) csock); simpl;
      apply evolves_emit; exact I.
  - unfold try_register.
    destruct (dict_mem str_eqb (c :: name') (clients w)).
    + rewrite send_json_fst. destruct (send_ok E (tick w) csock); simpl;
        apply evolves_emit; exact I.
    + set (w1 := with_clients w _).
      assert (H1 : evolves delivery w w1).
      { repeat split; simpl; auto.
        - exists []. rewrite app_nil_r. split; [reflexivity | constructor].
        - exists []. rewrite app_nil_r. reflexivity.
        - apply dict_set_NoDup. }
      rewrite send_json_fst. destruct (send_ok E (tick w1) csock); simpl.
      * eapply evolves_trans; [exact H1|].
        eapply evolves_trans; [|apply broadcast_local_evolves].
        apply evolves_emit. exact I.
      * eapply evolves_trans; [exact H1 | apply evolves_emit; exact I].
Qed.

Lemma first_loop_body_evolves csock msg u w :
  evolves delivery w (snd (first_loop_body E csock msg u w)).
Proof.
  unfold first_loop_body.
  destruct (get msg (py "type")) as [t|]; [|apply evolves_refl].
  destruct (is_str t (py "login")); [apply login_evolves|].
  assert (Helse :
    evolves delivery w
      (snd (if is_str t (py "quit") then (Break, u, w)
            else match send_json E csock (error_msg (py "invalid request")) w with
                 | (Ok _, w') => (Next, u, w')
                 | (Raise, w') => (Raised, u, w')
                 end))).
  { destruct (is_str t (py "quit")); [apply evolves_refl|].
    rewrite send_json_fst. destruct (send_ok E (tick w) csock); simpl;
      apply evolves_emit; exact I. }
  destruct (is_str t (py "msg")); [|exact Helse].
  destruct (active u) as [u'|]; [|exact Helse].
  pose proof (chat_evolves msg u' w) as H.
  destruct (chat E msg u' w) as [c w']. exact H.
Qed.

Lemma second_loop_body_evolves msg u w :
  evolves delivery w (snd (second_loop_body E msg u w)).
Proof.
  unfold second_loop_body.
  destruct (get msg (py "type")) as [t|]; [|apply evolves_refl].
  assert (Helse :
    evolves delivery w
      (snd (if is_str t (py "quit") then (Break, u, w) else (Next, u, w)))).
  { destruct (is_str t (py "quit")); apply evolves_refl. }
  destruct (is_str t (py "msg")); [|exact Helse].
  destruct (active u) as [u'|]; [|exact Helse].
  pose proof (chat_evolves msg u' w) as H.
  destruct (chat E msg u' w) as [c w']. exact H.
Qed.

Lemma for_loop_evolves body msgs :
  (forall m u w, evolves delivery w (snd (body m u w))) ->
  forall u w, evolves delivery w (snd (for_loop body msgs u w)).
Proof.
  intros Hbody. induction msgs as [m unread next IH|unread|]; intros u w; simpl;
    try apply evolves_refl.
  pose proof (Hbody m u w) as H.
  destruct (body m u w) as [[[| |] u'] w']; simpl in *; try exact H.
  eapply evolves_trans; [exact H | apply IH].
Qed.

Lemma client_loops_evolves csock first_msg rx w :
  evolves delivery w (snd (client_loops E csock first_msg rx w)).
Proof.
  unfold client_loops.
  pose proof (for_loop_evolves (first_loop_body E csock)
                (msgs_iter E first_msg rx)
                (first_loop_body_evolves csock) None w) as H1.
  destruct (for_loop (first_loop_body E csock) (msgs_iter E first_msg rx) None w)
    as [[[unread|] u] w1]; simpl in *; [|exact H1].
  pose proof (for_loop_evolves (second_loop_body E)
                (recv_json_lines E unread)
                second_loop_body_evolves u w1) as H2.
  destruct (for_loop (second_loop_body E) (recv_json_lines E unread) u w1)
    as [[e2 u2] w2]; simpl in *.
  eapply evolves_trans; eassumption.
Qed.

(** The events of a whole client connection: deliveries and closes. *)
Lemma client_cleanup_evolves csock u w :
  evolves (fun e => delivery e \/ e = Close csock) w (client_cleanup E csock u w).
Proof.
  unfold client_cleanup.
  eapply evolves_trans; [|apply evolves_emit; right; reflexivity].
  destruct (active u) as [u'|]; [|apply evolves_refl].
  eapply evolves_weaken; [intros e He; left; exact He|].
  eapply evolves_trans; [|apply broadcast_local_evolves].
  unfold unregister. repeat split; simpl; auto.
  - exists []. rewrite app_nil_r. split; [reflexivity | constructor].
  - exists []. rewrite app_nil_r. reflexivity.
  - apply dict_pop_NoDup.
Qed.

Lemma handle_client_evolves csock first_msg rx w :
  evolves (fun e => delivery e \/ e = Close csock) w
    (handle_client E csock first_msg rx w).
Proof.
  unfold handle_client.
  pose proof (client_loops_evolves csock first_msg rx w) as H.
  destruct (client_loops E csock first_msg rx w) as [u w']. simpl in H.
  eapply evolves_trans; [|apply client_cleanup_evolves].
  eapply evolves_weaken; [intros e He; left; exact He | exact H].
Qed.

Lemma should_process_evolves P key w :
  evolves P w (snd (should_process key w)).
Proof.
  unfold should_process.
  destruct (key_hashable key); [|apply evolves_refl].
  destruct (set_mem key (seen w)); [apply evolves_refl|].
  repeat split; simpl; auto.
  - exists []. rewrite app_nil_r. split; [reflexivity | constructor].
  - exists [key]. reflexivity.
Qed.

Lemma peer_loop_body_evolves msg w :
  evolves delivery w (snd (peer_loop_body E msg w)).
Proof.
  unfold peer_loop_body.
  destruct (get msg (py "type")) as [t|]; [|apply evolves_refl].
  destruct (negb (is_str t (py "relay_msg"))); [apply evolves_refl|].
  destruct (get msg (py "origin_server")) as [o|]; [|apply evolves_refl].
  destruct (get msg (py "timestamp")) as [ts|]; [|apply evolves_refl].
  destruct (get msg (py "from")) as [f|]; [|apply evolves_refl].
  destruct (get msg (py "text")) as [tx|]; [|apply evolves_refl].
  pose proof (should_process_evolves delivery (o, ts, f, tx) w) as H1.
  destruct (should_process (o, ts, f, tx) w) as [[[|]|] w1]; simpl in *;
    try exact H1.
  destruct (getitem msg (py "from")) as [f'|]; [|exact H1].
  destruct (getitem msg (py "origin_server")) as [o'|]; [|exact H1].
  destruct (getitem msg (py "text")) as [tx'|]; [|exact H1].
  destruct (getitem msg (py "timestamp")) as [ts'|]; [|exact H1].
  simpl.
  set (w2 := with_heap w1 _).
  assert (H2 : evolves delivery w w2).
  { eapply evolves_same; [exact H1 | | | |]; simpl; auto. }
  set (w3 := broadcast_local E (deref w2 (List.length (heap w1))) None w2).
  assert (H3 : evolves delivery w w3).
  { eapply evolves_trans; [exact H2 | apply broadcast_local_evolves]. }
  pose proof (log_evolves (List.length (heap w1)) w3) as H4.
  destruct (log E (List.length (heap w1)) w3) as [[[]|] w4]; simpl in *;
    eapply evolves_trans; eassumption.
Qed.

Lemma peer_loop_evolves msgs :
  forall w, evolves delivery w (peer_loop E msgs w).
Proof.
  induction msgs as [m unread next IH|unread|]; intros w; simpl;
    try apply evolves_refl.
  pose proof (peer_loop_body_evolves m w) as H.
  destruct (peer_loop_body E m w) as [[| |] w']; simpl in *; try exact H.
  eapply evolves_trans; [exact H | apply IH].
Qed.

Lemma handle_peer_evolves pid psock rx w :
  evolves (fun e => delivery e \/ e = Close psock) w
    (snd (handle_peer E pid psock rx w)).
Proof.
  unfold handle_peer.
  pose proof (peer_loop_evolves (recv_json_lines E rx) w) as H.
  apply (evolves_weaken delivery (fun e => delivery e \/ e = Close psock)) in H;
    [|intros e He; left; exact He].
  destruct (hashable pid); simpl; [|exact H].
  eapply evolves_trans; [exact H|].
  eapply evolves_trans; [|apply evolves_emit; right; reflexivity].
  eapply evolves_same; [apply evolves_refl | | | |]; simpl; auto.
Qed.

Lemma route_connection_evolves s rx w :
  evolves (fun e => delivery e \/ e = Close s) w (route_connection E s rx w).
Proof.
  unfold route_connection.
  assert (Hclose : forall w0,
    evolves (fun e => delivery e \/ e = Close s) w0 (emit_event w0 (Close s))).
  { intros w0. apply evolves_emit. right. reflexivity. }
  destruct (recv_json_lines E rx) as [m unread next|unread|]; try apply Hclose.
  destruct (get m (py "type")) as [t|]; [|apply Hclose].
  destruct (is_str t (py "hello")); [|apply handle_client_evolves].
  destruct (get m (py "from_server")) as [pid|]; [|apply Hclose].
  destruct (hashable pid); [|apply Hclose].
  set (w1 := with_peer_sockets w _).
  assert (H1 : evolves (fun e => delivery e \/ e = Close s) w w1).
  { eapply evolves_same; [apply evolves_refl | | | |]; simpl; auto. }
  pose proof (handle_peer_evolves pid s unread w1) as H2.
  destruct (handle_peer E pid s unread w1) as [[[]|] w2]; simpl in H2.
  - eapply evolves_trans; [exact H1 | exact H2].
  - eapply evolves_trans; [eapply evolves_trans; [exact H1 | exact H2] | apply Hclose].
Qed.

Lemma connect_attempt_evolves pid phost pport w :
  evolves connecting w (snd (connect_attempt E pid phost pport w)).
Proof.
  unfold connect_attempt.
  destruct (connect_ok E (tick (with_fresh w))); cbv iota;
    [rewrite send_json_fst;
     destruct (send_ok E _ (fresh w)); cbv iota; [destruct (hashable pid)|]|];
    cbv zeta; unfold evolves; simpl; repeat split; auto;
    try (exists []; rewrite app_nil_r; reflexivity);
    (eexists; split; [rewrite <- ?app_assoc; reflexivity | repeat constructor]).
Qed.

Lemma peer_connector_evolves pid phost pport turns :
  forall w, evolves connecting w (snd (peer_connector E turns pid phost pport w)).
Proof.
  induction turns as [|n IH]; intros w; simpl; [apply evolves_refl|].
  pose proof (connect_attempt_evolves pid phost pport w) as H.
  destruct (connect_attempt E pid phost pport w) as [[|] w']; simpl in *;
    [exact H|].
  eapply evolves_trans; [exact H | apply IH].
Qed.
End Frames.

(** ** Every schedule keeps the invariants *)

Section ScheduleFrames.
Variable E : env.

Lemma try_register_evolves csock name w :
  evolves delivery w (snd (try_register E csock name w)).
Proof.
  unfold try_register. destruct (dict_mem str_eqb name (clients w)).
  - rewrite send_json_fst. destruct (send_ok E (tick w) csock); simpl;
      apply evolves_emit; exact I.
  - repeat split; simpl; auto.
    + exists []. rewrite app_nil_r. split; [reflexivity | constructor].
    + exists []. rewrite app_nil_r. reflexivity.
    + apply dict_set_NoDup.
Qed.

Lemma unregister_evolves P name w : evolves P w (unregister name w).
Proof.
  unfold unregister. repeat split; simpl; auto.
  - exists []. rewrite app_nil_r. split; [reflexivity | constructor].
  - exists []. rewrite app_nil_r. reflexivity.
  - apply dict_pop_NoDup.
Qed.

Lemma exec_evolves o w : evolves (fun _ => True) w (exec E o w).
Proof.
  destruct o; simpl;
    (eapply evolves_weaken; [intros e _; exact I|]).
  - apply route_connection_evolves.
  - apply handle_client_evolves.
  - apply handle_peer_evolves.
  - apply peer_connector_evolves.
  - apply first_loop_body_evolves.
  - apply second_loop_body_evolves.
  - apply client_cleanup_evolves.
  - apply peer_loop_body_evolves.
  - apply connect_attempt_evolves.
  - apply try_register_evolves.
  - apply (unregister_evolves delivery).
  - apply broadcast_local_evolves.
  - apply forward_to_peers_evolves.
  - apply (should_process_evolves delivery).
  - apply log_evolves.
  - apply (send_json_evolves E delivery). intros ok. exact I.
Qed.

Lemma run_evolves ops : forall w, evolves (fun _ => True) w (run E ops w).
Proof.
  induction ops as [|o ops IH]; intros w; simpl; [apply evolves_refl|].
  eapply evolves_trans; [apply exec_evolves | apply IH].
Qed.
End ScheduleFrames.

(** ** Broadcast reaches every entry once *)

Section BroadcastClaims.
Variable E : env.

Lemma attempts_Forall2 record rs : forall n,
  Forall2 (fun e p => exists ok, e = Send (snd p) record ok)
    (attempts E record n rs) rs.
Proof.
  induction rs as [|[u s] rs IH]; intros n; simpl; constructor.
  - eexists. reflexivity.
  - apply IH.
Qed.

Lemma deref_alloc o w :
  deref (snd (alloc o w)) (fst (alloc o w)) = o.
Proof.
  unfold deref, alloc. simpl. rewrite app_nth2, Nat.sub_diag; [reflexivity | lia].
Qed.

(** The sends of a chat message start with one attempt per registry entry. *)
Lemma chat_trace d u w :
  let text := match dict_get str_eqb (py "text") d with
              | Some v => v
              | None => JStr []
              end in
  let record := chat_record u (server_id w) text (clock E (tick w)) in
  exists es,
    trace (snd (chat E (JDict d) u w)) =
    trace w ++ attempts E record (S (tick w)) (clients w) ++ es
    /\ Forall delivery es.
Proof.
  intros text record. unfold chat. simpl get_default. fold text.
  unfold time_time. cbv beta iota zeta.
  pose proof (deref_alloc record (with_tick w)) as Hderef.
  unfold alloc in *. cbn [fst snd] in Hderef.
  cbv beta iota zeta.
  change (server_id (with_tick w)) with (server_id w). fold record.
  set (w1 := with_tick w) in *.
  set (w2 := with_heap w1 (heap w1 ++ [record])) in *.
  rewrite Hderef.
  destruct (broadcast_local_fields E record None w2) as (Ht & _).
  rewrite recipients_none in Ht. simpl in Ht.
  set (w3 := broadcast_local E record None w2) in *.
  pose proof (forward_to_peers_evolves E (deref w3 (List.length (heap w1))) w3)
    as ((es4 & He4 & HP4) & _).
  destruct (forward_to_peers E (deref w3 (List.length (heap w1))) w3)
    as [[[]|] w4]; simpl in He4.
  - pose proof (log_evolves E (List.length (heap w1)) w4) as ((es5 & He5 & HP5) & _).
    destruct (log E (List.length (heap w1)) w4) as [[[]|] w5]; simpl in He5 |- *;
      exists (es4 ++ es5); rewrite He5, He4, Ht, <- !app_assoc;
      (split; [reflexivity | apply Forall_app; split; assumption]).
  - simpl. exists es4. rewrite He4, Ht, <- !app_assoc. split; [reflexivity | exact HP4].
Qed.

Lemma client_cleanup_trace csock username u w :
  active username = Some u ->
  trace (client_cleanup E csock username w) =
  trace w
  ++ attempts E (system_msg (left_text u)) (tick w) (dict_pop str_eqb u (clients w))
  ++ [Close csock].
Proof.
  intros Hu. unfold client_cleanup, unregister. rewrite Hu. simpl.
  destruct (broadcast_local_fields E (system_msg (left_text u)) None
              (with_clients w (dict_pop str_eqb u (clients w)))) as (Ht & _).
  rewrite recipients_none in Ht. simpl in Ht. rewrite Ht, <- app_assoc.
  reflexivity.
Qed.

(** A successful login announces the new user to the entries that were
    there before. *)
Lemma login_join csock d u w raw name :
  dict_get str_eqb (py "username") d = Some (JStr raw) ->
  strip raw = name -> name <> [] ->
  ~ In name (names (clients w)) ->
  send_ok E (tick w) csock = true ->
  let w2 := emit_event (with_clients w (clients w ++ [(name, csock)]))
              (Send csock (system_msg (welcome_text name (server_id w))) true) in
  login E csock (JDict d) u w =
    (Next, Some name,
     broadcast_local E (system_msg (joined_text name)) (Some name) w2)
  /\ recipients (Some name) (clients w2) = clients w.
Proof.
  intros Hd Hs Hne Hfresh Hok w2. unfold login. simpl get_default.
  rewrite Hd. rewrite Hs.
  destruct name as [|c name']; [congruence|].
  unfold try_register.
  apply dict_mem_false_names in Hfresh. rewrite Hfresh.
  apply dict_mem_false_names in Hfresh.
  rewrite (dict_set_fresh _ _ _ Hfresh).
  rewrite send_json_fst. simpl tick. rewrite Hok.
  split; [reflexivity|].
  subst w2. simpl clients. apply recipients_fresh. exact Hfresh.
Qed.

(** C4: a broadcast attempts one send to each registry entry except the
    excluded name, in order and whatever sends fail; the loop leaves the
    registry alone and the entries whose send failed are removed once it is
    over. The join notice excludes the new user, the leave notice goes to the
    registry from which the leaving name is gone, and a chat record goes to
    the whole registry, its sender's entry included. *)
Theorem broadcast_attempts_each_entry_once :
  (forall record exclude w,
     let rs := recipients exclude (clients w) in
     let es := attempts E record (tick w) rs in
     let w' := broadcast_local E record exclude w in
     broadcast_loop E (clients w) record exclude [] w
       = (failed E (tick w) rs, emit_events w es)
     /\ clients (emit_events w es) = clients w
     /\ trace w' = trace w ++ es
     /\ Forall2 (fun e p => exists ok, e = Send (snd p) record ok) es rs
     /\ (forall u s, In (u, s) rs <->
                     In (u, s) (clients w) /\ excluded u exclude = false)
     /\ clients w' = remove_dead (failed E (tick w) rs) (clients w)
     /\ incl (failed E (tick w) rs) (names rs))
  /\ (forall csock d u w raw name,
        dict_get str_eqb (py "username") d = Some (JStr raw) ->
        strip raw = name -> name <> [] ->
        ~ In name (names (clients w)) ->
        send_ok E (tick w) csock = true ->
        let w2 := emit_event (with_clients w (clients w ++ [(name, csock)]))
                    (Send csock (system_msg (welcome_text name (server_id w))) true) in
        login E csock (JDict d) u w =
          (Next, Some name,
           broadcast_local E (system_msg (joined_text name)) (Some name) w2)
        /\ recipients (Some name) (clients w2) = clients w)
  /\ (forall csock username u w,
        active username = Some u ->
        trace (client_cleanup E csock username w) =
        trace w
        ++ attempts E (system_msg (left_text u)) (tick w)
             (dict_pop str_eqb u (clients w))
        ++ [Close csock]
        /\ (NoDup (names (clients w)) ->
            ~ In u (names (dict_pop str_eqb u (clients w)))))
  /\ (forall d u w,
        let text := match dict_get str_eqb (py "text") d with
                    | Some v => v
                    | None => JStr []
                    end in
        let record := chat_record u (server_id w) text (clock E (tick w)) in
        exists es,
          trace (snd (chat E (JDict d) u w)) =
          trace w ++ attempts E record (S (tick w)) (clients w) ++ es).
Proof.
  split; [|split; [|split]].
  - intros record exclude w rs es w'.
    destruct (broadcast_local_fields E record exclude w) as (Ht & _ & Hc & _).
    destruct (emit_events_fields es w) as (_ & _ & Hce & _).
    refine (conj _ (conj Hce (conj Ht (conj _ (conj _ (conj Hc _)))))).
    + apply (broadcast_loop_spec E (clients w) record exclude [] w).
    + apply attempts_Forall2.
    + intros u s. apply recipients_not_excluded.
    + apply failed_incl.
  - intros csock d u w raw name Hd Hs Hne Hf Hok.
    exact (login_join csock d u w raw name Hd Hs Hne Hf Hok).
  - intros csock username u w Hu.
    split; [apply client_cleanup_trace; exact Hu | apply dict_pop_absent].
  - intros d u w text record.
    destruct (chat_trace d u w) as (es & He & _). exists es. exact He.
Qed.
End BroadcastClaims.

Lemma broadcast_attempts_each_entry_once_witness :
  let record := system_msg (py "notice") in
  let w' := broadcast_local dead_socket_env record (Some (py "bob")) node_A_three in
  trace w' = [Send 1 record false; Send 3 record true]
  /\ clients w' = [(py "bob", 2); (py "carol", 3)].
Proof.
  intros record w'.
  destruct (proj1 (broadcast_attempts_each_entry_once dead_socket_env)
              record (Some (py "bob")) node_A_three)
    as (_ & _ & Ht & _ & _ & Hc & _).
  split; [etransitivity; [exact Ht | reflexivity]
         | etransitivity; [exact Hc | reflexivity]].
Defined.

(** ** Cleanup of a client session *)

Section CleanupClaims.
Variable E : env.



Lemma broadcast_local_names_incl record exclude w :
  incl (names (clients (broadcast_local E record exclude w))) (names (clients w)).
Proof.
  destruct (broadcast_local_fields E record exclude w) as (_ & _ & -> & _).
  apply remove_dead_names_incl.
Qed.

Lemma forward_loop_clients packet items :
  forall w, clients (forward_loop E items packet w) = clients w.
Proof.
  induction items as [|[pid psock] items IH]; intros w; simpl; [reflexivity|].
  destruct (send_ok E (tick w) psock); rewrite IH; reflexivity.
Qed.

Lemma forward_to_peers_clients record w :
  clients (snd (forward_to_peers E record w)) = clients w.
Proof.
  unfold forward_to_peers.
  destruct (getitem record (py "from")); [|reflexivity].
  destruct (getitem record (py "server")); [|reflexivity].
  destruct (getitem record (py "text")); [|reflexivity].
  destruct (getitem record (py "timestamp")); [|reflexivity].
  simpl. apply forward_loop_clients.
Qed.

Lemma setitem_clients r key v w :
  clients (snd (setitem r key v w)) = clients w.
Proof.
  unfold setitem. destruct (nth_error (heap w) r) as [[]|]; reflexivity.
Qed.

Lemma log_clients r w : clients (snd (log E r w)) = clients w.
Proof.
  unfold log. simpl.
  pose proof (setitem_clients r (py "logged_at") (JNum (clock E (tick w)))
                (with_tick w)) as H.
  destruct (setitem r (py "logged_at") (JNum (clock E (tick w))) (with_tick w))
    as [[[]|] w2]; simpl in *; [|exact H].
  destruct (log_result E (tick w2)); simpl; exact H.
Qed.

Lemma chat_names_incl msg u w :
  incl (names (clients (snd (chat E msg u w)))) (names (clients w)).
Proof.
  unfold chat. destruct (get_default msg (py "text") (JStr [])) as [text|];
    [|apply incl_refl].
  unfold time_time, alloc. cbv beta iota zeta.
  set (w2 := with_heap (with_tick w) _).
  set (r := List.length (heap (with_tick w))).
  set (w3 := broadcast_local E (deref w2 r) None w2).
  assert (H3 : incl (names (clients w3)) (names (clients w))).
  { apply (broadcast_local_names_incl (deref w2 r) None w2). }
  pose proof (forward_to_peers_clients (deref w3 r) w3) as H4.
  destruct (forward_to_peers E (deref w3 r) w3) as [[[]|] w4]; simpl in H4.
  - pose proof (log_clients r w4) as H5.
    destruct (log E r w4) as [[[]|] w5]; simpl in H5 |- *;
      rewrite H5, H4; exact H3.
  - simpl. rewrite H4. exact H3.
Qed.






(** The local [username] is never the empty string, so that [if username:]
    asks whether it is set. *)
Lemma active_named u : named u -> active u = u.
Proof.
  destruct u as [[|c r]|]; simpl; intros H; [|reflexivity..].
  exfalso. apply H. reflexivity.
Qed.

Lemma login_named csock msg u w :
  named u -> named (snd (fst (login E csock msg u w))).
Proof.
  intros Hu. unfold login.
  destruct (get_default msg (py "username") (JStr [])) as [[| | |name| |]|];
    try exact Hu.
  destruct (strip name) as [|c name'].
  - rewrite send_json_fst. destruct (send_ok E (tick w) csock); exact Hu.
  - unfold try_register. destruct (dict_mem str_eqb (c :: name') (clients w)).
    + rewrite send_json_fst. destruct (send_ok E (tick w) csock); exact Hu.
    + rewrite send_json_fst. destruct (send_ok E _ csock); simpl; discriminate.
Qed.

Lemma first_loop_body_named csock msg u w :
  named u -> named (snd (fst (first_loop_body E csock msg u w))).
Proof.
  intros Hu. unfold first_loop_body.
  destruct (get msg (py "type")) as [t|]; [|exact Hu].
  destruct (is_str t (py "login")); [apply login_named; exact Hu|].
  assert (Helse :
    named (snd (fst
      (if is_str t (py "quit") then (Break, u, w)
       else match send_json E csock (error_msg (py "invalid request")) w with
            | (Ok _, w') => (Next, u, w')
            | (Raise, w') => (Raised, u, w')
            end)))).
  { destruct (is_str t (py "quit")); [exact Hu|].
    rewrite send_json_fst. destruct (send_ok E (tick w) csock); exact Hu. }
  destruct (is_str t (py "msg")); [|exact Helse].
  destruct (active u) as [u'|]; [|exact Helse].
  destruct (chat E msg u' w) as [c w']. exact Hu.
Qed.

Lemma second_loop_body_named msg u w :
  named u -> named (snd (fst (second_loop_body E msg u w))).
Proof.
  intros Hu. unfold second_loop_body.
  destruct (get msg (py "type")) as [t|]; [|exact Hu].
  assert (Helse :
    named (snd (fst
      (if is_str t (py "quit") then (Break, u, w) else (Next, u, w))))).
  { destruct (is_str t (py "quit")); exact Hu. }
  destruct (is_str t (py "msg")); [|exact Helse].
  destruct (active u) as [u'|]; [|exact Helse].
  destruct (chat E msg u' w) as [c w']. exact Hu.
Qed.

Lemma for_loop_named body msgs :
  (forall m u w, named u -> named (snd (fst (body m u w)))) ->
  forall u w, named u -> named (snd (fst (for_loop body msgs u w))).
Proof.
  intros Hbody.
  induction msgs as [m unread next IH|unread|]; intros u w Hu; simpl;
    try exact Hu.
  pose proof (Hbody m u w Hu) as H.
  destruct (body m u w) as [[[| |] u'] w']; simpl in *; try exact H.
  apply IH. exact H.
Qed.

Lemma client_loops_named csock first_msg rx w :
  named (fst (client_loops E csock first_msg rx w)).
Proof.
  unfold client_loops.
  pose proof (for_loop_named (first_loop_body E csock)
                (msgs_iter E first_msg rx)
                (first_loop_body_named csock) None w) as H1.
  destruct (for_loop (first_loop_body E csock) (msgs_iter E first_msg rx) None w)
    as [[[unread|] u] w1]; simpl in *; [|apply H1; discriminate].
  pose proof (for_loop_named (second_loop_body E)
                (recv_json_lines E unread)
                second_loop_body_named u w1) as H2.
  destruct (for_loop (second_loop_body E) (recv_json_lines E unread) u w1)
    as [[e2 u2] w2]; simpl in *.
  apply H2, H1. discriminate.
Qed.

End CleanupClaims.

(** ** Registration *)

Section RegistrationClaims.
Variable E : env.

Lemma dict_get_app_fresh (name : str) (s : sock) (c : list (str * sock)) :
  ~ In name (names c) -> dict_get str_eqb name (c ++ [(name, s)]) = Some s.
Proof.
  induction c as [|[k v] c IH]; simpl; intros H.
  - rewrite str_eqb_refl. reflexivity.
  - destruct (str_eqb name k) eqn:Hk.
    + apply str_eqb_eq in Hk. subst. tauto.
    + apply IH. tauto.
Qed.

Lemma dict_get_pop_other (name u : str) (c : list (str * sock)) :
  name <> u -> dict_get str_eqb name (dict_pop str_eqb u c) = dict_get str_eqb name c.
Proof.
  intros Hne. induction c as [|[k v] c IH]; simpl; [reflexivity|].
  destruct (str_eqb u k) eqn:Huk.
  - apply str_eqb_eq in Huk. subst.
    destruct (str_eqb name k) eqn:Hnk; [|reflexivity].
    apply str_eqb_eq in Hnk. congruence.
  - simpl. rewrite IH. reflexivity.
Qed.

Lemma dict_get_remove_dead (name : str) (dead : list str) (c : list (str * sock)) :
  ~ In name dead ->
  dict_get str_eqb name (remove_dead dead c) = dict_get str_eqb name c.
Proof.
  unfold remove_dead. revert c.
  induction dead as [|u dead IH]; intros c H; simpl; [reflexivity|].
  rewrite IH; [|simpl in H; tauto].
  apply dict_get_pop_other. simpl in H. intros ->. tauto.
Qed.

(** A request for a name that is registered: nothing changes but the reply. *)
Lemma login_taken csock d u w name :
  asks_for name d -> name <> [] -> In name (names (clients w)) ->
  login E csock (JDict d) u w =
  ((if send_ok E (tick w) csock then Next else Raised), u,
   emit_event w (Send csock (error_msg (py "username taken"))
                   (send_ok E (tick w) csock))).
Proof.
  intros (raw & Hd & Hs) Hne Hin. unfold login. simpl get_default.
  rewrite Hd, Hs. destruct name as [|c name']; [congruence|].
  unfold try_register. apply dict_mem_names in Hin. rewrite Hin.
  rewrite send_json_fst. destruct (send_ok E (tick w) csock); reflexivity.
Qed.

(** A request for a name that is free: the socket holds it afterwards. *)
Lemma login_fresh csock d u w name :
  asks_for name d -> name <> [] -> ~ In name (names (clients w)) ->
  let r := login E csock (JDict d) u w in
  snd (fst r) = Some name
  /\ dict_get str_eqb name (clients (snd r)) = Some csock
  /\ exists ok rest,
       trace (snd r) =
       trace w ++ Send csock (system_msg (welcome_text name (server_id w))) ok
                  :: rest.
Proof.
  intros (raw & Hd & Hs) Hne Hfresh. unfold login. simpl get_default.
  rewrite Hd, Hs. destruct name as [|c name']; [congruence|].
  unfold try_register.
  apply dict_mem_false_names in Hfresh. rewrite Hfresh.
  apply dict_mem_false_names in Hfresh.
  rewrite (dict_set_fresh _ _ _ Hfresh). rewrite send_json_fst. simpl tick.
  remember (c :: name') as name eqn:Hname. clear Hname Hne.
  destruct (send_ok E (tick w) csock); cbv zeta; simpl fst; simpl snd.
  - split; [reflexivity|].
    set (w2 := emit_event _ _).
    destruct (broadcast_local_fields E (system_msg (joined_text name))
                (@Some str name) w2) as (Ht & _ & Hc & _).
    rewrite Hc, Ht. simpl clients.
    rewrite (recipients_fresh name csock (clients w) Hfresh).
    split.
    + rewrite dict_get_remove_dead; [apply dict_get_app_fresh; exact Hfresh|].
      intros Hin. apply failed_incl in Hin. exact (Hfresh Hin).
    + eexists. eexists. simpl trace. rewrite <- app_assoc. reflexivity.
  - split; [reflexivity|]. split.
    + simpl. apply dict_get_app_fresh. exact Hfresh.
    + eexists. exists []. reflexivity.
Qed.

Lemma dict_get_names (name : str) (s : sock) (c : list (str * sock)) :
  dict_get str_eqb name c = Some s -> In name (names c).
Proof.
  intros H. apply dict_mem_names. unfold dict_mem. rewrite H. reflexivity.
Qed.

Lemma login_all_taken name reqs :
  name <> [] -> Forall (fun q => asks_for name (snd q)) reqs ->
  forall w, In name (names (clients w)) ->
            login_all E reqs w = emit_events w (rejections E (tick w) reqs).
Proof.
  intros Hne Hreqs. induction Hreqs as [|[s d] reqs Hd _ IH]; intros w Hin;
    [reflexivity|].
  simpl. rewrite (login_taken s d None w name Hd Hne Hin). simpl snd.
  apply IH. exact Hin.
Qed.

Lemma handle_client_releases csock first_msg rx w name :
  NoDup (names (clients w)) ->
  fst (client_loops E csock first_msg rx w) = Some name ->
  ~ In name (names (clients (handle_client E csock first_msg rx w))).
Proof.
  intros Hnd Hu. unfold handle_client.
  pose proof (client_loops_evolves E csock first_msg rx w) as (_ & _ & Hn & _).
  pose proof (client_loops_named E csock first_msg rx w) as Hnamed.
  destruct (client_loops E csock first_msg rx w) as [u w1].
  simpl in Hu, Hn, Hnamed. subst u.
  unfold client_cleanup, unregister. rewrite (active_named _ Hnamed).
  simpl. intros Hin.
  apply (broadcast_local_names_incl E (system_msg (left_text name)) None) in Hin.
  simpl in Hin. exact (dict_pop_absent name (clients w1) (Hn Hnd) Hin).
Qed.

End RegistrationClaims.

(** ** Relay deduplication *)

Section DedupClaims.
Variable E : env.

Lemma py_eqb_canon (a b : json) :
  py_eqb a b = true <-> exists x, canon a = Some x /\ canon b = Some x.
Proof.
  destruct a as [|x|x|x|x|x], b as [|y|y|y|y|y]; simpl;
    try (split; [discriminate | intros (z & H1 & H2); congruence]).
  - split; [intros _; exists ANull; auto | auto].
  - split.
    + intros H. apply Bool.eqb_prop in H. subst. eexists; eauto.
    + intros (z & H1 & H2). destruct x, y; simpl in *; congruence.
  - rewrite Z.eqb_eq. split.
    + intros <-. eexists; eauto.
    + intros (z & H1 & H2). congruence.
  - rewrite Z.eqb_eq. split.
    + intros ->. eexists; eauto.
    + intros (z & H1 & H2). congruence.
  - rewrite Z.eqb_eq. split.
    + intros ->. eexists; eauto.
    + intros (z & H1 & H2). congruence.
  - rewrite str_eqb_eq. split.
    + intros ->. eexists; eauto.
    + intros (z & H1 & H2). congruence.
Qed.

Lemma py_eqb_sym a b : py_eqb a b = true -> py_eqb b a = true.
Proof.
  rewrite !py_eqb_canon. intros (x & H1 & H2). exists x. auto.
Qed.

Lemma py_eqb_trans a b c :
  py_eqb a b = true -> py_eqb b c = true -> py_eqb a c = true.
Proof.
  rewrite !py_eqb_canon. intros (x & H1 & H2) (y & H3 & H4).
  exists x. split; congruence.
Qed.

Lemma py_eqb_hashable a b : py_eqb a b = true -> hashable a = true.
Proof. destruct a, b; simpl; congruence. Qed.

Lemma py_eqb_refl a : hashable a = true -> py_eqb a a = true.
Proof.
  destruct a as [|x|x|x|x|x]; simpl; try congruence; intros _.
  - destruct x; reflexivity.
  - apply Z.eqb_refl.
  - apply str_eqb_refl.
Qed.

Lemma key_eqb_sym k1 k2 : key_eqb k1 k2 = true -> key_eqb k2 k1 = true.
Proof.
  destruct k1 as [[[a1 b1] c1] d1], k2 as [[[a2 b2] c2] d2]. simpl.
  rewrite !andb_true_iff. intros [[[H1 H2] H3] H4].
  repeat split; apply py_eqb_sym; assumption.
Qed.

Lemma key_eqb_trans k1 k2 k3 :
  key_eqb k1 k2 = true -> key_eqb k2 k3 = true -> key_eqb k1 k3 = true.
Proof.
  destruct k1 as [[[a1 b1] c1] d1], k2 as [[[a2 b2] c2] d2],
           k3 as [[[a3 b3] c3] d3]. simpl.
  rewrite !andb_true_iff. intros [[[H1 H2] H3] H4] [[[G1 G2] G3] G4].
  repeat split; eapply py_eqb_trans; eassumption.
Qed.

Lemma key_eqb_hashable k1 k2 : key_eqb k1 k2 = true -> key_hashable k1 = true.
Proof.
  destruct k1 as [[[a1 b1] c1] d1], k2 as [[[a2 b2] c2] d2]. simpl.
  rewrite !andb_true_iff. intros [[[H1 H2] H3] H4].
  repeat split; eapply py_eqb_hashable; eassumption.
Qed.

Lemma key_eqb_refl k : key_hashable k = true -> key_eqb k k = true.
Proof.
  destruct k as [[[a b] c] d]. simpl.
  rewrite !andb_true_iff. intros [[[H1 H2] H3] H4].
  repeat split; apply py_eqb_refl; assumption.
Qed.

Lemma set_mem_eqb k1 k2 s :
  key_eqb k1 k2 = true -> set_mem k1 s = true -> set_mem k2 s = true.
Proof.
  unfold set_mem. intros H12 H. apply existsb_exists in H as (k & Hin & Hk).
  apply existsb_exists. exists k. split; [exact Hin|].
  eapply key_eqb_trans; [apply key_eqb_sym; exact H12 | exact Hk].
Qed.

Lemma set_mem_app k s t : set_mem k s = true -> set_mem k (s ++ t) = true.
Proof.
  unfold set_mem. rewrite existsb_app. intros ->. reflexivity.
Qed.

Lemma set_mem_hashable k s : set_mem k s = true -> key_hashable k = true.
Proof.
  unfold set_mem. intros H. apply existsb_exists in H as (k' & _ & Hk).
  eapply key_eqb_hashable. exact Hk.
Qed.

Lemma get_field d key : get (JDict d) (py key) = Ok (field key d).
Proof. reflexivity. Qed.

(** What the handling of a relay message comes to. *)
Lemma peer_loop_body_relay d w :
  is_relay d ->
  peer_loop_body E (JDict d) w =
  match should_process (relay_key d) w with
  | (Raise, w1) => (Raised, w1)
  | (Ok false, w1) => (Next, w1)
  | (Ok true, w1) =>
      match getitem (JDict d) (py "from"),
            getitem (JDict d) (py "origin_server"),
            getitem (JDict d) (py "text"),
            getitem (JDict d) (py "timestamp") with
      | Ok f', Ok o', Ok tx', Ok ts' =>
          let (record, w2) := alloc (local_record f' o' tx' ts') w1 in
          let w3 := broadcast_local E (deref w2 record) None w2 in
          match log E record w3 with
          | (Ok _, w4) => (Next, w4)
          | (Raise, w4) => (Raised, w4)
          end
      | _, _, _, _ => (Raised, w1)
      end
  end.
Proof.
  intros Hr. unfold peer_loop_body. rewrite !get_field.
  unfold is_relay in Hr. rewrite Hr. reflexivity.
Qed.

Lemma peer_loop_body_duplicate d w :
  is_relay d -> set_mem (relay_key d) (seen w) = true ->
  peer_loop_body E (JDict d) w = (Next, w).
Proof.
  intros Hr Hmem. rewrite (peer_loop_body_relay d w Hr).
  unfold should_process. rewrite (set_mem_hashable _ _ Hmem), Hmem. reflexivity.
Qed.

Lemma should_process_marks key w :
  key_hashable key = true ->
  set_mem key (seen (snd (should_process key w))) = true.
Proof.
  intros Hh. unfold should_process. rewrite Hh.
  destruct (set_mem key (seen w)) eqn:Hmem; simpl; [exact Hmem|].
  unfold set_mem. rewrite existsb_app. simpl.
  rewrite (key_eqb_refl key Hh). apply orb_true_r.
Qed.

Lemma evolves_set_mem P w w' k :
  evolves P w w' -> set_mem k (seen w) = true -> set_mem k (seen w') = true.
Proof.
  intros (_ & (ks & ->) & _) H. apply set_mem_app. exact H.
Qed.

Lemma peer_loop_body_marks d w :
  is_relay d -> key_hashable (relay_key d) = true ->
  set_mem (relay_key d) (seen (snd (peer_loop_body E (JDict d) w))) = true.
Proof.
  intros Hr Hh. rewrite (peer_loop_body_relay d w Hr).
  pose proof (should_process_marks (relay_key d) w Hh) as Hm.
  destruct (should_process (relay_key d) w) as [[[|]|] w1]; simpl in Hm;
    try exact Hm.
  destruct (getitem (JDict d) (py "from")); [|exact Hm].
  destruct (getitem (JDict d) (py "origin_server")); [|exact Hm].
  destruct (getitem (JDict d) (py "text")); [|exact Hm].
  destruct (getitem (JDict d) (py "timestamp")); [|exact Hm].
  unfold alloc. cbv beta iota zeta.
  set (w2 := with_heap w1 _). set (r := List.length (heap w1)).
  set (w3 := broadcast_local E (deref w2 r) None w2).
  assert (H3 : set_mem (relay_key d) (seen w3) = true).
  { apply (evolves_set_mem delivery w2 w3);
      [apply broadcast_local_evolves | exact Hm]. }
  pose proof (log_evolves E r w3) as H4.
  destruct (log E r w3) as [[[]|] w4]; simpl in *;
    exact (evolves_set_mem delivery w3 w4 _ H4 H3).
Qed.

Lemma log_appends_delivery_attempts record n rs :
  log_appends (attempts E record n rs) = 0.
Proof.
  revert n. induction rs as [|[u s] rs IH]; intros n; simpl; auto.
Qed.

Lemma log_appends_app es fs :
  log_appends (es ++ fs) = log_appends es + log_appends fs.
Proof.
  induction es as [|e es IH]; simpl; [reflexivity|].
  destruct e; rewrite IH; reflexivity.
Qed.

(** A log call appends at most one line. *)
Lemma log_trace r w :
  exists e, trace (snd (log E r w)) = trace w ++ e
            /\ (e = [] \/ exists o l, e = log_events o l).
Proof.
  unfold log. simpl.
  assert (Hes : trace (snd (setitem r (py "logged_at") (JNum (clock E (tick w)))
                              (with_tick w))) = trace w).
  { unfold setitem. simpl. destruct (nth_error (heap w) r) as [[]|]; reflexivity. }
  destruct (setitem r (py "logged_at") (JNum (clock E (tick w))) (with_tick w))
    as [[[]|] w2]; simpl in Hes |- *.
  - destruct (log_result E (tick w2)) eqn:Ho; simpl; rewrite Hes.
    + exists (log_events Appended (deref w2 r)). split; [reflexivity | eauto].
    + exists (log_events FailedBefore JNull). split; [reflexivity | eauto].
    + exists (log_events FailedAfter (deref w2 r)).
      split; [rewrite <- app_assoc; reflexivity | eauto].
  - exists []. rewrite app_nil_r. split; [exact Hes | auto].
Qed.

Lemma relay_events_log_appends w es : relay_events E w es -> log_appends es <= 1.
Proof.
  intros [-> | (record & e & -> & He)]; [simpl; lia|].
  rewrite log_appends_app, log_appends_delivery_attempts.
  destruct He as [-> | (o & l & ->)]; [|destruct o]; simpl; lia.
Qed.

Lemma peer_loop_body_trace d w :
  is_relay d ->
  exists es,
    trace (snd (peer_loop_body E (JDict d) w)) = trace w ++ es
    /\ relay_events E w es.
Proof.
  intros Hr. rewrite (peer_loop_body_relay d w Hr).
  unfold should_process.
  assert (Hnil : forall c : ctl, exists es,
            trace (snd (c, w)) = trace w ++ es /\ relay_events E w es).
  { intros c. exists []. rewrite app_nil_r. simpl. split; [reflexivity | left; reflexivity]. }
  destruct (key_hashable (relay_key d)); [|apply (Hnil Raised)].
  destruct (set_mem (relay_key d) (seen w)); [apply (Hnil Next)|].
  assert (Hnil' : forall c : ctl, exists es,
            trace (snd (c, with_seen w (seen w ++ [relay_key d])))
            = trace w ++ es /\ relay_events E w es).
  { intros c. exists []. rewrite app_nil_r. simpl. split; [reflexivity | left; reflexivity]. }
  destruct (getitem (JDict d) (py "from")) as [f|]; [|apply (Hnil' Raised)].
  destruct (getitem (JDict d) (py "origin_server")) as [o|]; [|apply (Hnil' Raised)].
  destruct (getitem (JDict d) (py "text")) as [tx|]; [|apply (Hnil' Raised)].
  destruct (getitem (JDict d) (py "timestamp")) as [ts|]; [|apply (Hnil' Raised)].
  set (w1 := with_seen w _).
  pose proof (deref_alloc (local_record f o tx ts) w1) as Hderef.
  unfold alloc in *. cbn [fst snd] in Hderef. cbv beta iota zeta.
  set (w2 := with_heap w1 _) in *. set (r := List.length (heap w1)) in *.
  rewrite Hderef.
  set (record := local_record f o tx ts).
  destruct (broadcast_local_fields E record None w2) as (Ht & _).
  rewrite recipients_none in Ht. simpl in Ht.
  set (w3 := broadcast_local E record None w2) in *.
  destruct (log_trace r w3) as (e & He & Hcases).
  exists (attempts E record (tick w) (clients w) ++ e).
  assert (Htr : trace (snd (log E r w3)) =
                trace w ++ attempts E record (tick w) (clients w) ++ e).
  { rewrite He, Ht, <- app_assoc. reflexivity. }
  assert (Hrel : relay_events E w (attempts E record (tick w) (clients w) ++ e)).
  { right. exists record, e. split; [reflexivity | exact Hcases]. }
  destruct (log E r w3) as [[[]|] w4]; simpl in Htr |- *;
    (split; [exact Htr | exact Hrel]).
Qed.

(** C3: a relay message whose fingerprint is in the seen set is skipped with
    no effect; the handling of a relay message holds at most one broadcast to
    the local registry and at most one log append; of two relay messages with
    the same fingerprint, from the same peer or not and whatever the node does
    between them, the second is skipped; membership check and insertion are
    one step, which answers true only the first time a fingerprint is seen;
    and in every schedule of the node's operations the seen set only grows. *)
Theorem relay_processed_once :
  (forall d w,
      is_relay d -> set_mem (relay_key d) (seen w) = true ->
      peer_loop_body E (JDict d) w = (Next, w))
  /\ (forall d w,
        is_relay d ->
        exists es,
          trace (snd (peer_loop_body E (JDict d) w)) = trace w ++ es
          /\ relay_events E w es /\ log_appends es <= 1)
  /\ (forall d1 d2 ops w,
        is_relay d1 -> is_relay d2 ->
        key_eqb (relay_key d1) (relay_key d2) = true ->
        let w1 := snd (peer_loop_body E (JDict d1) w) in
        let w2 := run E ops w1 in
        peer_loop_body E (JDict d2) w2 = (Next, w2))
  /\ (forall key w,
        key_hashable key = true ->
        should_process key w =
          (if set_mem key (seen w) then (Ok false, w)
           else (Ok true, with_seen w (seen w ++ [key])))
        /\ forall ops key',
             key_eqb key key' = true ->
             let w' := run E ops (snd (should_process key w)) in
             should_process key' w' = (Ok false, w'))
  /\ (forall ops w, exists ks, seen (run E ops w) = seen w ++ ks)
  /\ (forall ops w k,
        set_mem k (seen w) = true -> set_mem k (seen (run E ops w)) = true).
Proof.
  split; [|split; [|split; [|split; [|split]]]].
  - exact peer_loop_body_duplicate.
  - intros d w Hr. destruct (peer_loop_body_trace d w Hr) as (es & He & Hrel).
    exists es. split; [exact He | split; [exact Hrel|]].
    eapply relay_events_log_appends. exact Hrel.
  - intros d1 d2 ops w Hr1 Hr2 Hk w1 w2.
    apply peer_loop_body_duplicate; [exact Hr2|].
    apply (set_mem_eqb (relay_key d1)); [exact Hk|].
    apply (evolves_set_mem (fun _ => True) w1 w2); [apply run_evolves|].
    apply peer_loop_body_marks; [exact Hr1|].
    eapply key_eqb_hashable. exact Hk.
  - intros key w Hh. split.
    + unfold should_process. rewrite Hh. reflexivity.
    + intros ops key' Hk w'.
      assert (Hm : set_mem key' (seen w') = true).
      { apply (set_mem_eqb key); [exact Hk|].
        apply (evolves_set_mem (fun _ => True) (snd (should_process key w)) w');
          [apply run_evolves | apply should_process_marks; exact Hh]. }
      unfold should_process. rewrite (set_mem_hashable _ _ Hm), Hm. reflexivity.
  - intros ops w. destruct (run_evolves E ops w) as (_ & Hk & _). exact Hk.
  - intros ops w k. apply (evolves_set_mem (fun _ => True)). apply run_evolves.
Qed.
End DedupClaims.

Lemma relay_processed_once_witness :
  let w1 := snd (peer_loop_body fair_env (JDict relay_hi) node_A_alice) in
  let w2 :=
    run fair_env
      [RouteConnection 2 [Recv (line_of (login_fields "bob"))];
       PeerMessage (obj_of ping_fields)] w1 in
  trace w1 =
    trace node_A_alice
    ++ [Send 1 (local_record (JStr (py "bob")) (JStr (py "B")) (JStr (py "hi"))
                  (JNum 1700000000)) true;
        LogLine (with_logged_at
                   (local_record (JStr (py "bob")) (JStr (py "B"))
                      (JStr (py "hi")) (JNum 1700000000)) 2)]
  /\ peer_loop_body fair_env (JDict relay_hi) w2 = (Next, w2).
Proof.
  intros w1 w2. split; [reflexivity|].
  exact (proj1 (proj2 (proj2 (relay_processed_once fair_env)))
           relay_hi relay_hi
           [RouteConnection 2 [Recv (line_of (login_fields "bob"))];
            PeerMessage (obj_of ping_fields)]
           node_A_alice eq_refl eq_refl eq_refl).
Defined.

(** ** The router's decoder *)

Section RouterClaims.
Variable E : env.

Lemma recv_first_line data rest l ls left :
  split_lines [] data = (l :: ls, left) ->
  recv_json_lines E (Recv data :: rest) =
  match json_loads E l with
  | Some m => SYield m rest (yield_lines E ls rest (recv_loop E left rest))
  | None => SRaise
  end.
Proof.
  intros Hs. unfold recv_json_lines. destruct data as [|c data].
  - simpl in Hs. discriminate.
  - cbn [recv_loop]. rewrite app_nil_l, Hs. reflexivity.
Qed.

(** What the router does with a first chunk whose first line is [l]. *)
Lemma route_first_line s data rest w l ls left :
  split_lines [] data = (l :: ls, left) ->
  route_connection E s (Recv data :: rest) w =
  match json_loads E l with
  | Some first_msg =>
      match get first_msg (py "type") with
      | Raise => emit_event w (Close s)
      | Ok t =>
          if is_str t (py "hello") then
            match get first_msg (py "from_server") with
            | Ok pid =>
                if hashable pid then
                  match handle_peer E pid s rest
                          (with_peer_sockets w
                             (dict_set py_eqb pid s (peer_sockets w))) with
                  | (Ok _, w2) => w2
                  | (Raise, w2) => emit_event w2 (Close s)
                  end
                else emit_event w (Close s)
            | Raise => emit_event w (Close s)
            end
          else handle_client E s (Some first_msg) rest w
      end
  | None => emit_event w (Close s)
  end.
Proof.
  intros Hs. unfold route_connection. rewrite (recv_first_line data rest l ls left Hs).
  destruct (json_loads E l); reflexivity.
Qed.

(** C10: when the router's first read returns several lines, only the first
    takes part in what follows: the connection is handled exactly as if the
    chunk had held that line alone, the further lines and any partial line
    being dropped with the router's decoder. A client handler gets the first
    message and the input not yet received, and after that message it decodes
    from the socket with a new, empty buffer. *)
Theorem router_drops_buffered_lines s data data' rest w l ls ls' left left' :
  split_lines [] data = (l :: ls, left) ->
  split_lines [] data' = (l :: ls', left') ->
  route_connection E s (Recv data :: rest) w
  = route_connection E s (Recv data' :: rest) w
  /\ (forall m t,
        json_loads E l = Some m -> get m (py "type") = Ok t ->
        is_str t (py "hello") = false ->
        route_connection E s (Recv data :: rest) w
        = handle_client E s (Some m) rest w
        /\ (truthy m = true ->
            client_loops E s (Some m) rest w =
            match first_loop_body E s m None w with
            | (Raised, u, w1) => (u, w1)
            | (_, u, w1) =>
                let '(_, u2, w2) :=
                  for_loop (second_loop_body E) (recv_loop E [] rest) u w1 in
                (u2, w2)
            end)).
Proof.
  intros Hs Hs'. split.
  - rewrite (route_first_line s data rest w l ls left Hs).
    rewrite (route_first_line s data' rest w l ls' left' Hs'). reflexivity.
  - intros m t Hm Ht Hhello. split.
    + rewrite (route_first_line s data rest w l ls left Hs), Hm, Ht, Hhello.
      reflexivity.
    + intros Htr. unfold client_loops, msgs_iter. rewrite Htr.
      cbn [for_loop]. unfold recv_json_lines.
      destruct (first_loop_body E s m None w) as [[[| |] u] w1]; reflexivity.
Qed.
End RouterClaims.

Lemma router_drops_buffered_lines_witness :
  route_connection fair_env 7
    [Recv (line_of (login_fields "alice") ++ line_of (msg_fields "hi")
           ++ py "{partial")] node_A
  = route_connection fair_env 7 [Recv (line_of (login_fields "alice"))] node_A.
Proof.
  apply (router_drops_buffered_lines fair_env 7
           (line_of (login_fields "alice") ++ line_of (msg_fields "hi")
            ++ py "{partial")
           (line_of (login_fields "alice")) [] node_A
           (strip (line_of (login_fields "alice")))
           [strip (line_of (msg_fields "hi"))] [] (py "{partial") []);
    vm_compute; reflexivity.
Defined.

(** ** Messages after the first one *)

(** The second loop has no [login] branch and no [else] branch: whatever is
    not a [msg] of a logged-in user or a [quit] is skipped without a reply. *)
Lemma second_loop_body_silent (E : env) msg (u : option str) w t :
  get msg (py "type") = Ok t ->
  is_str t (py "msg") && match u with Some _ => true | None => false end = false ->
  is_str t (py "quit") = false ->
  second_loop_body E msg u w = (Next, u, w).
Proof.
  intros Ht Hmsg Hquit. unfold second_loop_body. rewrite Ht, Hquit.
  destruct (is_str t (py "msg")), u; simpl in Hmsg; try discriminate; reflexivity.
Qed.

Lemma second_loop_body_silent_witness :
  second_loop_body fair_env (obj_of (login_fields "bob")) None node_A_alice
  = (Next, None, node_A_alice).
Proof.
  apply (second_loop_body_silent fair_env (obj_of (login_fields "bob")) None
           node_A_alice (JStr (py "login"))); reflexivity.
Defined.

(** C2, on the code: a connection whose login was rejected stays open and is
    read further, but a second login on it is skipped. With [alice]
    registered, a connection sends a login for [alice] and then one for the
    free name [bob]; or a login with a blank name and then one for [bob]. In
    both runs the only reply is the error, [bob] is never registered and
    nothing is sent but the error until the connection is closed. *)
Theorem retry_login_is_ignored :
  let taken :=
    route_connection fair_env 2
      [Recv (line_of (login_fields "alice")); Recv (line_of (login_fields "bob"))]
      node_A_alice in
  let blank :=
    route_connection fair_env 2
      [Recv (line_of (login_fields "  ")); Recv (line_of (login_fields "bob"))]
      node_A_alice in
  trace taken =
    trace node_A_alice
    ++ [Send 2 (error_msg (py "username taken")) true; Close 2]
  /\ clients taken = [(py "alice", 1)]
  /\ trace blank =
       trace node_A_alice
       ++ [Send 2 (error_msg (py "username required")) true; Close 2]
  /\ clients blank = [(py "alice", 1)].
Proof. vm_compute. repeat split; reflexivity. Qed.

(** C7, on the code: only the first message of a connection is answered with
    "invalid request". A connection that sends two unknown messages and then
    a [msg] before any login gets one error, for the first; a connection that
    logs in as [bob] and then sends an unknown message gets no error at all,
    and its next [msg] is delivered as usual. A first message that is the
    empty object counts as no first message: it gets no reply, and the
    messages after it are then handled by the first loop, which does answer
    an unknown one. *)
Theorem later_invalid_request_is_ignored :
  let empty_first :=
    route_connection fair_env 2
      [Recv (line_of []); Recv (line_of ping_fields)] node_A_alice in
  let before_login :=
    route_connection fair_env 2
      [Recv (line_of ping_fields); Recv (line_of ping_fields);
       Recv (line_of (msg_fields "hi"))]
      node_A_alice in
  let while_active :=
    route_connection fair_env 2
      [Recv (line_of (login_fields "bob")); Recv (line_of ping_fields);
       Recv (line_of (msg_fields "hi"))]
      node_A_alice in
  let record := chat_record (py "bob") (py "A") (JStr (py "hi")) 3 in
  trace before_login =
    trace node_A_alice
    ++ [Send 2 (error_msg (py "invalid request")) true; Close 2]
  /\ trace empty_first =
       trace node_A_alice
       ++ [Send 2 (error_msg (py "invalid request")) true; Close 2]
  /\ trace while_active =
       trace node_A_alice
       ++ [Send 2 (system_msg (welcome_text (py "bob") (py "A"))) true;
           Send 1 (system_msg (joined_text (py "bob"))) true;
           Send 1 record true;
           Send 2 record true;
           LogLine
             (JDict [(py "type", JStr (py "msg")); (py "from", JStr (py "bob"));
                     (py "server", JStr (py "A")); (py "text", JStr (py "hi"));
                     (py "timestamp", JNum 3); (py "logged_at", JNum 6)]);
           Send 1 (system_msg (left_text (py "bob"))) true;
           Close 2].
Proof. vm_compute. repeat split; reflexivity. Qed.

(** ** Log appends *)

Section LogClaims.
Variable E : env.

Lemma heap_update_same (h : list json) (r : nat) (x : json) :
  r < List.length h -> nth r (firstn r h ++ x :: skipn (S r) h) JNull = x.
Proof.
  intros Hr. rewrite app_nth2; rewrite length_firstn, Nat.min_l by lia; [|lia].
  rewrite Nat.sub_diag. reflexivity.
Qed.

Lemma heap_update_other (h : list json) (r r' : nat) (x : json) :
  r < List.length h -> r' <> r ->
  nth r' (firstn r h ++ x :: skipn (S r) h) JNull = nth r' h JNull.
Proof.
  intros Hr Hne. destruct (Nat.lt_ge_cases r' r) as [Hlt|Hge].
  - rewrite app_nth1 by (rewrite length_firstn, Nat.min_l; lia).
    rewrite nth_firstn. apply Nat.ltb_lt in Hlt. rewrite Hlt. reflexivity.
  - rewrite app_nth2; rewrite length_firstn, Nat.min_l by lia; [|lia].
    destruct (r' - r) as [|k] eqn:Hk; [lia|].
    cbn [nth]. rewrite nth_skipn. f_equal. lia.
Qed.

(** What a log call does to a record object. *)
Lemma log_full r d w :
  nth_error (heap w) r = Some (JDict d) ->
  let logged := JDict (dict_set str_eqb (py "logged_at") (JNum (clock E (tick w))) d) in
  let o := log_result E (S (tick w)) in
  let w' := snd (log E r w) in
  fst (log E r w) = (if log_raises o then Raise else Ok tt)
  /\ trace w' = trace w ++ log_events o logged
  /\ heap w' = firstn r (heap w) ++ logged :: skipn (S r) (heap w)
  /\ logfile w' = logfile w ++ logged_lines o logged
  /\ clients w' = clients w
  /\ peer_sockets w' = peer_sockets w
  /\ seen w' = seen w.
Proof.
  intros Hr logged o w'. subst w'. unfold log, time_time, setitem.
  cbv beta iota zeta. change (heap (with_tick w)) with (heap w). rewrite Hr.
  cbv beta iota zeta. unfold deref. simpl heap. simpl tick.
  assert (Hlt : r < List.length (heap w)).
  { apply nth_error_Some. rewrite Hr. discriminate. }
  rewrite (heap_update_same (heap w) r _ Hlt). fold logged. fold o.
  destruct o; simpl; rewrite <- ?app_assoc, ?app_nil_r; repeat split; reflexivity.
Qed.

Lemma forward_loop_fields packet items :
  forall w,
    let w' := forward_loop E items packet w in
    trace w' = trace w ++ peer_attempts E packet (tick w) items
    /\ tick w' = tick w + List.length items
    /\ heap w' = heap w
    /\ clients w' = clients w
    /\ logfile w' = logfile w
    /\ seen w' = seen w
    /\ server_id w' = server_id w.
Proof.
  induction items as [|[pid psock] items IH]; intros w; simpl.
  - rewrite app_nil_r, Nat.add_0_r. repeat split.
  - destruct (send_ok E (tick w) psock);
      match goal with
      | |- context [forward_loop E items packet ?w0] =>
          destruct (IH w0) as (H1 & H2 & H3 & H4 & H5 & H6 & H7)
      end;
      simpl in *; rewrite H1, H2, H3, H4, H5, H6, H7, <- app_assoc;
      repeat split; lia.
Qed.

Lemma forward_chat_record u sid text now w :
  forward_to_peers E (chat_record u sid text now) w =
  (Ok tt,
   forward_loop E (peer_sockets w)
     (relay_packet (JStr u) (JStr sid) text (JNum now)) w).
Proof. reflexivity. Qed.

(** Everything the handling of a [msg] does. *)
Lemma chat_full d u w :
  let now := clock E (tick w) in
  let record := chat_record u (server_id w) (text_of d) now in
  let packet := relay_packet (JStr u) (JStr (server_id w)) (text_of d) (JNum now) in
  let n1 := S (tick w) in
  let n2 := n1 + List.length (clients w) in
  let n3 := n2 + List.length (peer_sockets w) in
  let logged := with_logged_at record (clock E n3) in
  let o := log_result E (S n3) in
  let w' := snd (chat E (JDict d) u w) in
  fst (chat E (JDict d) u w) = (if log_raises o then Raised else Next)
  /\ trace w' =
       trace w ++ attempts E record n1 (clients w)
       ++ peer_attempts E packet n2 (peer_sockets w)
       ++ log_events o logged
  /\ heap w' = heap w ++ [logged]
  /\ logfile w' = logfile w ++ logged_lines o logged.
Proof.
  intros now record packet n1 n2 n3 logged o w'. subst w'.
  unfold chat. simpl get_default. fold (text_of d).
  unfold time_time. cbv beta iota zeta. fold now.
  pose proof (deref_alloc record (with_tick w)) as Hderef.
  unfold alloc in *. cbn [fst snd] in Hderef. cbv beta iota zeta.
  change (server_id (with_tick w)) with (server_id w). fold record.
  set (w1 := with_tick w) in *.
  set (w2 := with_heap w1 (heap w1 ++ [record])) in *.
  rewrite Hderef.
  destruct (broadcast_local_fields E record None w2)
    as (Ht3 & Hk3 & _ & Hp3 & _ & Hh3 & Hl3 & Hs3 & _).
  rewrite recipients_none in Ht3, Hk3. simpl in Ht3, Hk3, Hp3, Hh3, Hl3, Hs3.
  set (w3 := broadcast_local E record None w2) in *.
  assert (Hd3 : deref w3 (List.length (heap w1)) = record).
  { unfold deref. rewrite Hh3. simpl.
    rewrite app_nth2, Nat.sub_diag by lia. reflexivity. }
  rewrite Hd3.
  assert (Hfw : forward_to_peers E record w3 =
                (Ok tt, forward_loop E (peer_sockets w) packet w3)).
  { unfold record, packet. rewrite forward_chat_record, Hp3. reflexivity. }
  rewrite Hfw. cbv beta iota zeta.
  destruct (forward_loop_fields packet (peer_sockets w) w3)
    as (Ht4 & Hk4 & Hh4 & _ & Hl4 & _).
  set (w4 := forward_loop E (peer_sockets w) packet w3) in *.
  assert (Hr : nth_error (heap w4) (List.length (heap w1))
               = Some record).
  { rewrite Hh4, Hh3. simpl.
    rewrite nth_error_app2, Nat.sub_diag by lia. reflexivity. }
  assert (Hk : tick w4 = n3).
  { rewrite Hk4, Hk3. subst n3 n2 n1. reflexivity. }
  unfold record in Hr.
  destruct (log_full (List.length (heap w1)) _ w4 Hr)
    as (Hf & Ht5 & Hh5 & Hl5 & _).
  rewrite Hk in Hf, Ht5, Hh5, Hl5. fold o in Hf, Ht5, Hl5.
  change (JDict (dict_set str_eqb (py "logged_at") (JNum (clock E n3)) _))
    with logged in Ht5, Hh5, Hl5.
  assert (Hheap : heap (snd (log E (List.length (heap w1)) w4)) = heap w ++ [logged]).
  { rewrite Hh5, Hh4, Hh3. change (heap w1) with (heap w).
    rewrite firstn_app, Nat.sub_diag, firstn_all. cbn [firstn].
    rewrite app_nil_r.
    rewrite skipn_all2; [reflexivity|]. rewrite length_app. simpl. lia. }
  assert (Htrace : trace (snd (log E (List.length (heap w1)) w4)) =
          trace w ++ attempts E record n1 (clients w)
          ++ peer_attempts E packet n2 (peer_sockets w)
          ++ log_events o logged).
  { rewrite Ht5, Ht4, Ht3, Hk3. simpl. rewrite <- !app_assoc. reflexivity. }
  assert (Hlog : logfile (snd (log E (List.length (heap w1)) w4)) =
                 logfile w ++ logged_lines o logged).
  { rewrite Hl5, Hl4, Hl3. reflexivity. }
  destruct (log E (List.length (heap w1)) w4) as [[[]|] w5]; simpl in *;
    destruct (log_raises o); try discriminate; repeat split; assumption.
Qed.

Lemma is_msg_not_login t :
  is_str t (py "msg") = true -> is_str t (py "login") = false.
Proof.
  destruct t as [| | |s| |]; simpl; try discriminate.
  intros H. apply str_eqb_eq in H. subst. reflexivity.
Qed.

Lemma first_loop_body_msg csock d u w :
  is_msg d -> u <> [] ->
  first_loop_body E csock (JDict d) (Some u) w =
  (fst (chat E (JDict d) u w), Some u, snd (chat E (JDict d) u w)).
Proof.
  intros Hm Hu. unfold first_loop_body. rewrite get_field.
  unfold is_msg in Hm. rewrite (is_msg_not_login _ Hm), Hm.
  destruct u as [|c u]; [congruence|]. cbn [active].
  destruct (chat E (JDict d) (c :: u) w); reflexivity.
Qed.

Lemma second_loop_body_msg d u w :
  is_msg d -> u <> [] ->
  second_loop_body E (JDict d) (Some u) w =
  (fst (chat E (JDict d) u w), Some u, snd (chat E (JDict d) u w)).
Proof.
  intros Hm Hu. unfold second_loop_body. rewrite get_field.
  unfold is_msg in Hm. rewrite Hm.
  destruct u as [|c u]; [congruence|]. cbn [active].
  destruct (chat E (JDict d) (c :: u) w); reflexivity.
Qed.

Lemma dict_get_set_other (k key : str) (v : json) (d : list (str * json)) :
  k <> key ->
  dict_get str_eqb k (dict_set str_eqb key v d) = dict_get str_eqb k d.
Proof.
  intros Hne. induction d as [|[k' v'] d IH]; simpl.
  - apply str_eqb_neq in Hne. rewrite Hne. reflexivity.
  - destruct (str_eqb key k') eqn:Hk; simpl.
    + apply str_eqb_eq in Hk. subst k'.
      apply str_eqb_neq in Hne. rewrite Hne. reflexivity.
    + rewrite IH. reflexivity.
Qed.

(** A loop that has been through [n] messages goes on from where it
    stands. *)
Lemma for_loop_advance body n :
  forall msgs u w msgs' u' w',
    advance body n msgs u w = Some (msgs', u', w') ->
    for_loop body msgs u w = for_loop body msgs' u' w'.
Proof.
  induction n as [|n IH]; intros msgs u w msgs' u' w' H; simpl in H.
  - injection H as <- <- <-. reflexivity.
  - destruct msgs as [m unread next| |]; try discriminate H.
    simpl. destruct (body m u w) as [[[| |] u1] w1]; try discriminate H.
    apply IH. exact H.
Qed.

(** The log append of a [msg] raises: the handling raises, after the
    broadcast and the forwarding. *)
Lemma chat_log_fails d u w :
  log_raises (log_result E (log_turn w)) = true ->
  fst (chat E (JDict d) u w) = Raised.
Proof.
  intros H. destruct (chat_full d u w) as (Hf & _).
  rewrite Hf. unfold log_turn in H. rewrite H. reflexivity.
Qed.

(** C6, as the code has it: when the log append of a [msg] raises (this
    one append, whatever the others do), the record has been broadcast to the
    registry and forwarded to the peers before; the failure then leaves the
    loop that was reading the connection, in the first loop as in the second
    and wherever in the session the message comes, so that no later message
    of the connection is read: after a failure in the first loop the second
    loop is not entered, and the handler goes on to its cleanup, which pops
    the name, sends the leave notice and closes the socket. *)
Theorem log_failure_ends_session :
  (forall d u w,
      log_raises (log_result E (log_turn w)) = true ->
      let now := clock E (tick w) in
      let record := chat_record u (server_id w) (text_of d) now in
      let packet :=
        relay_packet (JStr u) (JStr (server_id w)) (text_of d) (JNum now) in
      let n2 := S (tick w) + List.length (clients w) in
      let w' := snd (chat E (JDict d) u w) in
      fst (chat E (JDict d) u w) = Raised
      /\ exists es,
           trace w' =
             trace w ++ attempts E record (S (tick w)) (clients w)
             ++ peer_attempts E packet n2 (peer_sockets w)
             ++ es
           /\ In LogFailed es
           /\ Forall (fun e => forall s p ok, e <> Send s p ok) es)
  /\ (forall csock d u w unread next,
        is_msg d -> u <> [] ->
        log_raises (log_result E (log_turn w)) = true ->
        for_loop (first_loop_body E csock) (SYield (JDict d) unread next)
          (Some u) w
        = (Failed, Some u, snd (chat E (JDict d) u w))
        /\ for_loop (second_loop_body E) (SYield (JDict d) unread next)
             (Some u) w
           = (Failed, Some u, snd (chat E (JDict d) u w)))
  /\ (forall csock first_msg rx w0 n d u w unread next,
        is_msg d -> u <> [] ->
        log_raises (log_result E (log_turn w)) = true ->
        advance (first_loop_body E csock) n (msgs_iter E first_msg rx) None w0
        = Some (SYield (JDict d) unread next, Some u, w) ->
        client_loops E csock first_msg rx w0
        = (Some u, snd (chat E (JDict d) u w))
        /\ handle_client E csock first_msg rx w0
           = client_cleanup E csock (Some u) (snd (chat E (JDict d) u w)))
  /\ (forall csock first_msg rx w0 rest u0 w1 n d u w unread next,
        is_msg d -> u <> [] ->
        log_raises (log_result E (log_turn w)) = true ->
        for_loop (first_loop_body E csock) (msgs_iter E first_msg rx) None w0
        = (Done rest, u0, w1) ->
        advance (second_loop_body E) n (recv_json_lines E rest) u0 w1
        = Some (SYield (JDict d) unread next, Some u, w) ->
        client_loops E csock first_msg rx w0
        = (Some u, snd (chat E (JDict d) u w))
        /\ handle_client E csock first_msg rx w0
           = client_cleanup E csock (Some u) (snd (chat E (JDict d) u w)))
  /\ (forall csock u w,
        u <> [] ->
        trace (client_cleanup E csock (Some u) w) =
        trace w
        ++ attempts E (system_msg (left_text u)) (tick w)
             (dict_pop str_eqb u (clients w))
        ++ [Close csock]).
Proof.
  assert (Hloops : forall csock d u w unread next,
            is_msg d -> u <> [] ->
            log_raises (log_result E (log_turn w)) = true ->
            for_loop (first_loop_body E csock) (SYield (JDict d) unread next)
              (Some u) w
            = (Failed, Some u, snd (chat E (JDict d) u w))
            /\ for_loop (second_loop_body E) (SYield (JDict d) unread next)
                 (Some u) w
               = (Failed, Some u, snd (chat E (JDict d) u w))).
  { intros csock d u w unread next Hm Hu Hlog. cbn [for_loop].
    rewrite (first_loop_body_msg csock d u w Hm Hu).
    rewrite (second_loop_body_msg d u w Hm Hu).
    rewrite (chat_log_fails d u w Hlog). split; reflexivity. }
  split; [|split; [exact Hloops|split; [|split]]].
  - intros d u w Hlog now record packet n2 w'.
    split; [apply chat_log_fails; exact Hlog|].
    destruct (chat_full d u w) as (_ & Ht & _). cbv zeta in Ht.
    unfold log_turn in Hlog.
    set (o := log_result E _) in Ht, Hlog. clearbody o.
    eexists. split; [exact Ht|].
    destruct o; simpl in Hlog; try discriminate.
    + split; [simpl; auto|].
      apply Forall_forall. intros e He s p ok ->. simpl in He.
      intuition discriminate.
    + split; [simpl; auto|].
      apply Forall_forall. intros e He s p ok ->. simpl in He.
      intuition discriminate.
  - intros csock first_msg rx w0 n d u w unread next Hm Hu Hlog Hadv.
    assert (Hc : client_loops E csock first_msg rx w0
                 = (Some u, snd (chat E (JDict d) u w))).
    { unfold client_loops. rewrite (for_loop_advance _ n _ _ _ _ _ _ Hadv).
      rewrite (proj1 (Hloops csock d u w unread next Hm Hu Hlog)).
      reflexivity. }
    split; [exact Hc|]. unfold handle_client. rewrite Hc. reflexivity.
  - intros csock first_msg rx w0 rest u0 w1 n d u w unread next
           Hm Hu Hlog Hfirst Hadv.
    assert (Hc : client_loops E csock first_msg rx w0
                 = (Some u, snd (chat E (JDict d) u w))).
    { unfold client_loops. rewrite Hfirst.
      rewrite (for_loop_advance _ n _ _ _ _ _ _ Hadv).
      rewrite (proj2 (Hloops csock d u w unread next Hm Hu Hlog)).
      reflexivity. }
    split; [exact Hc|]. unfold handle_client. rewrite Hc. reflexivity.
  - intros csock u w Hu. apply client_cleanup_trace.
    destruct u; [congruence | reflexivity].
Qed.

(** C9, as the code has it: the log append writes the key [logged_at] into
    the caller's record object, in place, and changes nothing else: the
    other keys keep their values, the other objects are as they were, and the
    trace grows by the log event alone, so what was sent before stays as it
    was sent. For a [msg], the broadcast and the relay packet carry the record
    as it was built, and the same object holds [logged_at] afterwards. *)
Theorem log_mutates_record_in_place r d w
        (Hr : nth_error (heap w) r = Some (JDict d)) :
  let now := clock E (tick w) in
  let w' := snd (log E r w) in
  deref w r = JDict d
  /\ deref w' r = JDict (dict_set str_eqb (py "logged_at") (JNum now) d)
  /\ (forall k, k <> py "logged_at" ->
        dict_get str_eqb k (dict_set str_eqb (py "logged_at") (JNum now) d)
        = dict_get str_eqb k d)
  /\ (forall r', r' <> r -> deref w' r' = deref w r')
  /\ (exists o, trace w' = trace w ++ log_events o (deref w' r))
  /\ (forall d0 u w0,
        let t0 := clock E (tick w0) in
        let record := chat_record u (server_id w0) (text_of d0) t0 in
        let packet :=
          relay_packet (JStr u) (JStr (server_id w0)) (text_of d0) (JNum t0) in
        let n2 := S (tick w0) + List.length (clients w0) in
        let n3 := n2 + List.length (peer_sockets w0) in
        let w1 := snd (chat E (JDict d0) u w0) in
        (exists o,
            trace w1 =
            trace w0 ++ attempts E record (S (tick w0)) (clients w0)
            ++ peer_attempts E packet n2 (peer_sockets w0)
            ++ log_events o (with_logged_at record (clock E n3)))
        /\ deref w1 (List.length (heap w0)) = with_logged_at record (clock E n3)
        /\ get record (py "logged_at") = Ok JNull
        /\ get (with_logged_at record (clock E n3)) (py "logged_at")
           = Ok (JNum (clock E n3))).
Proof.
  intros now w'.
  assert (Hlt : r < List.length (heap w)).
  { apply nth_error_Some. rewrite Hr. discriminate. }
  destruct (log_full r d w Hr) as (_ & Ht & Hh & _).
  fold w' in Ht, Hh. fold now in Ht, Hh.
  assert (Hd : deref w' r =
               JDict (dict_set str_eqb (py "logged_at") (JNum now) d)).
  { unfold deref. rewrite Hh. apply heap_update_same. exact Hlt. }
  split; [unfold deref; apply nth_error_nth; exact Hr|].
  split; [exact Hd|].
  split; [intros k Hk; apply dict_get_set_other; exact Hk|].
  split; [intros r' Hne; unfold deref; rewrite Hh;
          apply heap_update_other; assumption|].
  split.
  - eexists. rewrite Hd. exact Ht.
  - intros d0 u w0 t0 record packet n2 n3 w1.
    destruct (chat_full d0 u w0) as (_ & Ht1 & Hh1 & _).
    fold w1 in Ht1, Hh1. split; [eexists; exact Ht1|].
    split; [|split; reflexivity].
    unfold deref. rewrite Hh1, app_nth2, Nat.sub_diag by lia. reflexivity.
Qed.
End LogClaims.

Lemma log_failure_ends_session_witness :
  let w1 := snd (first_loop_body one_log_failure_env 2
                   (obj_of (login_fields "bob")) None node_A_alice) in
  let w2 := snd (chat one_log_failure_env (obj_of (msg_fields "hi")) (py "bob")
                   w1) in
  handle_client one_log_failure_env 2 (Some (obj_of (login_fields "bob")))
    [Recv (line_of (msg_fields "hi")); Recv (line_of (msg_fields "again"));
     Recv (line_of (msg_fields "hi"))]
    node_A_alice
  = client_cleanup one_log_failure_env 2 (Some (py "bob"))
      (snd (chat one_log_failure_env (obj_of (msg_fields "again")) (py "bob")
              w2)).
Proof.
  intros w1 w2.
  refine (proj2 (proj1 (proj2 (proj2 (proj2
            (log_failure_ends_session one_log_failure_env))))
            2 (Some (obj_of (login_fields "bob")))
            [Recv (line_of (msg_fields "hi")); Recv (line_of (msg_fields "again"));
             Recv (line_of (msg_fields "hi"))]
            node_A_alice
            [Recv (line_of (msg_fields "hi")); Recv (line_of (msg_fields "again"));
             Recv (line_of (msg_fields "hi"))]
            (Some (py "bob")) w1 1
            (map (fun kv => (py (fst kv), JStr (py (snd kv))))
                 (msg_fields "again"))
            (py "bob") w2
            [Recv (line_of (msg_fields "hi"))]
            (recv_json_lines one_log_failure_env
               [Recv (line_of (msg_fields "hi"))])
            eq_refl (fun H => @nil_cons char _ _ (eq_sym H)) _ _ _)).
  - vm_compute. reflexivity.
  - vm_compute. reflexivity.
  - vm_compute. reflexivity.
Defined.

(** C6, as stated, fails: with a log file that cannot be written, [bob] logs
    in and sends two messages; the first is delivered, the append fails, the
    session is cleaned up and the second message is never delivered. *)
Lemma log_failure_stops_delivery :
  let w' :=
    route_connection broken_log_env 2
      [Recv (line_of (login_fields "bob")); Recv (line_of (msg_fields "hi"));
       Recv (line_of (msg_fields "again"))]
      node_A_alice in
  let record := chat_record (py "bob") (py "A") (JStr (py "hi")) 3 in
  trace w' =
    trace node_A_alice
    ++ [Send 2 (system_msg (welcome_text (py "bob") (py "A"))) true;
        Send 1 (system_msg (joined_text (py "bob"))) true;
        Send 1 record true;
        Send 2 record true;
        LogFailed;
        Send 1 (system_msg (left_text (py "bob"))) true;
        Close 2]
  /\ (forall s p ok,
        In (Send s p ok) (trace w') ->
        get p (py "text") <> Ok (JStr (py "again"))).
Proof.
  vm_compute. split; [reflexivity|].
  intros s p ok H.
  repeat (destruct H as [H|H];
          [try discriminate H; injection H as <- <- <-; vm_compute; discriminate|]).
  destruct H.
Qed.

Lemma log_mutates_record_in_place_witness :
  deref (snd (log fair_env 0
                (snd (alloc (chat_record (py "alice") (py "A") (JStr (py "hi")) 1)
                        node_A)))) 0
  = with_logged_at (chat_record (py "alice") (py "A") (JStr (py "hi")) 1) 0.
Proof.
  apply (proj1 (proj2
           (log_mutates_record_in_place fair_env 0 _
              (snd (alloc (chat_record (py "alice") (py "A") (JStr (py "hi")) 1)
                      node_A))
              eq_refl))).
Defined.

(** C9, as stated, fails: the record of a [msg] is sent to [alice] as it was
    built, and after the log append the same object holds one more key. *)
Lemma log_changes_sent_record :
  let w' := snd (chat fair_env (obj_of (msg_fields "hi")) (py "alice")
                   node_A_alice) in
  let record := chat_record (py "alice") (py "A") (JStr (py "hi")) 1 in
  heap node_A_alice = []
  /\ In (Send 1 record true) (trace w')
  /\ deref w' 0 = with_logged_at record 3
  /\ deref w' 0 <> record.
Proof.
  vm_compute. split; [reflexivity|]. split; [right; left; reflexivity|].
  split; [reflexivity | discriminate].
Qed.

(** ** The peer connector *)

Section ConnectorClaims.
Variable E : env.

Lemma connect_attempt_fails pid phost pport w :
  connect_ok E (tick w) = false ->
  connect_attempt E pid phost pport w =
  (false,
   emit_events (with_fresh w) [Connect (fresh w) phost pport false; Sleep 2]).
Proof.
  intros H. unfold connect_attempt. simpl tick. rewrite H. reflexivity.
Qed.

Lemma connect_attempt_succeeds pid phost pport w :
  connect_ok E (tick w) = true ->
  send_ok E (S (tick w)) (fresh w) = true ->
  hashable pid = true ->
  connect_attempt E pid phost pport w =
  (true,
   emit_event
     (with_peer_sockets
        (emit_events (with_fresh w)
           [Connect (fresh w) phost pport true;
            Send (fresh w) (hello_msg (server_id w)) true])
        (dict_set py_eqb pid (fresh w) (peer_sockets w)))
     (Spawn (HandlePeer pid (fresh w)))).
Proof.
  intros Hc Hs Hh. unfold connect_attempt. simpl tick. rewrite Hc.
  rewrite send_json_fst. simpl tick. rewrite Hs, Hh. reflexivity.
Qed.

(** While the peer cannot be reached the connector keeps trying. *)
Lemma peer_connector_unreachable pid phost pport turns :
  forall w,
    (forall i, i < turns -> connect_ok E (tick w + 2 * i) = false) ->
    peer_connector E turns pid phost pport w =
    (false,
     {| server_id := server_id w; clients := clients w;
        peer_sockets := peer_sockets w; seen := seen w; heap := heap w;
        logfile := logfile w;
        trace := trace w ++ failed_turns turns (fresh w) phost pport;
        tick := tick w + 2 * turns;
        fresh := fresh w + turns |}).
Proof.
  induction turns as [|n IH]; intros w H.
  - simpl. rewrite app_nil_r, !Nat.add_0_r. destruct w; reflexivity.
  - cbn [peer_connector].
    rewrite connect_attempt_fails
      by (specialize (H 0 (Nat.lt_0_succ n)); rewrite Nat.add_0_r in H; exact H).
    rewrite IH.
    + unfold emit_events. simpl. f_equal.
      f_equal; [rewrite <- !app_assoc; reflexivity | lia | lia].
    + intros i Hi. simpl tick. specialize (H (S i) (proj1 (Nat.succ_lt_mono i n) Hi)).
      rewrite <- H. f_equal. lia.
Qed.

Lemma peer_connector_step pid phost pport n w :
  peer_connector E (S n) pid phost pport w =
  match connect_attempt E pid phost pport w with
  | (true, w') => (true, w')
  | (false, w') => peer_connector E n pid phost pport w'
  end.
Proof. reflexivity. Qed.

Lemma peer_connector_app pid phost pport k m :
  forall w,
    fst (peer_connector E k pid phost pport w) = false ->
    peer_connector E (k + m) pid phost pport w =
    peer_connector E m pid phost pport (snd (peer_connector E k pid phost pport w)).
Proof.
  induction k as [|k IH]; intros w H; [reflexivity|].
  simpl Nat.add. rewrite !peer_connector_step in *.
  destruct (connect_attempt E pid phost pport w) as [[|] w']; simpl in *;
    [discriminate | apply IH; exact H].
Qed.

Lemma log_peer_sockets r w : peer_sockets (snd (log E r w)) = peer_sockets w.
Proof.
  unfold log, time_time, setitem. cbv beta iota zeta.
  change (heap (with_tick w)) with (heap w).
  destruct (nth_error (heap w) r) as [[]|]; try reflexivity.
  destruct (log_result E _); reflexivity.
Qed.

Lemma peer_loop_body_peer_sockets msg w :
  peer_sockets (snd (peer_loop_body E msg w)) = peer_sockets w.
Proof.
  unfold peer_loop_body.
  destruct (get msg (py "type")) as [t|]; [|reflexivity].
  destruct (negb (is_str t (py "relay_msg"))); [reflexivity|].
  destruct (get msg (py "origin_server")) as [o|]; [|reflexivity].
  destruct (get msg (py "timestamp")) as [ts|]; [|reflexivity].
  destruct (get msg (py "from")) as [f|]; [|reflexivity].
  destruct (get msg (py "text")) as [tx|]; [|reflexivity].
  unfold should_process.
  destruct (key_hashable (o, ts, f, tx)); [|reflexivity].
  destruct (set_mem (o, ts, f, tx) (seen w)); [reflexivity|].
  destruct (getitem msg (py "from")) as [f'|]; [|reflexivity].
  destruct (getitem msg (py "origin_server")) as [o'|]; [|reflexivity].
  destruct (getitem msg (py "text")) as [tx'|]; [|reflexivity].
  destruct (getitem msg (py "timestamp")) as [ts'|]; [|reflexivity].
  unfold alloc. cbv beta iota zeta.
  set (w2 := with_heap _ _). set (r := List.length _).
  destruct (broadcast_local_fields E (deref w2 r) None w2) as (_ & _ & _ & Hp & _).
  pose proof (log_peer_sockets r (broadcast_local E (deref w2 r) None w2)) as Hl.
  destruct (log E r (broadcast_local E (deref w2 r) None w2)) as [[[]|] w4];
    simpl in Hl |- *; rewrite Hl, Hp; reflexivity.
Qed.

Lemma peer_loop_peer_sockets msgs :
  forall w, peer_sockets (peer_loop E msgs w) = peer_sockets w.
Proof.
  induction msgs as [m unread next IH|unread|]; intros w; simpl; try reflexivity.
  pose proof (peer_loop_body_peer_sockets m w) as H.
  destruct (peer_loop_body E m w) as [[| |] w']; simpl in H; try exact H.
  rewrite IH. exact H.
Qed.

(** The handler of a link that drops: deliveries, then the link leaves the
    table and the socket is closed. *)
Lemma handle_peer_drop pid psock rx w :
  hashable pid = true ->
  let w' := snd (handle_peer E pid psock rx w) in
  peer_sockets w' = dict_pop py_eqb pid (peer_sockets w)
  /\ exists es, trace w' = trace w ++ es ++ [Close psock] /\ Forall delivery es.
Proof.
  intros Hh w'. subst w'. unfold handle_peer. rewrite Hh. simpl.
  rewrite peer_loop_peer_sockets. split; [reflexivity|].
  destruct (peer_loop_evolves E (recv_json_lines E rx) w) as ((es & He & HP) & _).
  exists es. rewrite He, <- app_assoc. split; [reflexivity | exact HP].
Qed.

Lemma delivery_not_connect es :
  Forall delivery es -> existsb is_connect es = false.
Proof.
  induction 1 as [|e es He _ IH]; simpl; [reflexivity|].
  destruct e; simpl in He; try contradiction; exact IH.
Qed.

(** A turn that fails, in any of the three ways: its events, the sleep
    last, and nothing else changes but the socket counter. *)
Lemma connect_attempt_turn_fails pid phost pport w f :
  turn_fails E pid (tick w) (fresh w) f = true ->
  connect_attempt E pid phost pport w =
  (false,
   emit_events (with_fresh w)
     (failed_turn_events (server_id w) phost pport (fresh w) f)).
Proof.
  intros H. unfold connect_attempt. simpl tick. destruct f; simpl in H.
  - apply negb_true_iff in H. rewrite H. reflexivity.
  - apply andb_true_iff in H. destruct H as [Hc Hs].
    apply negb_true_iff in Hs. rewrite Hc. rewrite send_json_fst. simpl tick.
    rewrite Hs. reflexivity.
  - apply andb_true_iff in H. destruct H as [H Hh].
    apply andb_true_iff in H. destruct H as [Hc Hs].
    apply negb_true_iff in Hh. rewrite Hc. rewrite send_json_fst. simpl tick.
    rewrite Hs, Hh. reflexivity.
Qed.

(** A turn returns or fails in one of the three ways. *)
Lemma connect_attempt_cases pid phost pport w :
  fst (connect_attempt E pid phost pport w) = false <->
  exists f, turn_fails E pid (tick w) (fresh w) f = true.
Proof.
  split.
  - intros H. unfold connect_attempt in H. simpl tick in H.
    destruct (connect_ok E (tick w)) eqn:Hc;
      [|exists ConnectFails; simpl; rewrite Hc; reflexivity].
    rewrite send_json_fst in H. simpl tick in H.
    destruct (send_ok E (S (tick w)) (fresh w)) eqn:Hs;
      [|exists HelloFails; simpl; rewrite Hc, Hs; reflexivity].
    destruct (hashable pid) eqn:Hh; [discriminate H|].
    exists EntryFails. simpl. rewrite Hc, Hs, Hh. reflexivity.
  - intros (f & Hf).
    rewrite (connect_attempt_turn_fails pid phost pport w f Hf). reflexivity.
Qed.

Lemma peer_connector_failed_run pid phost pport fs :
  forall w,
    turns_fail E pid fs (tick w) (fresh w) = true ->
    let r := peer_connector E (List.length fs) pid phost pport w in
    fst r = false
    /\ trace (snd r) =
         trace w ++ failed_run (server_id w) phost pport (fresh w) fs
    /\ peer_sockets (snd r) = peer_sockets w
    /\ tick (snd r) = tick w + run_cost fs
    /\ fresh (snd r) = fresh w + List.length fs
    /\ server_id (snd r) = server_id w.
Proof.
  induction fs as [|f fs IH]; intros w H; cbn [List.length peer_connector].
  - simpl. rewrite app_nil_r, !Nat.add_0_r. repeat split; reflexivity.
  - simpl in H. apply andb_true_iff in H. destruct H as [Hf Hfs].
    rewrite (connect_attempt_turn_fails pid phost pport w f Hf).
    set (w1 := emit_events (with_fresh w)
                 (failed_turn_events (server_id w) phost pport (fresh w) f)).
    assert (Hw1 : trace w1 =
                    trace w ++ failed_turn_events (server_id w) phost pport
                                 (fresh w) f
                  /\ tick w1 = tick w + turn_cost f
                  /\ fresh w1 = S (fresh w)
                  /\ peer_sockets w1 = peer_sockets w
                  /\ server_id w1 = server_id w).
    { unfold w1. destruct f; simpl; rewrite <- ?app_assoc;
        repeat split; try reflexivity; lia. }
    destruct Hw1 as (Ht1 & Hk1 & Hf1 & Hp1 & Hs1).
    rewrite <- Hk1, <- Hf1 in Hfs.
    destruct (IH w1 Hfs) as (H1 & H2 & H3 & H4 & H5 & H6).
    cbv zeta. rewrite H1, H2, H3, H4, H5, H6, Ht1, Hk1, Hf1, Hp1, Hs1.
    simpl. rewrite <- app_assoc. repeat split; try reflexivity; lia.
Qed.

(** C8, as the code has it: a turn of the connector returns, or it fails
    in one of three ways (the connect, the hello send, the entry in the
    table) and ends with a sleep of 2; a connector whose turns fail, for
    whichever of these reasons, keeps trying on a new socket for as many
    turns as one looks at; it goes on where it was when given more turns; at
    the first turn whose connect and handshake succeed it sends [hello],
    registers the link, starts the handler and returns. When the link later
    drops, the handler removes the link from the table and closes the socket:
    it connects to nothing and starts nothing, so the node does not try that
    peer again. *)
Theorem connector_retries_until_connected pid phost pport :
  (forall turns w,
      (forall i, i < turns -> connect_ok E (tick w + 2 * i) = false) ->
      let r := peer_connector E turns pid phost pport w in
      fst r = false
      /\ trace (snd r) = trace w ++ failed_turns turns (fresh w) phost pport
      /\ peer_sockets (snd r) = peer_sockets w)
  /\ (forall k m w,
        fst (peer_connector E k pid phost pport w) = false ->
        peer_connector E (k + m) pid phost pport w =
        peer_connector E m pid phost pport
          (snd (peer_connector E k pid phost pport w)))
  /\ (forall k m w,
        (forall i, i < k -> connect_ok E (tick w + 2 * i) = false) ->
        connect_ok E (tick w + 2 * k) = true ->
        send_ok E (S (tick w + 2 * k)) (fresh w + k) = true ->
        hashable pid = true ->
        let r := peer_connector E (k + S m) pid phost pport w in
        fst r = true
        /\ trace (snd r) =
             trace w ++ failed_turns k (fresh w) phost pport
             ++ [Connect (fresh w + k) phost pport true;
                 Send (fresh w + k) (hello_msg (server_id w)) true;
                 Spawn (HandlePeer pid (fresh w + k))]
        /\ peer_sockets (snd r) =
             dict_set py_eqb pid (fresh w + k) (peer_sockets w))
  /\ (forall psock rx w,
        hashable pid = true ->
        let w' := snd (handle_peer E pid psock rx w) in
        peer_sockets w' = dict_pop py_eqb pid (peer_sockets w)
        /\ exists es,
             trace w' = trace w ++ es ++ [Close psock]
             /\ Forall delivery es
             /\ existsb is_connect (es ++ [Close psock]) = false)
  /\ (forall w,
        (fst (connect_attempt E pid phost pport w) = false <->
         exists f, turn_fails E pid (tick w) (fresh w) f = true)
        /\ forall f,
             turn_fails E pid (tick w) (fresh w) f = true ->
             connect_attempt E pid phost pport w =
             (false,
              emit_events (with_fresh w)
                (failed_turn_events (server_id w) phost pport (fresh w) f))
             /\ last (failed_turn_events (server_id w) phost pport (fresh w) f)
                     (Sleep 0) = Sleep 2)
  /\ (forall fs w,
        turns_fail E pid fs (tick w) (fresh w) = true ->
        let r := peer_connector E (List.length fs) pid phost pport w in
        fst r = false
        /\ trace (snd r) =
             trace w ++ failed_run (server_id w) phost pport (fresh w) fs
        /\ peer_sockets (snd r) = peer_sockets w)
  /\ (forall fs m w,
        turns_fail E pid fs (tick w) (fresh w) = true ->
        connect_ok E (tick w + run_cost fs) = true ->
        send_ok E (S (tick w + run_cost fs)) (fresh w + List.length fs) = true ->
        hashable pid = true ->
        let r := peer_connector E (List.length fs + S m) pid phost pport w in
        fst r = true
        /\ trace (snd r) =
             trace w ++ failed_run (server_id w) phost pport (fresh w) fs
             ++ [Connect (fresh w + List.length fs) phost pport true;
                 Send (fresh w + List.length fs) (hello_msg (server_id w)) true;
                 Spawn (HandlePeer pid (fresh w + List.length fs))]
        /\ peer_sockets (snd r) =
             dict_set py_eqb pid (fresh w + List.length fs) (peer_sockets w)).
Proof.
  split; [|split; [|split; [|split; [|split; [|split]]]]].
  - intros turns w H r. subst r.
    rewrite (peer_connector_unreachable pid phost pport turns w H).
    repeat split.
  - intros k m w H. apply peer_connector_app. exact H.
  - intros k m w Hfail Hc Hs Hh r. subst r.
    pose proof (peer_connector_unreachable pid phost pport k w Hfail) as Hk.
    rewrite peer_connector_app by (rewrite Hk; reflexivity).
    rewrite Hk. cbn [snd]. rewrite peer_connector_step.
    rewrite connect_attempt_succeeds by assumption.
    simpl. rewrite <- !app_assoc. repeat split.
  - intros psock rx w Hh w'.
    destruct (handle_peer_drop pid psock rx w Hh) as (Hp & es & He & HP).
    split; [exact Hp|]. exists es. split; [exact He | split; [exact HP|]].
    rewrite existsb_app, (delivery_not_connect es HP). reflexivity.
  - intros w. split; [apply connect_attempt_cases|].
    intros f Hf. split; [apply connect_attempt_turn_fails; exact Hf|].
    destruct f; reflexivity.
  - intros fs w H r. subst r.
    destruct (peer_connector_failed_run pid phost pport fs w H)
      as (H1 & H2 & H3 & _).
    refine (conj H1 (conj H2 H3)).
  - intros fs m w H Hc Hs Hh r. subst r.
    destruct (peer_connector_failed_run pid phost pport fs w H)
      as (H1 & H2 & H3 & H4 & H5 & H6).
    rewrite peer_connector_app by exact H1.
    set (w1 := snd (peer_connector E (List.length fs) pid phost pport w)) in *.
    rewrite peer_connector_step.
    rewrite connect_attempt_succeeds
      by (rewrite ?H4, ?H5; assumption).
    simpl. rewrite H2, H3, H5, H6, <- !app_assoc. repeat split.
Qed.
End ConnectorClaims.

(** C8, as stated, fails: node A connects to peer B at once, the link ends,
    and the two threads the node had for B have returned: the link is gone
    from the table and no connect follows the close. *)
Lemma dropped_link_is_not_retried :
  let B := JStr (py "B") in
  let w' := peer_threads fair_env 5 B (JStr (py "127.0.0.1")) (JNum 5002) [] node_A in
  trace w' =
    [Connect 0 (JStr (py "127.0.0.1")) (JNum 5002) true;
     Send 0 (hello_msg (py "A")) true;
     Spawn (HandlePeer B 0);
     Close 0]
  /\ peer_sockets w' = []
  /\ peer_connector fair_env 5 B (JStr (py "127.0.0.1")) (JNum 5002) node_A
     = peer_connector fair_env 1 B (JStr (py "127.0.0.1")) (JNum 5002) node_A.
Proof. vm_compute. repeat split; reflexivity. Qed.

Lemma connector_retries_until_connected_witness :
  let B := JStr (py "B") in
  let host := JStr (py "127.0.0.1") in
  let r := peer_connector flaky_peer_env 5 B host (JNum 5002) node_A in
  fst r = true
  /\ trace (snd r) =
       [Connect 0 host (JNum 5002) true; Send 0 (hello_msg (py "A")) false;
        Sleep 2;
        Connect 1 host (JNum 5002) false; Sleep 2;
        Connect 2 host (JNum 5002) true;
        Send 2 (hello_msg (py "A")) true;
        Spawn (HandlePeer B 2)]
  /\ peer_sockets (snd r) = [(B, 2)].
Proof.
  intros B host r.
  exact (proj2 (proj2 (proj2 (proj2 (proj2 (proj2
           (connector_retries_until_connected flaky_peer_env B host
              (JNum 5002)))))))
           [HelloFails; ConnectFails] 2 node_A eq_refl eq_refl eq_refl eq_refl).
Defined.

(** * Further properties *)

(** ** The wire codec *)

Section WireFacts.
Variable E : env.

Lemma split_lines_push x : forall acc b,
  no_newline x -> split_lines acc (x ++ b) = split_lines (rev x ++ acc) b.
Proof.
  induction x as [|c x IH]; intros acc b H; [reflexivity|].
  inversion H as [|? ? Hc Hx]; subst. simpl.
  apply N.eqb_neq in Hc. rewrite Hc. rewrite IH by exact Hx.
  rewrite <- app_assoc. reflexivity.
Qed.

Lemma split_lines_no_newline x acc :
  no_newline x -> split_lines acc x = ([], rev acc ++ x).
Proof.
  intros H. rewrite <- (app_nil_r x) at 1. rewrite split_lines_push by exact H.
  simpl. rewrite rev_app_distr, rev_involutive. reflexivity.
Qed.

Lemma split_lines_left a : forall cur,
  no_newline cur -> no_newline (snd (split_lines cur a)).
Proof.
  induction a as [|c a IH]; intros cur H; simpl.
  - apply Forall_rev. exact H.
  - destruct (N.eqb c newline) eqn:Hc.
    + specialize (IH [] (Forall_nil _)).
      destruct (split_lines [] a) as [ls left]. exact IH.
    + apply IH. constructor; [apply N.eqb_neq; exact Hc | exact H].
Qed.

(** Splitting a text in two pieces: the lines of the first piece, then the
    lines of what it left followed by the second piece. *)
Lemma split_lines_app a b : forall cur,
  no_newline cur ->
  split_lines cur (a ++ b) =
  (fst (split_lines cur a)
   ++ fst (split_lines [] (snd (split_lines cur a) ++ b)),
   snd (split_lines [] (snd (split_lines cur a) ++ b))).
Proof.
  induction a as [|c a IH]; intros cur H.
  - simpl. rewrite split_lines_push by (apply Forall_rev; exact H).
    rewrite rev_involutive, app_nil_r.
    destruct (split_lines cur b); reflexivity.
  - simpl. destruct (N.eqb c newline) eqn:Hc.
    + rewrite (IH [] (Forall_nil _)).
      destruct (split_lines [] a) as [ls left]. simpl.
      destruct (strip (rev cur)); reflexivity.
    + apply IH. constructor; [apply N.eqb_neq; exact Hc | exact H].
Qed.

Lemma loads_all_app ls ls' :
  loads_all E (ls ++ ls') =
  (if snd (loads_all E ls) then loads_all E ls
   else (fst (loads_all E ls) ++ fst (loads_all E ls'), snd (loads_all E ls'))).
Proof.
  induction ls as [|l ls IH]; simpl.
  - destruct (loads_all E ls'); reflexivity.
  - destruct (json_loads E l); [|reflexivity].
    rewrite IH. destruct (loads_all E ls) as [ms [|]]; simpl; [reflexivity|].
    destruct (loads_all E ls'); reflexivity.
Qed.

Lemma yield_lines_outcome ls unread k :
  yielded (yield_lines E ls unread k) =
    (if snd (loads_all E ls) then fst (loads_all E ls)
     else fst (loads_all E ls) ++ yielded k)
  /\ raises (yield_lines E ls unread k) =
       (if snd (loads_all E ls) then true else raises k).
Proof.
  induction ls as [|l ls IH]; simpl; [split; reflexivity|].
  destruct (json_loads E l); [|split; reflexivity]. simpl.
  destruct IH as [Hy Hr]. rewrite Hy, Hr.
  destruct (loads_all E ls) as [ms [|]]; split; reflexivity.
Qed.

(** What a generator yields is what [json.loads] makes of the lines of the
    whole text received, however the text came in chunks. *)
Lemma recv_loop_outcome ds : forall buffer,
  no_newline buffer -> Forall (fun d => d <> []) ds ->
  (yielded (recv_loop E buffer (map Recv ds)),
   raises (recv_loop E buffer (map Recv ds))) =
  loads_all E (fst (split_lines [] (buffer ++ List.concat ds))).
Proof.
  induction ds as [|d ds IH]; intros buffer Hb Hds.
  - simpl. rewrite app_nil_r, split_lines_no_newline by exact Hb. reflexivity.
  - inversion Hds as [|? ? Hd Hds']; subst.
    destruct d as [|c d]; [congruence|].
    cbn [map recv_loop List.concat].
    rewrite (app_assoc buffer (c :: d) (List.concat ds)).
    rewrite (split_lines_app (buffer ++ c :: d) (List.concat ds) [] (Forall_nil _)).
    pose proof (split_lines_left (buffer ++ c :: d) [] (Forall_nil _)) as Hleft.
    destruct (split_lines [] (buffer ++ c :: d)) as [ls left]. simpl in Hleft |- *.
    destruct (yield_lines_outcome ls (map Recv ds)
                (recv_loop E left (map Recv ds))) as [Hy Hr].
    rewrite Hy, Hr, loads_all_app.
    rewrite <- (IH left Hleft Hds').
    destruct (loads_all E ls) as [ms [|]]; reflexivity.
Qed.

Lemma recv_json_lines_outcome ds :
  Forall (fun d => d <> []) ds ->
  yielded (recv_json_lines E (map Recv ds))
  = fst (loads_all E (fst (split_lines [] (List.concat ds))))
  /\ raises (recv_json_lines E (map Recv ds))
     = snd (loads_all E (fst (split_lines [] (List.concat ds)))).
Proof.
  intros Hds. unfold recv_json_lines.
  pose proof (recv_loop_outcome ds [] (Forall_nil _) Hds) as H.
  simpl app in H. rewrite <- H. split; reflexivity.
Qed.

(** A chunk that does not decode on its own ends the generator by an
    exception, after the messages of the chunks before it. *)
Lemma recv_loop_undecodable ds rest : forall buffer,
  Forall (fun d => d <> []) ds ->
  yielded (recv_loop E buffer (map Recv ds ++ RecvUndecodable :: rest))
  = yielded (recv_loop E buffer (map Recv ds))
  /\ raises (recv_loop E buffer (map Recv ds ++ RecvUndecodable :: rest)) = true.
Proof.
  induction ds as [|d ds IH]; intros buffer Hds.
  - simpl. split; reflexivity.
  - inversion Hds as [|? ? Hd Hds']; subst.
    destruct d as [|c d]; [congruence|].
    cbn [map app recv_loop].
    destruct (split_lines [] (buffer ++ c :: d)) as [ls left].
    destruct (yield_lines_outcome ls (map Recv ds ++ RecvUndecodable :: rest)
                (recv_loop E left (map Recv ds ++ RecvUndecodable :: rest)))
      as [Hy Hr].
    destruct (yield_lines_outcome ls (map Recv ds)
                (recv_loop E left (map Recv ds))) as [Hy' Hr'].
    destruct (IH left Hds') as [IHy IHr].
    rewrite Hy, Hr, Hy', IHy, IHr.
    destruct (snd (loads_all E ls)); split; reflexivity.
Qed.

(** X1: among chunks that each decode on their own (the cuts fall between
    characters), the messages a connection yields, and whether decoding
    raises, depend on the text received and not on how [recv] cut it into
    chunks. Each chunk is decoded alone (line 30): a chunk that does not
    decode, as when a cut falls inside a multi-byte character, makes the
    generator raise, after the messages of the chunks before it. *)
Theorem chunking_does_not_matter ds ds' :
  Forall (fun d => d <> []) ds -> Forall (fun d => d <> []) ds' ->
  List.concat ds = List.concat ds' ->
  yielded (recv_json_lines E (map Recv ds))
  = yielded (recv_json_lines E (map Recv ds'))
  /\ raises (recv_json_lines E (map Recv ds))
     = raises (recv_json_lines E (map Recv ds'))
  /\ forall rest,
       yielded (recv_json_lines E (map Recv ds ++ RecvUndecodable :: rest))
       = yielded (recv_json_lines E (map Recv ds))
       /\ raises (recv_json_lines E (map Recv ds ++ RecvUndecodable :: rest))
          = true.
Proof.
  intros Hds Hds' Heq.
  split; [|split].
  - destruct (recv_json_lines_outcome ds Hds) as [-> _].
    destruct (recv_json_lines_outcome ds' Hds') as [-> _].
    rewrite Heq. reflexivity.
  - destruct (recv_json_lines_outcome ds Hds) as [_ ->].
    destruct (recv_json_lines_outcome ds' Hds') as [_ ->].
    rewrite Heq. reflexivity.
  - intros rest. apply recv_loop_undecodable. exact Hds.
Qed.

Lemma split_lines_framed l rest :
  framed l ->
  split_lines [] (l ++ newline :: rest) =
  (l :: fst (split_lines [] rest), snd (split_lines [] rest)).
Proof.
  intros (Hnl & Hne & Hs). rewrite split_lines_push by exact Hnl.
  rewrite app_nil_r. simpl. rewrite rev_involutive, Hs.
  destruct (split_lines [] rest) as [ls left].
  destruct l; [congruence | reflexivity].
Qed.

Lemma split_lines_frame ls :
  Forall framed ls -> split_lines [] (frame ls) = (ls, []).
Proof.
  induction 1 as [|l ls Hl _ IH]; [reflexivity|].
  unfold frame in *. simpl. rewrite <- app_assoc. simpl.
  rewrite (split_lines_framed l _ Hl), IH. reflexivity.
Qed.

(** X2: lines written as [send_json] frames them come out as they went in:
    however the text is cut between characters into chunks (each chunk then
    decodes on its own), the generator hands exactly these lines to
    [json.loads], in order, up to the first that does not parse. *)
Theorem framed_lines_round_trip ls ds :
  Forall framed ls ->
  Forall (fun d => d <> []) ds -> List.concat ds = frame ls ->
  yielded (recv_json_lines E (map Recv ds)) = fst (loads_all E ls)
  /\ raises (recv_json_lines E (map Recv ds)) = snd (loads_all E ls).
Proof.
  intros Hls Hds Heq.
  destruct (recv_json_lines_outcome ds Hds) as [-> ->].
  rewrite Heq, (split_lines_frame ls Hls). split; reflexivity.
Qed.

(** X3: what follows the last newline is never decoded: a last chunk with
    no newline in it adds no message and no error before the stream ends. *)
Theorem unterminated_tail_is_dropped ds tail :
  Forall (fun d => d <> []) ds -> tail <> [] -> no_newline tail ->
  yielded (recv_json_lines E (map Recv (ds ++ [tail])))
  = yielded (recv_json_lines E (map Recv ds))
  /\ raises (recv_json_lines E (map Recv (ds ++ [tail])))
     = raises (recv_json_lines E (map Recv ds)).
Proof.
  intros Hds Ht Hnl.
  assert (Hds' : Forall (fun d => d <> []) (ds ++ [tail])).
  { apply Forall_app. split; [exact Hds | constructor; [exact Ht | constructor]]. }
  destruct (recv_json_lines_outcome ds Hds) as [-> ->].
  destruct (recv_json_lines_outcome (ds ++ [tail]) Hds') as [-> ->].
  rewrite concat_app. simpl. rewrite app_nil_r.
  rewrite (split_lines_app (List.concat ds) tail [] (Forall_nil _)).
  pose proof (split_lines_left (List.concat ds) [] (Forall_nil _)) as Hleft.
  destruct (split_lines [] (List.concat ds)) as [ls left]. simpl in Hleft |- *.
  rewrite split_lines_no_newline
    by (apply Forall_app; split; assumption).
  simpl. rewrite app_nil_r. split; reflexivity.
Qed.

Lemma lstrip_blank s : blank s -> lstrip s = [].
Proof.
  induction 1 as [|c s Hc _ IH]; simpl; [reflexivity|]. rewrite Hc. exact IH.
Qed.

Lemma strip_blank s : blank s -> strip s = [].
Proof. intros H. unfold strip. rewrite (lstrip_blank s H). reflexivity. Qed.

Lemma split_lines_blank s : forall cur,
  blank cur -> blank s -> fst (split_lines cur s) = [].
Proof.
  induction s as [|c s IH]; intros cur Hcur Hs; [reflexivity|].
  inversion Hs as [|? ? Hc Hs']; subst. simpl.
  destruct (N.eqb c newline).
  - rewrite (strip_blank (rev cur)) by (apply Forall_rev; exact Hcur).
    specialize (IH [] (Forall_nil _) Hs').
    destruct (split_lines [] s) as [ls left]. exact IH.
  - apply IH; [constructor; assumption | exact Hs'].
Qed.

(** X4: blank lines are skipped: a connection that sends white space only,
    newlines included, yields no message and [json.loads] is never called,
    so nothing raises. *)
Theorem blank_input_yields_nothing ds :
  Forall (fun d => d <> []) ds -> Forall blank ds ->
  yielded (recv_json_lines E (map Recv ds)) = []
  /\ raises (recv_json_lines E (map Recv ds)) = false.
Proof.
  intros Hds Hb.
  destruct (recv_json_lines_outcome ds Hds) as [-> ->].
  rewrite split_lines_blank; [split; reflexivity | constructor |].
  clear Hds. induction Hb as [|d ds Hd _ IH]; simpl; [constructor|].
  apply Forall_app. split; assumption.
Qed.
End WireFacts.

Lemma chunking_does_not_matter_witness :
  yielded (recv_json_lines fair_env
             [Recv (line_of (login_fields "alice") ++ line_of (msg_fields "hi"))])
  = yielded (recv_json_lines fair_env
               [Recv (py "{"); Recv (members (login_fields "alice") ++ py "}");
                Recv ([newline] ++ line_of (msg_fields "hi"))])
  /\ raises (recv_json_lines fair_env
               [Recv (line_of (login_fields "alice")); RecvUndecodable;
                Recv (line_of (msg_fields "hi"))])
     = true.
Proof.
  split.
  - apply (chunking_does_not_matter fair_env
             [line_of (login_fields "alice") ++ line_of (msg_fields "hi")]
             [py "{"; members (login_fields "alice") ++ py "}";
              [newline] ++ line_of (msg_fields "hi")]).
    + repeat constructor; discriminate.
    + repeat constructor; discriminate.
    + reflexivity.
  - refine (proj2 (proj2 (proj2
              (chunking_does_not_matter fair_env
                 [line_of (login_fields "alice")]
                 [line_of (login_fields "alice")] _ _ eq_refl))
              [Recv (line_of (msg_fields "hi"))]));
      repeat constructor; discriminate.
Defined.

Lemma framed_lines_round_trip_witness :
  yielded (recv_json_lines fair_env
             [Recv (line_of (login_fields "alice")); Recv (line_of quit_fields)])
  = [obj_of (login_fields "alice"); obj_of quit_fields].
Proof.
  apply (framed_lines_round_trip fair_env
           [strip (line_of (login_fields "alice")); strip (line_of quit_fields)]
           [line_of (login_fields "alice"); line_of quit_fields]).
  - repeat constructor; try discriminate;
      (apply Forall_forall; intros c Hc Heq; subst c; vm_compute in Hc;
       repeat (destruct Hc as [Hc|Hc]; [discriminate Hc|]); exact Hc).
  - repeat constructor; discriminate.
  - reflexivity.
Defined.

Lemma unterminated_tail_is_dropped_witness :
  yielded (recv_json_lines fair_env
             [Recv (line_of (login_fields "alice"));
              Recv (strip (line_of (msg_fields "hi")))])
  = yielded (recv_json_lines fair_env [Recv (line_of (login_fields "alice"))]).
Proof.
  apply (unterminated_tail_is_dropped fair_env
           [line_of (login_fields "alice")] (strip (line_of (msg_fields "hi")))).
  - repeat constructor; discriminate.
  - discriminate.
  - apply Forall_forall. intros c Hc Heq. subst c. vm_compute in Hc.
    repeat (destruct Hc as [Hc|Hc]; [discriminate Hc|]). exact Hc.
Defined.

Lemma blank_input_yields_nothing_witness :
  yielded (recv_json_lines fair_env [Recv (py "  "); Recv [newline; 9%N; newline]])
  = [].
Proof.
  apply (blank_input_yields_nothing fair_env [py "  "; [newline; 9%N; newline]]).
  - repeat constructor; discriminate.
  - repeat constructor.
Defined.

(** ** Names of the registry and lines of the log *)

Lemma lstrip_idem s : lstrip (lstrip s) = lstrip s.
Proof.
  induction s as [|c s IH]; simpl; [reflexivity|].
  destruct (isspace c) eqn:Hc; [exact IH|]. simpl. rewrite Hc. reflexivity.
Qed.

Lemma lstrip_head s :
  lstrip s = [] \/ exists c r, lstrip s = c :: r /\ isspace c = false.
Proof.
  induction s as [|c s IH]; simpl; [left; reflexivity|].
  destruct (isspace c) eqn:Hc; [exact IH|]. right. exists c, s. auto.
Qed.

Lemma lstrip_snoc y c :
  isspace c = false -> lstrip (y ++ [c]) = lstrip y ++ [c].
Proof.
  intros Hc. induction y as [|a y IH]; simpl.
  - rewrite Hc. reflexivity.
  - destruct (isspace a); [exact IH | reflexivity].
Qed.

(** [strip] leaves nothing to strip. *)
Lemma strip_idem s : strip (strip s) = strip s.
Proof.
  unfold strip at 2 3.
  destruct (lstrip_head s) as [-> | (c & r & -> & Hc)]; [reflexivity|].
  simpl rev. rewrite (lstrip_snoc (rev r) c Hc), rev_app_distr. simpl.
  unfold strip. simpl. rewrite Hc. simpl.
  rewrite rev_involutive, (lstrip_snoc _ c Hc), lstrip_idem, rev_app_distr.
  reflexivity.
Qed.

Lemma dict_get_set_same (key : str) (v : json) (d : list (str * json)) :
  dict_get str_eqb key (dict_set str_eqb key v d) = Some v.
Proof.
  induction d as [|[k' v'] d IH]; simpl.
  - rewrite str_eqb_refl. reflexivity.
  - destruct (str_eqb key k') eqn:Hk; simpl; rewrite Hk; [reflexivity | exact IH].
Qed.

Lemma keeps_refl w : keeps w w.
Proof.
  split; [intros n Hn; left; exact Hn|].
  exists []. rewrite app_nil_r. split; [reflexivity | constructor].
Qed.

Lemma keeps_trans w1 w2 w3 : keeps w1 w2 -> keeps w2 w3 -> keeps w1 w3.
Proof.
  intros [Hn (ls & Hl & Hls)] [Hn' (ls' & Hl' & Hls')]. split.
  - intros n Hin. destruct (Hn' n Hin) as [H|H]; [apply Hn; exact H | right; exact H].
  - exists (ls ++ ls'). rewrite Hl', Hl, app_assoc.
    split; [reflexivity | apply Forall_app; split; assumption].
Qed.

(** A state with the registry and the log of one that [keeps]. *)
Lemma keeps_same w w1 w2 :
  keeps w w1 -> clients w2 = clients w1 -> logfile w2 = logfile w1 ->
  keeps w w2.
Proof. intros H Hc Hl. unfold keeps. rewrite Hc, Hl. exact H. Qed.

Lemma keeps_incl w w' :
  incl (names (clients w')) (names (clients w)) -> logfile w' = logfile w ->
  keeps w w'.
Proof.
  intros Hi Hl. split; [intros n Hn; left; apply Hi; exact Hn|].
  exists []. rewrite app_nil_r. split; [exact Hl | constructor].
Qed.

Section Keeps.
Variable E : env.

Lemma send_json_keeps s obj w : keeps w (snd (send_json E s obj w)).
Proof. apply keeps_incl; [apply incl_refl | reflexivity]. Qed.

Lemma broadcast_local_keeps record exclude w :
  keeps w (broadcast_local E record exclude w).
Proof.
  destruct (broadcast_local_fields E record exclude w)
    as (_ & _ & Hc & _ & _ & _ & Hl & _).
  apply keeps_incl; [|exact Hl]. rewrite Hc. apply remove_dead_names_incl.
Qed.

Lemma forward_to_peers_keeps record w :
  keeps w (snd (forward_to_peers E record w)).
Proof.
  unfold forward_to_peers.
  destruct (getitem record (py "from")); [|apply keeps_refl].
  destruct (getitem record (py "server")); [|apply keeps_refl].
  destruct (getitem record (py "text")); [|apply keeps_refl].
  destruct (getitem record (py "timestamp")); [|apply keeps_refl].
  simpl.
  match goal with
  | |- keeps w (forward_loop E ?items ?packet w) =>
      destruct (forward_loop_fields E packet items w) as (_ & _ & _ & Hc & Hl & _)
  end.
  apply keeps_incl; [rewrite Hc; apply incl_refl | exact Hl].
Qed.

Lemma log_keeps r w : keeps w (snd (log E r w)).
Proof.
  destruct (nth_error (heap w) r) as [[| | | | |d]|] eqn:Hr;
    try (unfold log, time_time, setitem; cbv beta iota zeta;
         change (heap (with_tick w)) with (heap w); rewrite Hr;
         apply keeps_incl; [apply incl_refl | reflexivity]).
  destruct (log_full E r d w Hr) as (_ & _ & _ & Hl & Hc & _).
  split.
  - intros n Hn. left. rewrite <- Hc. exact Hn.
  - eexists. split; [exact Hl|].
    destruct (log_result E (S (tick w))); simpl; repeat constructor;
      (eexists; eexists; split; [reflexivity | apply dict_get_set_same]).
Qed.

Lemma chat_keeps msg u w : keeps w (snd (chat E msg u w)).
Proof.
  unfold chat. destruct (get_default msg (py "text") (JStr [])) as [text|];
    [|apply keeps_refl].
  unfold time_time, alloc. cbv beta iota zeta.
  set (w2 := with_heap (with_tick w) _).
  set (r := List.length (heap (with_tick w))).
  set (w3 := broadcast_local E (deref w2 r) None w2).
  assert (H3 : keeps w w3).
  { apply (keeps_trans w w2 w3); [|apply broadcast_local_keeps].
    apply keeps_incl; [apply incl_refl | reflexivity]. }
  pose proof (forward_to_peers_keeps (deref w3 r) w3) as H4.
  destruct (forward_to_peers E (deref w3 r) w3) as [[[]|] w4]; simpl in H4.
  - pose proof (log_keeps r w4) as H5.
    destruct (log E r w4) as [[[]|] w5]; simpl in H5 |- *;
      exact (keeps_trans _ _ _ H3 (keeps_trans _ _ _ H4 H5)).
  - simpl. exact (keeps_trans _ _ _ H3 H4).
Qed.

Lemma login_keeps csock msg u w : keeps w (snd (login E csock msg u w)).
Proof.
  unfold login.
  destruct (get_default msg (py "username") (JStr [])) as [[| | |name| |]|];
    try apply keeps_refl.
  destruct (strip name) as [|c name'] eqn:Hname.
  - rewrite send_json_fst. destruct (send_ok E (tick w) csock); simpl;
      (apply keeps_incl; [apply incl_refl | reflexivity]).
  - unfold try_register.
    destruct (dict_mem str_eqb (c :: name') (clients w)) eqn:Hmem.
    + rewrite send_json_fst. destruct (send_ok E (tick w) csock); simpl;
        (apply keeps_incl; [apply incl_refl | reflexivity]).
    + apply dict_mem_false_names in Hmem.
      set (w1 := with_clients w _).
      assert (H1 : keeps w w1).
      { split.
        - intros n Hn. unfold w1 in Hn. simpl in Hn.
          rewrite (dict_set_fresh _ csock _ Hmem) in Hn.
          unfold names in Hn. rewrite map_app in Hn. apply in_app_or in Hn.
          destruct Hn as [Hn | [<- | []]]; [left; exact Hn|].
          right. split; [discriminate|]. rewrite <- Hname. apply strip_idem.
        - exists []. rewrite app_nil_r. split; [reflexivity | constructor]. }
      rewrite send_json_fst. destruct (send_ok E (tick w1) csock); simpl.
      * eapply keeps_trans; [exact H1|].
        eapply keeps_trans; [|apply broadcast_local_keeps].
        apply keeps_incl; [apply incl_refl | reflexivity].
      * eapply keeps_trans; [exact H1|].
        apply keeps_incl; [apply incl_refl | reflexivity].
Qed.

Lemma first_loop_body_keeps csock msg u w :
  keeps w (snd (first_loop_body E csock msg u w)).
Proof.
  unfold first_loop_body.
  destruct (get msg (py "type")) as [t|]; [|apply keeps_refl].
  destruct (is_str t (py "login")); [apply login_keeps|].
  assert (Helse :
    keeps w
      (snd (if is_str t (py "quit") then (Break, u, w)
            else match send_json E csock (error_msg (py "invalid request")) w with
                 | (Ok _, w') => (Next, u, w')
                 | (Raise, w') => (Raised, u, w')
                 end))).
  { destruct (is_str t (py "quit")); [apply keeps_refl|].
    rewrite send_json_fst. destruct (send_ok E (tick w) csock); simpl;
      (apply keeps_incl; [apply incl_refl | reflexivity]). }
  destruct (is_str t (py "msg")); [|exact Helse].
  destruct (active u) as [u'|]; [|exact Helse].
  pose proof (chat_keeps msg u' w) as H.
  destruct (chat E msg u' w) as [c w']. exact H.
Qed.

Lemma second_loop_body_keeps msg u w :
  keeps w (snd (second_loop_body E msg u w)).
Proof.
  unfold second_loop_body.
  destruct (get msg (py "type")) as [t|]; [|apply keeps_refl].
  assert (Helse :
    keeps w (snd (if is_str t (py "quit") then (Break, u, w) else (Next, u, w)))).
  { destruct (is_str t (py "quit")); apply keeps_refl. }
  destruct (is_str t (py "msg")); [|exact Helse].
  destruct (active u) as [u'|]; [|exact Helse].
  pose proof (chat_keeps msg u' w) as H.
  destruct (chat E msg u' w) as [c w']. exact H.
Qed.

Lemma for_loop_keeps body msgs :
  (forall m u w, keeps w (snd (body m u w))) ->
  forall u w, keeps w (snd (for_loop body msgs u w)).
Proof.
  intros Hbody. induction msgs as [m unread next IH|unread|]; intros u w; simpl;
    try apply keeps_refl.
  pose proof (Hbody m u w) as H.
  destruct (body m u w) as [[[| |] u'] w']; simpl in *; try exact H.
  eapply keeps_trans; [exact H | apply IH].
Qed.

Lemma client_loops_keeps csock first_msg rx w :
  keeps w (snd (client_loops E csock first_msg rx w)).
Proof.
  unfold client_loops.
  pose proof (for_loop_keeps (first_loop_body E csock)
                (msgs_iter E first_msg rx)
                (first_loop_body_keeps csock) None w) as H1.
  destruct (for_loop (first_loop_body E csock) (msgs_iter E first_msg rx) None w)
    as [[[unread|] u] w1]; simpl in *; [|exact H1].
  pose proof (for_loop_keeps (second_loop_body E)
                (recv_json_lines E unread)
                second_loop_body_keeps u w1) as H2.
  destruct (for_loop (second_loop_body E) (recv_json_lines E unread) u w1)
    as [[e2 u2] w2]; simpl in *.
  eapply keeps_trans; eassumption.
Qed.

Lemma unregister_keeps name w : keeps w (unregister name w).
Proof.
  apply keeps_incl; [apply dict_pop_names_incl | reflexivity].
Qed.

Lemma client_cleanup_keeps csock u w : keeps w (client_cleanup E csock u w).
Proof.
  unfold client_cleanup. cbv zeta.
  match goal with
  | |- keeps w (emit_event ?w1 _) =>
      apply (keeps_same w w1); [|reflexivity|reflexivity]
  end.
  destruct (active u) as [u'|]; [|apply keeps_refl].
  eapply keeps_trans; [apply unregister_keeps | apply broadcast_local_keeps].
Qed.

Lemma handle_client_keeps csock first_msg rx w :
  keeps w (handle_client E csock first_msg rx w).
Proof.
  unfold handle_client.
  pose proof (client_loops_keeps csock first_msg rx w) as H.
  destruct (client_loops E csock first_msg rx w) as [u w']. simpl in H.
  eapply keeps_trans; [exact H | apply client_cleanup_keeps].
Qed.

Lemma should_process_keeps key w : keeps w (snd (should_process key w)).
Proof.
  unfold should_process.
  destruct (key_hashable key); [|apply keeps_refl].
  destruct (set_mem key (seen w)); [apply keeps_refl|].
  apply keeps_incl; [apply incl_refl | reflexivity].
Qed.

Lemma peer_loop_body_keeps msg w : keeps w (snd (peer_loop_body E msg w)).
Proof.
  unfold peer_loop_body.
  destruct (get msg (py "type")) as [t|]; [|apply keeps_refl].
  destruct (negb (is_str t (py "relay_msg"))); [apply keeps_refl|].
  destruct (get msg (py "origin_server")) as [o|]; [|apply keeps_refl].
  destruct (get msg (py "timestamp")) as [ts|]; [|apply keeps_refl].
  destruct (get msg (py "from")) as [f|]; [|apply keeps_refl].
  destruct (get msg (py "text")) as [tx|]; [|apply keeps_refl].
  pose proof (should_process_keeps (o, ts, f, tx) w) as H1.
  destruct (should_process (o, ts, f, tx) w) as [[[|]|] w1]; simpl in *;
    try exact H1.
  destruct (getitem msg (py "from")) as [f'|]; [|exact H1].
  destruct (getitem msg (py "origin_server")) as [o'|]; [|exact H1].
  destruct (getitem msg (py "text")) as [tx'|]; [|exact H1].
  destruct (getitem msg (py "timestamp")) as [ts'|]; [|exact H1].
  unfold alloc. cbv beta iota zeta.
  set (w2 := with_heap w1 _). set (r := List.length (heap w1)).
  assert (H2 : keeps w w2).
  { eapply keeps_same; [exact H1 | reflexivity | reflexivity]. }
  set (w3 := broadcast_local E (deref w2 r) None w2).
  assert (H3 : keeps w w3).
  { eapply keeps_trans; [exact H2 | apply broadcast_local_keeps]. }
  pose proof (log_keeps r w3) as H4.
  destruct (log E r w3) as [[[]|] w4]; simpl in H4 |- *;
    exact (keeps_trans _ _ _ H3 H4).
Qed.

Lemma peer_loop_keeps msgs : forall w, keeps w (peer_loop E msgs w).
Proof.
  induction msgs as [m unread next IH|unread|]; intros w; simpl;
    try apply keeps_refl.
  pose proof (peer_loop_body_keeps m w) as H.
  destruct (peer_loop_body E m w) as [[| |] w']; simpl in *; try exact H.
  eapply keeps_trans; [exact H | apply IH].
Qed.

Lemma handle_peer_keeps pid psock rx w :
  keeps w (snd (handle_peer E pid psock rx w)).
Proof.
  unfold handle_peer.
  pose proof (peer_loop_keeps (recv_json_lines E rx) w) as H.
  destruct (hashable pid); simpl; [|exact H].
  eapply keeps_same; [exact H | reflexivity | reflexivity].
Qed.

Lemma route_connection_keeps s rx w : keeps w (route_connection E s rx w).
Proof.
  unfold route_connection.
  assert (Hclose : keeps w (emit_event w (Close s))).
  { apply keeps_incl; [apply incl_refl | reflexivity]. }
  destruct (recv_json_lines E rx) as [m unread next|unread|]; try exact Hclose.
  destruct (get m (py "type")) as [t|]; [|exact Hclose].
  destruct (is_str t (py "hello")); [|apply handle_client_keeps].
  destruct (get m (py "from_server")) as [pid|]; [|exact Hclose].
  destruct (hashable pid); [|exact Hclose].
  set (w1 := with_peer_sockets w _).
  assert (H1 : keeps w w1).
  { apply keeps_incl; [apply incl_refl | reflexivity]. }
  pose proof (handle_peer_keeps pid s unread w1) as H2.
  destruct (handle_peer E pid s unread w1) as [[[]|] w2]; simpl in H2.
  - exact (keeps_trans _ _ _ H1 H2).
  - eapply keeps_same; [exact (keeps_trans _ _ _ H1 H2) | reflexivity | reflexivity].
Qed.

Lemma connect_attempt_keeps pid phost pport w :
  keeps w (snd (connect_attempt E pid phost pport w)).
Proof.
  unfold connect_attempt.
  destruct (connect_ok E (tick (with_fresh w))); cbv iota;
    [rewrite send_json_fst;
     destruct (send_ok E _ (fresh w)); cbv iota; [destruct (hashable pid)|]|];
    (apply keeps_incl; [apply incl_refl | reflexivity]).
Qed.

Lemma peer_connector_keeps pid phost pport turns :
  forall w, keeps w (snd (peer_connector E turns pid phost pport w)).
Proof.
  induction turns as [|n IH]; intros w; simpl; [apply keeps_refl|].
  pose proof (connect_attempt_keeps pid phost pport w) as H.
  destruct (connect_attempt E pid phost pport w) as [[|] w']; simpl in *;
    [exact H|].
  eapply keeps_trans; [exact H | apply IH].
Qed.

Lemma exec_keeps o w : handler_op o -> keeps w (exec E o w).
Proof.
  destruct o; simpl; intros Ho.
  - apply route_connection_keeps.
  - apply handle_client_keeps.
  - apply handle_peer_keeps.
  - apply peer_connector_keeps.
  - apply first_loop_body_keeps.
  - apply second_loop_body_keeps.
  - apply client_cleanup_keeps.
  - apply peer_loop_body_keeps.
  - apply connect_attempt_keeps.
  - destruct Ho.
  - apply unregister_keeps.
  - apply broadcast_local_keeps.
  - apply forward_to_peers_keeps.
  - apply should_process_keeps.
  - apply log_keeps.
  - apply send_json_keeps.
Qed.

Lemma run_keeps ops : forall w, Forall handler_op ops -> keeps w (run E ops w).
Proof.
  induction ops as [|o ops IH]; intros w H; simpl; [apply keeps_refl|].
  inversion H as [|? ? Ho Hops]; subst.
  eapply keeps_trans; [apply exec_keeps; exact Ho | apply IH; exact Hops].
Qed.
End Keeps.

Lemma try_register_logfile (E : env) csock name w :
  logfile (snd (try_register E csock name w)) = logfile w.
Proof.
  unfold try_register. destruct (dict_mem str_eqb name (clients w)); [|reflexivity].
  rewrite send_json_fst. destruct (send_ok E (tick w) csock); reflexivity.
Qed.

Lemma exec_logfile (E : env) o w :
  exists ls, logfile (exec E o w) = logfile w ++ ls /\ Forall log_line ls.
Proof.
  destruct o;
    try (apply exec_keeps; exact I).
  exists []. rewrite app_nil_r. split; [apply try_register_logfile | constructor].
Qed.

(** X5: whatever the threads of a node do, in whatever order, the log file
    is only appended to, and every line appended is an object that carries a
    [logged_at] number. *)
Theorem log_file_is_append_only (E : env) (ops : list op) (w : node) :
  exists ls,
    logfile (run E ops w) = logfile w ++ ls /\ Forall log_line ls.
Proof.
  revert w. induction ops as [|o ops IH]; intros w.
  - exists []. rewrite app_nil_r. split; [reflexivity | constructor].
  - destruct (exec_logfile E o w) as (ls & Hl & Hls).
    destruct (IH (exec E o w)) as (ls' & Hl' & Hls').
    exists (ls ++ ls'). split; [|apply Forall_app; split; assumption].
    change (run E (o :: ops) w) with (run E ops (exec E o w)).
    rewrite Hl', Hl, app_assoc. reflexivity.
Qed.

(** X6: the handlers only ever register names that are not empty and have
    no white space at either end: if the registry holds such names, it
    still does after any schedule of handler operations. *)
Theorem registry_names_stay_well_formed (E : env) (ops : list op) (w : node) :
  Forall handler_op ops ->
  Forall well_formed_name (names (clients w)) ->
  Forall well_formed_name (names (clients (run E ops w))).
Proof.
  intros Hops Hw. destruct (run_keeps E ops w Hops) as [Hn _].
  apply Forall_forall. intros n Hin.
  destruct (Hn n Hin) as [H|H]; [|exact H].
  rewrite Forall_forall in Hw. apply Hw, H.
Qed.

Lemma registry_names_stay_well_formed_witness :
  names (clients
           (run fair_env
              [ClientMessage 1
                 (JDict [(py "type", JStr (py "login"));
                         (py "username", JStr (py "  bob "))]) None;
               ClientMessage 2 (obj_of (login_fields "alice")) None]
              node_A))
  = [py "bob"; py "alice"]
  /\ Forall well_formed_name
       (names (clients
                 (run fair_env
                    [ClientMessage 1
                       (JDict [(py "type", JStr (py "login"));
                               (py "username", JStr (py "  bob "))]) None;
                     ClientMessage 2 (obj_of (login_fields "alice")) None]
                    node_A))).
Proof.
  split; [vm_compute; reflexivity|].
  apply registry_names_stay_well_formed.
  - repeat constructor.
  - constructor.
Defined.

(** ** Forwarding, broadcasting and the peer links *)

Section PeerFacts.
Variable E : env.

Lemma forward_loop_peer_sockets packet items :
  forall w,
    peer_sockets (forward_loop E items packet w) =
    drop_peers (peers_failed E (tick w) items) (peer_sockets w).
Proof.
  induction items as [|[pid psock] items IH]; intros w; simpl; [reflexivity|].
  destruct (send_ok E (tick w) psock); rewrite IH; reflexivity.
Qed.

Lemma dict_pop_incl (pid : json) (t : list (json * sock)) :
  incl (dict_pop py_eqb pid t) t.
Proof.
  induction t as [|[k v] t IH]; simpl; [apply incl_refl|].
  destruct (py_eqb pid k); [apply incl_tl, incl_refl|].
  intros x [Hx|Hx]; [left; exact Hx | right; apply IH; exact Hx].
Qed.

Lemma drop_peers_incl dead : forall t, incl (drop_peers dead t) t.
Proof.
  unfold drop_peers. induction dead as [|d dead IH]; intros t; simpl;
    [apply incl_refl|].
  eapply incl_tran; [apply IH | apply dict_pop_incl].
Qed.

(** X7: forwarding a record with the four fields never raises, whatever
    sends fail: it attempts one send on every link of the table, in order, of
    the relay packet made of the record's [from], [server], [text] and
    [timestamp]; the links whose send failed are popped from the table, which
    otherwise stays as it was (unchanged when every send succeeds); registry,
    seen set, heap and log file are not touched. *)
Theorem forward_survives_failed_links record w f o t ts :
  getitem record (py "from") = Ok f ->
  getitem record (py "server") = Ok o ->
  getitem record (py "text") = Ok t ->
  getitem record (py "timestamp") = Ok ts ->
  let packet :=
    JDict [(py "type", JStr (py "relay_msg")); (py "from", f);
           (py "origin_server", o); (py "text", t); (py "timestamp", ts)] in
  let w' := snd (forward_to_peers E record w) in
  fst (forward_to_peers E record w) = Ok tt
  /\ trace w' = trace w ++ peer_attempts E packet (tick w) (peer_sockets w)
  /\ peer_sockets w' =
       drop_peers (peers_failed E (tick w) (peer_sockets w)) (peer_sockets w)
  /\ incl (peer_sockets w') (peer_sockets w)
  /\ (peers_failed E (tick w) (peer_sockets w) = [] ->
      peer_sockets w' = peer_sockets w)
  /\ clients w' = clients w /\ seen w' = seen w
  /\ heap w' = heap w /\ logfile w' = logfile w.
Proof.
  intros Hf Ho Ht Hts packet w'. subst w'. unfold forward_to_peers.
  rewrite Hf, Ho, Ht, Hts. cbn [fst snd].
  change (relay_packet f o t ts) with packet.
  destruct (forward_loop_fields E packet (peer_sockets w) w)
    as (H1 & _ & H3 & H4 & H5 & H6 & _).
  pose proof (forward_loop_peer_sockets packet (peer_sockets w) w) as Hp.
  refine (conj eq_refl (conj H1 (conj Hp (conj _ (conj _
            (conj H4 (conj H6 (conj H3 H5)))))))).
  - rewrite Hp. apply drop_peers_incl.
  - intros Hnone. rewrite Hp, Hnone. reflexivity.
Qed.

Lemma filter_id (u : str) (c : list (str * sock)) :
  ~ In u (names c) -> filter (fun p => negb (str_eqb (fst p) u)) c = c.
Proof.
  induction c as [|[k v] c IH]; simpl; intros H; [reflexivity|].
  destruct (str_eqb k u) eqn:Hk.
  - apply str_eqb_eq in Hk. tauto.
  - simpl. rewrite IH; [reflexivity | tauto].
Qed.

Lemma dict_pop_filter (u : str) (c : list (str * sock)) :
  NoDup (names c) ->
  dict_pop str_eqb u c = filter (fun p => negb (str_eqb (fst p) u)) c.
Proof.
  induction c as [|[k v] c IH]; simpl; intros H; [reflexivity|].
  inversion H as [|? ? Hk Hc]; subst.
  destruct (str_eqb u k) eqn:Huk.
  - apply str_eqb_eq in Huk. subst k. rewrite str_eqb_refl. simpl.
    symmetry. apply filter_id. exact Hk.
  - assert (Hku : str_eqb k u = false).
    { apply str_eqb_neq. apply str_eqb_neq in Huk. congruence. }
    rewrite Hku. simpl. rewrite IH by exact Hc. reflexivity.
Qed.

Lemma remove_dead_live (dead : list str) :
  forall c, NoDup (names c) -> remove_dead dead c = live dead c.
Proof.
  unfold remove_dead, live.
  induction dead as [|d dead IH]; intros c H; simpl.
  - induction c as [|p c IHc]; simpl; [reflexivity|].
    inversion H; subst. rewrite <- IHc at 1 by assumption. reflexivity.
  - rewrite IH by (apply dict_pop_NoDup; exact H).
    rewrite (dict_pop_filter d c H). clear.
    induction c as [|p c IHc]; simpl; [reflexivity|].
    destruct (str_eqb (fst p) d); simpl; [exact IHc|].
    destruct (existsb (str_eqb (fst p)) dead); simpl; [exact IHc|].
    rewrite IHc. reflexivity.
Qed.

Lemma failed_recipients exclude u : forall c n,
  excluded u exclude = true ->
  ~ In u (failed E n (recipients exclude c)).
Proof.
  induction c as [|[k v] c IH]; intros n Hu; simpl; [tauto|].
  destruct (excluded k exclude) eqn:Hk; simpl; [apply IH; exact Hu|].
  destruct (send_ok E n v); [apply IH; exact Hu|].
  intros [<-|H]; [congruence | exact (IH (S n) Hu H)].
Qed.

(** X8: a broadcast leaves in the registry exactly the entries whose send
    did not fail, with their sockets and in their order; the entry of the
    excluded name is never removed, whatever its socket is worth. *)
Theorem broadcast_keeps_live_entries record exclude w :
  NoDup (names (clients w)) ->
  let dead := failed E (tick w) (recipients exclude (clients w)) in
  let w' := broadcast_local E record exclude w in
  clients w' = live dead (clients w)
  /\ (forall u s, In (u, s) (clients w') <->
                  In (u, s) (clients w) /\ ~ In u dead)
  /\ (forall u s, exclude = Some u -> In (u, s) (clients w) ->
                  In (u, s) (clients w')).
Proof.
  intros Hnd dead w'.
  destruct (broadcast_local_fields E record exclude w) as (_ & _ & Hc & _).
  fold dead in Hc. fold w' in Hc.
  rewrite (remove_dead_live dead _ Hnd) in Hc.
  assert (Hiff : forall u s, In (u, s) (clients w') <->
                             In (u, s) (clients w) /\ ~ In u dead).
  { intros u s. rewrite Hc. unfold live. rewrite filter_In. simpl.
    split; intros [H1 H2]; (split; [exact H1|]).
    - intros Hin. apply negb_true_iff in H2.
      assert (existsb (str_eqb u) dead = true); [|congruence].
      apply existsb_exists. exists u. split; [exact Hin | apply str_eqb_refl].
    - apply negb_true_iff. destruct (existsb (str_eqb u) dead) eqn:Hex;
        [|reflexivity].
      apply existsb_exists in Hex. destruct Hex as (x & Hx & Hux).
      apply str_eqb_eq in Hux. subst x. contradiction. }
  refine (conj Hc (conj Hiff _)).
  intros u s -> Hin. apply Hiff. split; [exact Hin|].
  apply failed_recipients. simpl. apply str_eqb_refl.
Qed.

Lemma peer_loop_silent msgs :
  forall w, Forall (fun m => relays m = false) (yielded msgs) ->
            peer_loop E msgs w = w.
Proof.
  induction msgs as [m unread next IH|unread|]; intros w H; simpl;
    try reflexivity.
  simpl in H. inversion H as [|? ? Hm Hnext]; subst.
  unfold peer_loop_body. unfold relays in Hm.
  destruct (get m (py "type")) as [t|]; [|reflexivity].
  rewrite Hm. simpl. apply IH. exact Hnext.
Qed.

(** X9: a [relay_msg] that lacks one of the fields of a local record, its
    fingerprint new and hashable, has the fingerprint added to the seen set
    and then ends the link: nothing is sent or logged, what the link still
    carries is not read, the entry leaves the table and the socket is
    closed. *)
Theorem incomplete_relay_ends_link pid psock rx w d unread next :
  recv_json_lines E rx = SYield (JDict d) unread next ->
  is_relay d -> incomplete d ->
  key_hashable (relay_key d) = true ->
  set_mem (relay_key d) (seen w) = false ->
  hashable pid = true ->
  handle_peer E pid psock rx w =
  (Ok tt, link_closed pid psock (with_seen w (seen w ++ [relay_key d]))).
Proof.
  intros Hrx Hr Hinc Hh Hmem Hpid. unfold handle_peer. rewrite Hrx, Hpid.
  cbn [peer_loop]. rewrite (peer_loop_body_relay E d w Hr).
  unfold should_process. rewrite Hh, Hmem. cbv iota. unfold getitem.
  destruct Hinc as [H|[H|[H|H]]]; rewrite H;
    repeat match goal with
           | |- context [match dict_get ?e ?k d with _ => _ end] =>
               destruct (dict_get e k d)
           end; reflexivity.
Qed.

(** X10: a [relay_msg] with a field that cannot be hashed (a list or an
    object) ends the link before the seen set is touched: the node is as it
    was, but for the entry that leaves the table and the socket that is
    closed. *)
Theorem unhashable_relay_ends_link pid psock rx w d unread next :
  recv_json_lines E rx = SYield (JDict d) unread next ->
  is_relay d ->
  key_hashable (relay_key d) = false ->
  hashable pid = true ->
  handle_peer E pid psock rx w = (Ok tt, link_closed pid psock w).
Proof.
  intros Hrx Hr Hh Hpid. unfold handle_peer. rewrite Hrx, Hpid.
  cbn [peer_loop]. rewrite (peer_loop_body_relay E d w Hr).
  unfold should_process. rewrite Hh. reflexivity.
Qed.

(** X11: a link that carries no [relay_msg], whatever else it carries and
    however it ends, changes nothing on the node until it is over: the
    entry then leaves the table and the socket is closed. *)
Theorem link_without_relay_changes_nothing pid psock rx w :
  Forall (fun m => relays m = false) (yielded (recv_json_lines E rx)) ->
  hashable pid = true ->
  handle_peer E pid psock rx w = (Ok tt, link_closed pid psock w).
Proof.
  intros Hall Hpid. unfold handle_peer. rewrite Hpid.
  rewrite (peer_loop_silent _ w Hall). reflexivity.
Qed.

Lemma dict_pop_set (pid : json) (s : sock) (t : list (json * sock)) :
  hashable pid = true ->
  dict_pop py_eqb pid (dict_set py_eqb pid s t) = dict_pop py_eqb pid t.
Proof.
  intros Hh. induction t as [|[k v] t IH]; simpl.
  - rewrite (py_eqb_refl pid Hh). reflexivity.
  - destruct (py_eqb pid k) eqn:Hk; simpl; rewrite Hk; [reflexivity|].
    rewrite IH. reflexivity.
Qed.

(** X12: a connection that opens with [hello] is handled as a peer link
    under the id it announces, on a table where that id now maps to this
    socket; once the link is over, the table has no entry for the id: the
    entry it had before, for a link this node had opened itself, is lost
    with it, and that socket is not closed. *)
Theorem inbound_link_takes_over_entry s rx w d unread next pid :
  recv_json_lines E rx = SYield (JDict d) unread next ->
  is_str (field "type" d) (py "hello") = true ->
  field "from_server" d = pid ->
  hashable pid = true ->
  let w1 := with_peer_sockets w (dict_set py_eqb pid s (peer_sockets w)) in
  let w' := route_connection E s rx w in
  w' = snd (handle_peer E pid s unread w1)
  /\ peer_sockets w' = dict_pop py_eqb pid (peer_sockets w)
  /\ exists es, trace w' = trace w ++ es ++ [Close s] /\ Forall delivery es.
Proof.
  intros Hrx Ht Hp Hh w1 w'. subst w'. unfold route_connection.
  rewrite Hrx, !get_field, Ht, Hp, Hh. fold w1.
  destruct (handle_peer_drop E pid s unread w1 Hh) as (Hps & es & He & HP).
  assert (Hok : fst (handle_peer E pid s unread w1) = Ok tt).
  { unfold handle_peer. rewrite Hh. reflexivity. }
  destruct (handle_peer E pid s unread w1) as [[[]|] w2]; simpl in *;
    [|discriminate].
  refine (conj eq_refl (conj _ _)).
  - rewrite Hps. apply dict_pop_set. exact Hh.
  - exists es. split; assumption.
Qed.

Lemma handle_client_trace csock first_msg rx w :
  exists es,
    trace (handle_client E csock first_msg rx w) = trace w ++ es ++ [Close csock]
    /\ Forall delivery es.
Proof.
  unfold handle_client.
  destruct (client_loops_evolves E csock first_msg rx w) as ((es & He & HP) & _).
  destruct (client_loops E csock first_msg rx w) as [u w1]. simpl in He.
  unfold client_cleanup. cbv zeta. simpl trace.
  destruct (active u) as [u'|].
  - destruct (broadcast_local_fields E (system_msg (left_text u')) None
                (unregister u' w1)) as (Ht & _).
    rewrite Ht. simpl trace. rewrite He.
    exists (es ++ attempts E (system_msg (left_text u'))
                    (tick (unregister u' w1))
                    (recipients None (clients (unregister u' w1)))).
    split; [rewrite <- !app_assoc; reflexivity|].
    apply Forall_app. split; [exact HP | apply attempts_delivery].
  - rewrite He. exists es. rewrite <- app_assoc. split; [reflexivity | exact HP].
Qed.

Lemma closes_none s es : Forall delivery es -> closes s es = 0.
Proof.
  induction 1 as [|e es He _ IH]; [reflexivity|].
  destruct e; simpl in *; try exact IH; destruct He.
Qed.

Lemma closes_snoc s s' es :
  Forall delivery es ->
  closes s (es ++ [Close s']) = if Nat.eqb s s' then 1 else 0.
Proof.
  intros H. induction H as [|e es He _ IH]; simpl.
  - destruct (Nat.eqb s s'); reflexivity.
  - destruct e; simpl in *; try exact IH; destruct He.
Qed.

(** X13: whatever a new connection sends first and however its handling
    ends (nothing received, a line that is not JSON, a value that is not an
    object, a peer link, a client session), the router's thread closes the
    connection's socket exactly once, as the last thing it does, and closes
    no other socket; everything before is a send or a log append. *)
Theorem router_closes_its_socket_once s rx w :
  exists es,
    trace (route_connection E s rx w) = trace w ++ es ++ [Close s]
    /\ Forall delivery es
    /\ closes s (es ++ [Close s]) = 1
    /\ forall s', s' <> s -> closes s' (es ++ [Close s]) = 0.
Proof.
  assert (Hcount : forall es, Forall delivery es ->
            closes s (es ++ [Close s]) = 1
            /\ forall s', s' <> s -> closes s' (es ++ [Close s]) = 0).
  { intros es HP. split.
    - rewrite (closes_snoc s s es HP), Nat.eqb_refl. reflexivity.
    - intros s' Hs. rewrite (closes_snoc s' s es HP).
      apply Nat.eqb_neq in Hs. rewrite Hs. reflexivity. }
  assert (Hgoal : exists es,
            trace (route_connection E s rx w) = trace w ++ es ++ [Close s]
            /\ Forall delivery es).
  { unfold route_connection.
    assert (Hclose : exists es,
              trace (emit_event w (Close s)) = trace w ++ es ++ [Close s]
              /\ Forall delivery es).
    { exists []. split; [reflexivity | constructor]. }
    destruct (recv_json_lines E rx) as [m unread next|unread|]; try exact Hclose.
    destruct (get m (py "type")) as [t|]; [|exact Hclose].
    destruct (is_str t (py "hello")); [|apply handle_client_trace].
    destruct (get m (py "from_server")) as [pid|]; [|exact Hclose].
    destruct (hashable pid) eqn:Hh; [|exact Hclose].
    set (w1 := with_peer_sockets w _).
    destruct (handle_peer_drop E pid s unread w1 Hh) as (_ & es & He & HP).
    assert (Hok : fst (handle_peer E pid s unread w1) = Ok tt).
    { unfold handle_peer. rewrite Hh. reflexivity. }
    destruct (handle_peer E pid s unread w1) as [[[]|] w2]; simpl in *;
      [|discriminate].
    exists es. split; assumption. }
  destruct Hgoal as (es & He & HP). exists es.
  destruct (Hcount es HP) as [H1 H2].
  refine (conj He (conj HP (conj H1 H2))).
Qed.

End PeerFacts.

(** ** Sessions without a name *)

Section GuestFacts.
Variable E : env.

Lemma first_loop_body_guest csock m w :
  is_login m = false ->
  exists c es,
    first_loop_body E csock m None w = (c, None, emit_events w es)
    /\ Forall (invalid_reply csock) es.
Proof.
  unfold is_login, first_loop_body. intros Hm.
  destruct (get m (py "type")) as [t|].
  - rewrite Hm. simpl active.
    assert (Helse : exists c es,
      (if is_str t (py "quit") then (Break, @None str, w)
       else match send_json E csock (error_msg (py "invalid request")) w with
            | (Ok _, w') => (Next, None, w')
            | (Raise, w') => (Raised, None, w')
            end) = (c, None, emit_events w es)
      /\ Forall (invalid_reply csock) es).
    { destruct (is_str t (py "quit")).
      - exists Break, []. split; [reflexivity | constructor].
      - unfold send_json. destruct (send_ok E (tick w) csock) eqn:Hok.
        + exists Next, [Send csock (error_msg (py "invalid request")) true].
          split; [reflexivity | repeat constructor; eexists; reflexivity].
        + exists Raised, [Send csock (error_msg (py "invalid request")) false].
          split; [reflexivity | repeat constructor; eexists; reflexivity]. }
    destruct (is_str t (py "msg")); exact Helse.
  - exists Raised, []. split; [reflexivity | constructor].
Qed.

Lemma first_loop_guest csock msgs :
  forall w,
    Forall (fun m => is_login m = false) (yielded msgs) ->
    exists e es,
      for_loop (first_loop_body E csock) msgs None w = (e, None, emit_events w es)
      /\ Forall (invalid_reply csock) es.
Proof.
  induction msgs as [m unread next IH|unread|]; intros w H; simpl.
  - simpl in H. inversion H as [|? ? Hm Hnext]; subst.
    destruct (first_loop_body_guest csock m w Hm) as (c & es & Hb & HP).
    rewrite Hb. destruct c.
    + destruct (IH (emit_events w es) Hnext) as (e & es' & Hl & HP').
      exists e, (es ++ es'). rewrite Hl, emit_events_app.
      split; [reflexivity | apply Forall_app; split; assumption].
    + exists (Done unread), es. split; [reflexivity | exact HP].
    + exists Failed, es. split; [reflexivity | exact HP].
  - exists (Done unread), []. split; [reflexivity | constructor].
  - exists Failed, []. split; [reflexivity | constructor].
Qed.

Lemma second_loop_guest msgs :
  forall w, exists e, for_loop (second_loop_body E) msgs None w = (e, None, w).
Proof.
  induction msgs as [m unread next IH|unread|]; intros w; simpl.
  - unfold second_loop_body. destruct (get m (py "type")) as [t|].
    + simpl active.
      destruct (is_str t (py "msg")); destruct (is_str t (py "quit"));
        try (exists (Done unread); reflexivity); apply IH.
    + exists Failed. reflexivity.
  - exists (Done unread). reflexivity.
  - exists Failed. reflexivity.
Qed.

(** X15: a connection that never sends a [login] in its first loop reaches
    nobody: all the node does for it is answer [invalid request] on its own
    socket and close that socket at the end; the registry, the peer table,
    the seen set, the heap and the log file are as they were, whatever [msg]
    or other requests it sent. *)
Theorem guest_session_reaches_nobody csock first_msg rx w :
  Forall (fun m => is_login m = false) (yielded (msgs_iter E first_msg rx)) ->
  exists es,
    handle_client E csock first_msg rx w = emit_events w (es ++ [Close csock])
    /\ Forall (invalid_reply csock) es
    /\ clients (handle_client E csock first_msg rx w) = clients w
    /\ peer_sockets (handle_client E csock first_msg rx w) = peer_sockets w
    /\ seen (handle_client E csock first_msg rx w) = seen w
    /\ heap (handle_client E csock first_msg rx w) = heap w
    /\ logfile (handle_client E csock first_msg rx w) = logfile w.
Proof.
  intros H.
  assert (Hrun : exists es,
            handle_client E csock first_msg rx w = emit_events w (es ++ [Close csock])
            /\ Forall (invalid_reply csock) es).
  { unfold handle_client, client_loops.
    destruct (first_loop_guest csock (msgs_iter E first_msg rx) w H)
      as (e & es & Hl & HP).
    rewrite Hl. exists es. split; [|exact HP]. destruct e as [unread|].
    - destruct (second_loop_guest (recv_json_lines E unread) (emit_events w es))
        as (e2 & Hl2).
      rewrite Hl2. unfold client_cleanup. simpl active. cbv zeta.
      rewrite emit_events_app. reflexivity.
    - unfold client_cleanup. simpl active. cbv zeta.
      rewrite emit_events_app. reflexivity. }
  destruct Hrun as (es & Hrun & HP). exists es. rewrite Hrun.
  destruct (emit_events_fields (es ++ [Close csock]) w)
    as (_ & _ & Hc & Hp & Hs & Hh & Hl & _).
  refine (conj eq_refl (conj HP (conj Hc (conj Hp (conj Hs (conj Hh Hl)))))).
Qed.

(** X16: a [login] whose [username] is there but is not a string (a
    number, [null], a list) ends the session at once: the request gets no
    reply, nothing is registered and the socket is closed, with the rest of
    the input unread. *)
Theorem login_with_non_string_name_ends_session csock d v rx w :
  d <> [] ->
  is_str (field "type" d) (py "login") = true ->
  dict_get str_eqb (py "username") d = Some v ->
  is_string v = false ->
  handle_client E csock (Some (JDict d)) rx w = emit_event w (Close csock).
Proof.
  intros Hd Ht Hu Hv. unfold handle_client, client_loops, msgs_iter.
  assert (Htruthy : truthy (JDict d) = true).
  { destruct d; [contradiction | reflexivity]. }
  rewrite Htruthy. cbn [for_loop]. unfold first_loop_body.
  rewrite get_field, Ht. unfold login, get_default. rewrite Hu.
  destruct v; try discriminate Hv; reflexivity.
Qed.
End GuestFacts.

(** ** Examples *)

Lemma forward_survives_failed_links_witness :
  let record := chat_record (py "alice") (py "A") (JStr (py "hi")) 5 in
  let w' := snd (forward_to_peers peer_env record node_A_linked) in
  trace w' =
    trace node_A_linked
    ++ [Send 7 (relay_packet (JStr (py "alice")) (JStr (py "A"))
                  (JStr (py "hi")) (JNum 5)) false;
        Send 8 (relay_packet (JStr (py "alice")) (JStr (py "A"))
                  (JStr (py "hi")) (JNum 5)) true]
  /\ peer_sockets w' = [(JStr (py "C"), 8)].
Proof.
  intros record w'.
  destruct (forward_survives_failed_links peer_env record node_A_linked
              (JStr (py "alice")) (JStr (py "A")) (JStr (py "hi")) (JNum 5)
              eq_refl eq_refl eq_refl eq_refl)
    as (_ & Ht & Hp & _).
  split; [exact Ht | exact Hp].
Defined.

Lemma broadcast_keeps_live_entries_witness :
  clients (broadcast_local dead_socket_env (system_msg (py "hello")) None
             node_A_three)
  = [(py "bob", 2); (py "carol", 3)].
Proof.
  assert (Hnd : NoDup (names (clients node_A_three))).
  { repeat (constructor;
            [simpl; intros H;
             repeat (destruct H as [H|H]; [discriminate H|]); exact H|]).
    constructor. }
  exact (proj1 (broadcast_keeps_live_entries dead_socket_env
                  (system_msg (py "hello")) None node_A_three Hnd)).
Defined.

Lemma incomplete_relay_ends_link_witness :
  handle_peer peer_env (JStr (py "B")) 7
    [Recv (line_of partial_relay_fields); Recv (line_of (msg_fields "hi"))]
    node_A_linked
  = (Ok tt,
     link_closed (JStr (py "B")) 7
       (with_seen node_A_linked
          [(JStr (py "B"), JNull, JStr (py "bob"), JStr (py "hi"))])).
Proof.
  refine (incomplete_relay_ends_link peer_env (JStr (py "B")) 7
            [Recv (line_of partial_relay_fields); Recv (line_of (msg_fields "hi"))]
            node_A_linked
            (map (fun kv => (py (fst kv), JStr (py (snd kv)))) partial_relay_fields)
            [Recv (line_of (msg_fields "hi"))]
            (recv_json_lines peer_env [Recv (line_of (msg_fields "hi"))])
            _ eq_refl _ eq_refl eq_refl eq_refl).
  - vm_compute. reflexivity.
  - right. right. right. reflexivity.
Defined.

Lemma unhashable_relay_ends_link_witness :
  handle_peer peer_env (JStr (py "B")) 7
    [Recv list_relay_line; Recv (line_of (msg_fields "hi"))] node_A_linked
  = (Ok tt, link_closed (JStr (py "B")) 7 node_A_linked).
Proof.
  refine (unhashable_relay_ends_link peer_env (JStr (py "B")) 7
            [Recv list_relay_line; Recv (line_of (msg_fields "hi"))]
            node_A_linked list_relay
            [Recv (line_of (msg_fields "hi"))]
            (recv_json_lines peer_env [Recv (line_of (msg_fields "hi"))])
            _ eq_refl eq_refl eq_refl).
  vm_compute. reflexivity.
Defined.

Lemma link_without_relay_changes_nothing_witness :
  handle_peer peer_env (JStr (py "B")) 7
    [Recv (line_of ping_fields); Recv (line_of (msg_fields "hi"))]
    node_A_linked
  = (Ok tt, link_closed (JStr (py "B")) 7 node_A_linked).
Proof.
  apply (link_without_relay_changes_nothing peer_env (JStr (py "B")) 7
           [Recv (line_of ping_fields); Recv (line_of (msg_fields "hi"))]
           node_A_linked).
  - vm_compute. repeat constructor.
  - reflexivity.
Defined.

Lemma inbound_link_takes_over_entry_witness :
  peer_sockets
    (route_connection peer_env 9
       [Recv (line_of (hello_fields "B")); Recv (line_of ping_fields)]
       node_A_linked)
  = [(JStr (py "C"), 8)].
Proof.
  refine (proj1 (proj2
            (inbound_link_takes_over_entry peer_env 9
               [Recv (line_of (hello_fields "B")); Recv (line_of ping_fields)]
               node_A_linked
               (map (fun kv => (py (fst kv), JStr (py (snd kv))))
                    (hello_fields "B"))
               [Recv (line_of ping_fields)]
               (recv_json_lines peer_env [Recv (line_of ping_fields)])
               (JStr (py "B")) _ eq_refl eq_refl eq_refl))).
  vm_compute. reflexivity.
Defined.

Lemma guest_session_reaches_nobody_witness :
  clients (handle_client fair_env 2 (Some (obj_of (msg_fields "hi")))
             [Recv (line_of (msg_fields "again"))] node_A_alice)
  = clients node_A_alice
  /\ logfile (handle_client fair_env 2 (Some (obj_of (msg_fields "hi")))
                [Recv (line_of (msg_fields "again"))] node_A_alice)
     = logfile node_A_alice.
Proof.
  assert (H : Forall (fun m => is_login m = false)
                (yielded (msgs_iter fair_env (Some (obj_of (msg_fields "hi")))
                            [Recv (line_of (msg_fields "again"))]))).
  { vm_compute. repeat constructor. }
  destruct (guest_session_reaches_nobody fair_env 2
              (Some (obj_of (msg_fields "hi")))
              [Recv (line_of (msg_fields "again"))] node_A_alice H)
    as (es & _ & _ & Hc & _ & _ & _ & Hl).
  split; [exact Hc | exact Hl].
Defined.

Lemma login_with_non_string_name_ends_session_witness :
  handle_client fair_env 2
    (Some (JDict [(py "type", JStr (py "login")); (py "username", JNum 5)]))
    [Recv (line_of (msg_fields "hi"))] node_A_alice
  = emit_event node_A_alice (Close 2).
Proof.
  apply (login_with_non_string_name_ends_session fair_env 2
           [(py "type", JStr (py "login")); (py "username", JNum 5)] (JNum 5)).
  - discriminate.
  - reflexivity.
  - reflexivity.
  - reflexivity.
Defined.

(** ** From one node to the next *)

Section RelayFacts.
Variable E : env.

(** X17: the packet a node forwards for a chat record is turned back, on
    the node that receives it for the first time, into the very record the
    sender's own clients were sent: it goes once to every entry of the
    receiver's registry, then to the receiver's log with the receiver's
    [logged_at], and its fingerprint joins the seen set. The text must be
    hashable: the sender accepts any text, the receiver cannot fingerprint a
    list or an object. *)
Theorem relayed_record_is_the_original u sid text now w :
  hashable text = true ->
  set_mem (JStr sid, JNum now, JStr u, text) (seen w) = false ->
  let record := chat_record u sid text now in
  let packet := relay_packet (JStr u) (JStr sid) text (JNum now) in
  let n := tick w + List.length (clients w) in
  let o := log_result E (S n) in
  let logged := with_logged_at record (clock E n) in
  let w' := snd (peer_loop_body E packet w) in
  (forall w0, forward_to_peers E record w0 =
              (Ok tt, forward_loop E (peer_sockets w0) packet w0))
  /\ fst (peer_loop_body E packet w) = (if log_raises o then Raised else Next)
  /\ trace w' =
       trace w ++ attempts E record (tick w) (clients w) ++ log_events o logged
  /\ logfile w' = logfile w ++ logged_lines o logged
  /\ seen w' = seen w ++ [(JStr sid, JNum now, JStr u, text)].
Proof.
  intros Hh Hmem record packet n o logged w'. subst w'.
  split; [intros w0; apply forward_chat_record|].
  unfold packet, relay_packet.
  match goal with
  | |- context [peer_loop_body E (JDict ?d) w] =>
      assert (Hrelay : is_relay d) by reflexivity;
      rewrite (peer_loop_body_relay E d w Hrelay)
  end.
  change (relay_key _) with (JStr sid, JNum now, JStr u, text).
  unfold should_process.
  assert (Hk : key_hashable (JStr sid, JNum now, JStr u, text) = true).
  { simpl. exact Hh. }
  rewrite Hk, Hmem. cbv iota.
  change (getitem _ (py "from")) with (Ok (JStr u)).
  change (getitem _ (py "origin_server")) with (Ok (JStr sid)).
  change (getitem _ (py "text")) with (Ok text).
  change (getitem _ (py "timestamp")) with (Ok (JNum now)).
  cbv iota.
  change (local_record (JStr u) (JStr sid) text (JNum now)) with record.
  set (w1 := with_seen w _).
  pose proof (deref_alloc record w1) as Hderef.
  unfold alloc in *. cbn [fst snd] in Hderef. cbv beta iota zeta.
  set (w2 := with_heap w1 (heap w1 ++ [record])) in *.
  rewrite Hderef.
  destruct (broadcast_local_fields E record None w2)
    as (Ht3 & Hk3 & _ & _ & Hs3 & Hh3 & Hl3 & _).
  rewrite recipients_none in Ht3, Hk3. simpl in Ht3, Hk3, Hs3, Hh3, Hl3.
  set (w3 := broadcast_local E record None w2) in *.
  assert (Hr : nth_error (heap w3) (List.length (heap w1)) = Some record).
  { rewrite Hh3. simpl. rewrite nth_error_app2, Nat.sub_diag by lia. reflexivity. }
  unfold record in Hr.
  destruct (log_full E (List.length (heap w1)) _ w3 Hr)
    as (Hf & Ht5 & _ & Hl5 & _ & _ & Hs5).
  fold n in Hk3. rewrite Hk3 in Hf, Ht5, Hl5. fold o in Hf, Ht5, Hl5.
  change (JDict (dict_set str_eqb (py "logged_at") (JNum (clock E n)) _))
    with logged in Ht5, Hl5.
  rewrite Ht3 in Ht5. rewrite Hl3 in Hl5. rewrite Hs3 in Hs5.
  rewrite <- app_assoc in Ht5.
  destruct (log E (List.length (heap w1)) w3) as [[[]|] w5]; simpl in *;
    destruct (log_raises o); try discriminate;
    refine (conj eq_refl (conj Ht5 (conj Hl5 Hs5))).
Qed.
End RelayFacts.

Lemma relayed_record_is_the_original_witness :
  trace (snd (peer_loop_body fair_env
                (relay_packet (JStr (py "bob")) (JStr (py "B")) (JStr (py "hi"))
                   (JNum 1700000000))
                node_A_alice))
  = trace node_A_alice
    ++ [Send 1 (chat_record (py "bob") (py "B") (JStr (py "hi")) 1700000000) true;
        LogLine (with_logged_at
                   (chat_record (py "bob") (py "B") (JStr (py "hi")) 1700000000)
                   2)].
Proof.
  exact (proj1 (proj2 (proj2
           (relayed_record_is_the_original fair_env (py "bob") (py "B")
              (JStr (py "hi")) 1700000000 node_A_alice eq_refl eq_refl)))).
Defined.

(** ** What a connection registers, and what its cleanup removes *)

Section SessionClaims.
Variable E : env.

Lemma last_cons (A : Type) (a d : A) (l : list A) : last (a :: l) d = last l a.
Proof.
  revert a d. induction l as [|b l IH]; intros a d; [reflexivity|].
  change (last (a :: b :: l) d) with (last (b :: l) d).
  rewrite (IH b d), (IH b a). reflexivity.
Qed.

(** One turn of the first loop: it registers the name that [granted] says,
    for the connection's socket, and makes it the local [username]; it
    registers nothing and leaves [username] alone when [granted] says none. *)
Lemma first_loop_body_grant csock m u w :
  let r := first_loop_body E csock m u w in
  match granted m w with
  | Some n =>
      snd (fst r) = Some n /\ n <> [] /\ ~ In n (names (clients w))
      /\ dict_get str_eqb n (clients (snd r)) = Some csock
      /\ (forall x, In x (names (clients (snd r))) ->
                    In x (names (clients w)) \/ x = n)
  | None =>
      snd (fst r) = u /\ incl (names (clients (snd r))) (names (clients w))
  end.
Proof.
  unfold first_loop_body.
  destruct m as [| | | | |d];
    try (cbv [granted get get_default]; cbv beta iota;
         split; [reflexivity | apply incl_refl]).
  simpl get.
  set (t := match dict_get str_eqb (py "type") d with
            | Some v => v | None => JNull end).
  set (v := match dict_get str_eqb (py "username") d with
            | Some v => v | None => JStr [] end).
  cbv beta iota.
  destruct (is_str t (py "login")) eqn:Hl.
  - assert (Hg : granted (JDict d) w =
                 match v with
                 | JStr raw =>
                     match strip raw with
                     | [] => None
                     | c :: l =>
                         if dict_mem str_eqb (c :: l) (clients w) then None
                         else Some (c :: l)
                     end
                 | _ => None
                 end).
    { unfold granted. simpl get. simpl get_default. cbv beta iota.
      fold t. fold v. rewrite Hl. destruct v; reflexivity. }
    rewrite Hg. clear Hg. unfold login. simpl get_default. fold v.
    cbv beta iota.
    destruct v as [| | |raw| |];
      try (split; [reflexivity | apply incl_refl]).
    destruct (strip raw) as [|c name'] eqn:Hname.
    + rewrite send_json_fst. destruct (send_ok E (tick w) csock);
        (split; [reflexivity | apply incl_refl]).
    + unfold try_register.
      destruct (dict_mem str_eqb (c :: name') (clients w)) eqn:Hmem.
      * rewrite send_json_fst. destruct (send_ok E (tick w) csock);
          (split; [reflexivity | apply incl_refl]).
      * apply dict_mem_false_names in Hmem.
        rewrite (dict_set_fresh _ csock _ Hmem). rewrite send_json_fst.
        simpl tick. remember (c :: name') as n eqn:Hn.
        assert (Hne : n <> []) by (subst n; discriminate).
        clear Hn Hname.
        assert (Hin : forall x,
                  In x (names (clients w ++ [(n, csock)])) ->
                  In x (names (clients w)) \/ x = n).
        { intros x Hx. unfold names in Hx. rewrite map_app in Hx.
          apply in_app_or in Hx. destruct Hx as [Hx|[Hx|[]]];
            [left; exact Hx | right; symmetry; exact Hx]. }
        destruct (send_ok E (tick w) csock); cbv zeta; simpl fst; simpl snd.
        -- set (w2 := emit_event _ _).
           destruct (broadcast_local_fields E (system_msg (joined_text n))
                       (@Some str n) w2) as (_ & _ & Hc & _).
           rewrite Hc. simpl clients.
           rewrite (recipients_fresh n csock (clients w) Hmem).
           refine (conj eq_refl (conj Hne (conj Hmem (conj _ _)))).
           ++ rewrite dict_get_remove_dead;
                [apply dict_get_app_fresh; exact Hmem|].
              intros Hf. apply failed_incl in Hf. exact (Hmem Hf).
           ++ intros x Hx. apply remove_dead_names_incl in Hx.
              apply Hin. exact Hx.
        -- refine (conj eq_refl (conj Hne (conj Hmem (conj _ Hin)))).
           simpl. apply dict_get_app_fresh. exact Hmem.
  - assert (Hg : granted (JDict d) w = None).
    { unfold granted. simpl get. simpl get_default. cbv beta iota.
      fold t. fold v. rewrite Hl. destruct v; reflexivity. }
    rewrite Hg. clear Hg.
    assert (Helse :
      let r := if is_str t (py "quit") then (Break, u, w)
               else match send_json E csock (error_msg (py "invalid request")) w with
                    | (Ok _, w') => (Next, u, w')
                    | (Raise, w') => (Raised, u, w')
                    end in
      snd (fst r) = u /\ incl (names (clients (snd r))) (names (clients w))).
    { destruct (is_str t (py "quit")); [split; [reflexivity | apply incl_refl]|].
      rewrite send_json_fst. destruct (send_ok E (tick w) csock);
        (split; [reflexivity | apply incl_refl]). }
    destruct (is_str t (py "msg")); [|exact Helse].
    destruct (active u) as [u'|]; [|exact Helse].
    pose proof (chat_names_incl E (JDict d) u' w) as Hc.
    destruct (chat E (JDict d) u' w) as [c w']. split; [reflexivity | exact Hc].
Qed.

(** The first loop: the local [username] is the name registered last, and
    the registry has gained no name but the registered ones. *)
Lemma first_loop_grants csock msgs :
  forall u w,
    let r := for_loop (first_loop_body E csock) msgs u w in
    snd (fst r) = last (map Some (grants E csock msgs u w)) u
    /\ (forall x, In x (names (clients (snd r))) ->
                  In x (names (clients w)) \/ In x (grants E csock msgs u w)).
Proof.
  induction msgs as [m unread next IH|unread|]; intros u w;
    try (split; [reflexivity | intros x Hx; left; exact Hx]).
  cbn [for_loop grants].
  pose proof (first_loop_body_grant csock m u w) as Hb. cbv zeta in Hb.
  destruct (first_loop_body E csock m u w) as [[c u'] w'].
  cbn [fst snd] in Hb.
  assert (Hhere :
    u' = last (map Some (match granted m w with Some n => [n] | None => [] end)) u
    /\ (forall x, In x (names (clients w')) ->
                  In x (names (clients w))
                  \/ In x (match granted m w with Some n => [n] | None => [] end))).
  { destruct (granted m w) as [n|].
    - destruct Hb as (Hu & _ & _ & _ & Hin). split; [exact Hu|].
      intros x Hx. destruct (Hin x Hx) as [H|H];
        [left; exact H | right; left; symmetry; exact H].
    - destruct Hb as (Hu & Hincl). split; [exact Hu|].
      intros x Hx. left. apply Hincl. exact Hx. }
  destruct Hhere as (Hu & Hin).
  destruct c; cbn [fst snd]; rewrite ?app_nil_r; try (split; assumption).
  destruct (IH u' w') as (IHu & IHin). cbv zeta in IHu, IHin. split.
  - rewrite IHu, Hu, map_app.
    destruct (granted m w) as [n|]; [|reflexivity].
    simpl app. rewrite last_cons. reflexivity.
  - intros x Hx. destruct (IHin x Hx) as [H|H].
    + destruct (Hin x H) as [H'|H'];
        [left; exact H' | right; apply in_or_app; left; exact H'].
    + right. apply in_or_app. right. exact H.
Qed.

Lemma second_loop_body_same msg u w :
  snd (fst (second_loop_body E msg u w)) = u
  /\ incl (names (clients (snd (second_loop_body E msg u w)))) (names (clients w)).
Proof.
  unfold second_loop_body.
  destruct (get msg (py "type")) as [t|]; [|split; [reflexivity | apply incl_refl]].
  assert (Helse :
    let r := if is_str t (py "quit") then (Break, u, w) else (Next, u, w) in
    snd (fst r) = u /\ incl (names (clients (snd r))) (names (clients w))).
  { destruct (is_str t (py "quit")); (split; [reflexivity | apply incl_refl]). }
  destruct (is_str t (py "msg")); [|exact Helse].
  destruct (active u) as [u'|]; [|exact Helse].
  pose proof (chat_names_incl E msg u' w) as Hc.
  destruct (chat E msg u' w) as [c w']. split; [reflexivity | exact Hc].
Qed.

(** The second loop registers nothing and leaves [username] alone. *)
Lemma second_loop_same msgs :
  forall u w,
    snd (fst (for_loop (second_loop_body E) msgs u w)) = u
    /\ incl (names (clients (snd (for_loop (second_loop_body E) msgs u w))))
            (names (clients w)).
Proof.
  induction msgs as [m unread next IH|unread|]; intros u w;
    try (split; [reflexivity | apply incl_refl]).
  cbn [for_loop].
  destruct (second_loop_body_same m u w) as (Hu & Hincl).
  destruct (second_loop_body E m u w) as [[c u'] w']. cbn [fst snd] in Hu, Hincl.
  subst u'. destruct c; cbn [fst snd]; try (split; [reflexivity | exact Hincl]).
  destruct (IH u w') as (IHu & IHincl). split; [exact IHu|].
  eapply incl_tran; eassumption.
Qed.

(** The two loops: the handler's [username] is the name the connection
    registered last. *)
Lemma client_loops_grants csock first_msg rx w :
  let gs := grants E csock (msgs_iter E first_msg rx) None w in
  fst (client_loops E csock first_msg rx w) = last_granted gs
  /\ (forall x, In x (names (clients (snd (client_loops E csock first_msg rx w)))) ->
                In x (names (clients w)) \/ In x gs).
Proof.
  intros gs. unfold client_loops, last_granted.
  destruct (first_loop_grants csock (msgs_iter E first_msg rx) None w)
    as (Hu & Hin). cbv zeta in Hu, Hin. fold gs in Hu, Hin.
  destruct (for_loop (first_loop_body E csock) (msgs_iter E first_msg rx) None w)
    as [[[unread|] u] w1]; cbn [fst snd] in Hu, Hin |- *;
    [|split; assumption].
  destruct (second_loop_same (recv_json_lines E unread) u w1) as (Hu2 & Hincl2).
  destruct (for_loop (second_loop_body E) (recv_json_lines E unread) u w1)
    as [[e2 u2] w2]. cbn [fst snd] in Hu2, Hincl2 |- *.
  split; [rewrite Hu2; exact Hu|].
  intros x Hx. apply Hin, Hincl2. exact Hx.
Qed.






Lemma first_loop_body_login csock d u w :
  is_str (field "type" d) (py "login") = true ->
  first_loop_body E csock (JDict d) u w = login E csock (JDict d) u w.
Proof.
  intros H. unfold first_loop_body. rewrite get_field, H. reflexivity.
Qed.

(** C1, as the code has it: registration is a check and an insert in one
    critical section. A login that the first loop of a connection handles,
    for a name that is in the registry, leaves the registry as it is and is
    answered with the error "username taken"; the critical section either
    finds the name and inserts nothing, or inserts it for the requesting
    socket; a turn of the first loop registers a name only when no entry has
    it, and then for its own socket; in every schedule of the node's
    operations the registry keeps at most one entry per name; of several
    logins for one free name exactly the first registers it and the others
    are rejected; and once a session has ended, the name it registered last
    is gone from the registry and the next login for it registers it and is
    answered with the Welcome message. *)
Theorem registration_check_and_insert :
  (forall csock d u w name,
      asks_for name d -> name <> [] -> In name (names (clients w)) ->
      let ok := send_ok E (tick w) csock in
      login E csock (JDict d) u w =
        ((if ok then Next else Raised), u,
         emit_event w (Send csock (error_msg (py "username taken")) ok))
      /\ clients (snd (login E csock (JDict d) u w)) = clients w)
  /\ (forall csock d u w name,
        is_str (field "type" d) (py "login") = true ->
        asks_for name d -> name <> [] -> In name (names (clients w)) ->
        let ok := send_ok E (tick w) csock in
        first_loop_body E csock (JDict d) u w =
          ((if ok then Next else Raised), u,
           emit_event w (Send csock (error_msg (py "username taken")) ok))
        /\ clients (snd (first_loop_body E csock (JDict d) u w)) = clients w)
  /\ (forall csock name w,
        (In name (names (clients w)) ->
         fst (try_register E csock name w) <> Ok true
         /\ clients (snd (try_register E csock name w)) = clients w)
        /\ (~ In name (names (clients w)) ->
            try_register E csock name w =
            (Ok true, with_clients w (clients w ++ [(name, csock)]))))
  /\ (forall csock m u w,
        let r := first_loop_body E csock m u w in
        match granted m w with
        | Some n =>
            snd (fst r) = Some n /\ n <> [] /\ ~ In n (names (clients w))
            /\ dict_get str_eqb n (clients (snd r)) = Some csock
            /\ (forall x, In x (names (clients (snd r))) ->
                          In x (names (clients w)) \/ x = n)
        | None =>
            snd (fst r) = u
            /\ incl (names (clients (snd r))) (names (clients w))
        end)
  /\ (forall ops w,
        NoDup (names (clients w)) -> NoDup (names (clients (run E ops w))))
  /\ (forall name s1 d1 rest w,
        name <> [] -> asks_for name d1 ->
        Forall (fun q => asks_for name (snd q)) rest ->
        ~ In name (names (clients w)) ->
        let w1 := snd (login E s1 (JDict d1) None w) in
        login_all E ((s1, d1) :: rest) w = emit_events w1 (rejections E (tick w1) rest)
        /\ dict_get str_eqb name (clients (login_all E ((s1, d1) :: rest) w))
           = Some s1)
  /\ (forall csock first_msg rx w name csock' d' u',
        NoDup (names (clients w)) ->
        last_granted (grants E csock (msgs_iter E first_msg rx) None w)
        = Some name ->
        is_str (field "type" d') (py "login") = true ->
        asks_for name d' ->
        let w2 := handle_client E csock first_msg rx w in
        fst (client_loops E csock first_msg rx w) = Some name
        /\ ~ In name (names (clients w2))
        /\ let r := first_loop_body E csock' (JDict d') u' w2 in
           snd (fst r) = Some name
           /\ dict_get str_eqb name (clients (snd r)) = Some csock'
           /\ exists ok rest,
                trace (snd r) =
                trace w2
                ++ Send csock' (system_msg (welcome_text name (server_id w2))) ok
                   :: rest).
Proof.
  assert (Htaken : forall csock d u w name,
      asks_for name d -> name <> [] -> In name (names (clients w)) ->
      let ok := send_ok E (tick w) csock in
      login E csock (JDict d) u w =
        ((if ok then Next else Raised), u,
         emit_event w (Send csock (error_msg (py "username taken")) ok))
      /\ clients (snd (login E csock (JDict d) u w)) = clients w).
  { intros csock d u w name Hd Hne Hin ok.
    rewrite (login_taken E csock d u w name Hd Hne Hin). split; reflexivity. }
  split; [exact Htaken|].
  split; [|split; [|split; [|split; [|split]]]].
  - intros csock d u w name Ht Hd Hne Hin ok.
    rewrite (first_loop_body_login csock d u w Ht).
    exact (Htaken csock d u w name Hd Hne Hin).
  - intros csock name w. split.
    + intros Hin. unfold try_register. apply dict_mem_names in Hin. rewrite Hin.
      rewrite send_json_fst. destruct (send_ok E (tick w) csock); simpl;
        split; try discriminate; reflexivity.
    + intros Hfresh. unfold try_register.
      rewrite (dict_set_fresh _ _ _ Hfresh).
      apply dict_mem_false_names in Hfresh. rewrite Hfresh. reflexivity.
  - intros csock m u w. apply first_loop_body_grant.
  - intros ops w. destruct (run_evolves E ops w) as (_ & _ & Hn & _). exact Hn.
  - intros name s1 d1 rest w Hne Hd1 Hrest Hfresh w1.
    destruct (login_fresh E s1 d1 None w name Hd1 Hne Hfresh) as (_ & Hget & _).
    fold w1 in Hget.
    assert (Hall : login_all E ((s1, d1) :: rest) w
                   = emit_events w1 (rejections E (tick w1) rest)).
    { simpl. fold w1. apply (login_all_taken E name rest Hne Hrest).
      eapply dict_get_names. exact Hget. }
    split; [exact Hall|]. rewrite Hall.
    destruct (emit_events_fields (rejections E (tick w1) rest) w1)
      as (_ & _ & -> & _).
    exact Hget.
  - intros csock first_msg rx w name csock' d' u' Hnd Hlast Ht Hd' w2.
    destruct (client_loops_grants csock first_msg rx w) as (Hu & _).
    cbv zeta in Hu. rewrite Hlast in Hu.
    pose proof (handle_client_releases E csock first_msg rx w name Hnd Hu)
      as Hgone.
    fold w2 in Hgone. refine (conj Hu (conj Hgone _)).
    rewrite (first_loop_body_login csock' d' u' w2 Ht).
    apply login_fresh; [exact Hd' | | exact Hgone].
    pose proof (client_loops_named E csock first_msg rx w) as Hnamed.
    rewrite Hu in Hnamed. intros ->. apply Hnamed. reflexivity.
Qed.
End SessionClaims.



Lemma registration_check_and_insert_witness :
  let w2 := handle_client fair_env 1 (Some (obj_of (login_fields "alice")))
              [Recv (line_of quit_fields)] node_A in
  ~ In (py "alice") (names (clients w2))
  /\ dict_get str_eqb (py "alice")
       (clients (snd (first_loop_body fair_env 2 (obj_of (login_fields "alice"))
                        None w2)))
     = Some 2.
Proof.
  intros w2.
  destruct (proj2 (proj2 (proj2 (proj2 (proj2 (proj2
              (registration_check_and_insert fair_env))))))
              1 (Some (obj_of (login_fields "alice")))
              [Recv (line_of quit_fields)] node_A (py "alice") 2
              (map (fun kv => (py (fst kv), JStr (py (snd kv))))
                 (login_fields "alice"))
              None
              (NoDup_nil str) eq_refl eq_refl
              (ex_intro _ (py "alice") (conj eq_refl eq_refl)))
    as (_ & Hgone & _ & Hget & _).
  split; [exact Hgone | exact Hget].
Defined.

(** C1, as stated, fails, in two ways. A name outlives its session: a
    connection that registered [bob] and then [alice] has ended and its
    socket is closed, yet a login for [bob] on a new connection is refused.
    And two sessions hold one name: [alice] is registered on socket 1; the
    join notice of [bob] cannot be sent to her, which drops her entry while
    her handler goes on with the name; a login for [alice] on socket 3 is
    then granted; no socket has been closed; and when the first session
    ends, its cleanup removes the entry of the second. *)
Lemma name_is_not_tied_to_its_session :
  (let w' :=
     route_connection fair_env 1
       [Recv (line_of []); Recv (line_of (login_fields "bob"));
        Recv (line_of (login_fields "alice")); Recv (line_of quit_fields)]
       node_A in
   last (trace w') (Sleep 0) = Close 1
   /\ first_loop_body fair_env 2 (obj_of (login_fields "bob")) None w'
      = (Next, None,
         emit_event w' (Send 2 (error_msg (py "username taken")) true)))
  /\ (let r1 := first_loop_body evicting_env 1 (obj_of (login_fields "alice"))
                  None node_A in
      let r2 := first_loop_body evicting_env 2 (obj_of (login_fields "bob"))
                  None (snd r1) in
      let r3 := first_loop_body evicting_env 3 (obj_of (login_fields "alice"))
                  None (snd r2) in
      fst r1 = (Next, Some (py "alice"))
      /\ fst r3 = (Next, Some (py "alice"))
      /\ trace (snd r3) =
           [Send 1 (system_msg (welcome_text (py "alice") (py "A"))) true;
            Send 2 (system_msg (welcome_text (py "bob") (py "A"))) true;
            Send 1 (system_msg (joined_text (py "bob"))) false;
            Send 3 (system_msg (welcome_text (py "alice") (py "A"))) true;
            Send 2 (system_msg (joined_text (py "alice"))) true]
      /\ clients (snd r3) = [(py "bob", 2); (py "alice", 3)]
      /\ clients (client_cleanup evicting_env 1 (Some (py "alice")) (snd r3))
         = [(py "bob", 2)]).
Proof. vm_compute. repeat split; reflexivity. Qed.
